(** * net-lab: a shallow embedding of the protocol core

    The development follows the C sources of the stack (utils.c, ethernet.c,
    arp.c, ip.c, icmp.c, udp.c).  Bytes are [Byte.byte], memory regions are
    lists of bytes, C integers are [Z] with their wrap-around written out,
    lengths ([size_t] values that index a region) are [nat].

    The host is little-endian: the stack applies [swap16] unconditionally to
    reach network byte order, and a 16-bit field of a packed header struct is a
    native (low byte first) load or store. *)

From Stdlib Require Import ZArith Lia List Strings.Byte.
From stdpp Require Import base option list gmap.
Import ListNotations.

#[local] Open Scope Z_scope.

(** ** Bytes and machine integers *)

Definition u8 (b : byte) : Z := Z.of_N (Byte.to_N b).

(** Conversion to [uint8_t]: the low eight bits. *)
Definition byte_of_Z (z : Z) : byte :=
  match Byte.of_N (Z.to_N (z mod 256)) with
  | Some b => b
  | None => x00
  end.

Definition wrap16 (z : Z) : Z := z mod 65536.
Definition wrap32 (z : Z) : Z := z mod 4294967296.

(** A native [uint16_t] load from two consecutive bytes of memory. *)
Definition load16 (b0 b1 : byte) : Z := u8 b0 + 256 * u8 b1.

(** A native [uint16_t] store: the two bytes written to memory. *)
Definition store16 (v : Z) : list byte :=
  [byte_of_Z (Z.land v 255); byte_of_Z (Z.land (Z.shiftr v 8) 255)].

(** Modelled from the spec: the byte-order macro [swap16] of utils.h, which is
    not among the sources.  Multi-byte wire fields are big-endian; on the
    little-endian host the macro exchanges the two low bytes of its operand. *)
Definition swap16 (x : Z) : Z :=
  Z.lor (Z.shiftl (Z.land x 255) 8) (Z.land (Z.shiftr x 8) 255).

(** ** utils.c: checksum16 *)

(** Steps 1 and 2 of [checksum16]: the [for] loop adds the [len / 2] native
    16-bit words of the region into the [uint32_t] accumulator; when [len] is
    odd the last byte is added as [(uint16_t)last_byte]. *)
Fixpoint sum16 (data : list byte) (sum : Z) : Z :=
  match data with
  | b0 :: b1 :: rest => sum16 rest (wrap32 (sum + load16 b0 b1))
  | [last_byte] => wrap32 (sum + u8 last_byte)
  | [] => sum
  end.

(** Step 3: [while (sum >> 16) sum = (sum & 0xFFFF) + (sum >> 16);].
    [fuel] bounds the number of iterations; [fold_carry_exit] shows that a
    32-bit accumulator leaves the loop through its test within two. *)
Fixpoint fold_carry (fuel : nat) (sum : Z) : Z :=
  match fuel with
  | O => sum
  | S fuel' =>
      if Z.shiftr sum 16 =? 0 then sum
      else fold_carry fuel' (Z.land sum 65535 + Z.shiftr sum 16)
  end.

(** Step 4: [(uint16_t)~sum]. *)
Definition checksum16 (data : list byte) : Z :=
  let sum := sum16 data 0 in
  let sum := fold_carry 32 sum in
  Z.land (Z.lnot sum) 65535.

(** *** The checksum as the specification words it

    The 16-bit words of the region in network order, an odd trailing byte
    being the high byte of a last word whose low byte is zero. *)
Fixpoint be_words (d : list byte) : list Z :=
  match d with
  | hi :: lo :: rest => (256 * u8 hi + u8 lo) :: be_words rest
  | [hi] => [256 * u8 hi]
  | [] => []
  end.

Definition sum_list (ws : list Z) : Z := foldr Z.add 0 ws.

(** Folding the carries above bit 15 back until none remains.  The sum is an
    unbounded integer here; [Z.log2] of it bounds the number of rounds. *)
Definition fold_until_no_carry (s : Z) : Z :=
  fold_carry (S (Z.to_nat (Z.log2 s))) s.

Definition internet_checksum (d : list byte) : Z :=
  65535 - fold_until_no_carry (sum_list (be_words d)).

(** The two bytes a native store of [v] leaves in memory, read in network
    order. *)
Definition wire16 (v : Z) : Z := swap16 v.

(** The native 16-bit words [sum16] reads, as a list (used to state what the
    loop adds up). *)
Fixpoint le_words (d : list byte) : list Z :=
  match d with
  | b0 :: b1 :: rest => load16 b0 b1 :: le_words rest
  | [last_byte] => [u8 last_byte]
  | [] => []
  end.

(** The representative of a ones'-complement sum that carry folding reaches:
    zero for zero, otherwise the residue modulo 65535 taken in 1..65535. *)
Definition ocnorm (s : Z) : Z :=
  if s =? 0 then 0 else (s - 1) mod 65535 + 1.

(** A header field that is the [i]-th 16-bit word of a region: a native store
    of [v] into it, as in [hdr->checksum16 = v]. *)
Definition set_field16 (d : list byte) (i : nat) (v : Z) : list byte :=
  list_inserts (2 * i) (store16 v) d.

(** Zero the checksum field, compute [checksum16] over the region and store
    the result in the field (the senders' idiom, e.g. ip.c lines 127-130). *)
Definition embed_checksum (d : list byte) (i : nat) : list byte :=
  let d0 := set_field16 d i 0 in
  set_field16 d0 i (checksum16 d0).

(** ** Addresses *)

(** [uint8_t ip[NET_IP_LEN]] and [uint8_t mac[NET_MAC_LEN]]: plain values of
    four and six bytes, compared byte-wise. *)
Abbreviation ip_t := (byte * byte * byte * byte)%type.
Abbreviation mac_t := (byte * byte * byte * byte * byte * byte)%type.

Definition ip_bytes (ip : ip_t) : list byte :=
  let '(a, b, c, d) := ip in [a; b; c; d].

Definition mac_bytes (mac : mac_t) : list byte :=
  let '(a, b, c, d, e, f) := mac in [a; b; c; d; e; f].

#[global] Instance byte_eq_dec : EqDecision byte := Byte.byte_eq_dec.
#[global] Instance byte_countable : Countable byte :=
  inj_countable Byte.to_N Byte.of_N Byte.of_to_N.

(** ** The packet buffer *)

(** [buf_t]: the storage array [payload], the start [data] of the window (an
    offset into [payload], a pointer in C) and the window length [len]. *)
Record buf_t := Buf { payload : list byte; data : nat; len : nat }.

(** The bytes of the window, [buf->data[0 .. buf->len)]. *)
Definition window (buf : buf_t) : list byte :=
  take (len buf) (drop (data buf) (payload buf)).

(** [memcpy(dst, buf->data + off, n)]. *)
Definition buf_load (buf : buf_t) (off n : nat) : list byte :=
  take n (drop (data buf + off) (payload buf)).

(** [memcpy(buf->data + off, src, n)] and the stores to header fields. *)
Definition buf_store (buf : buf_t) (off : nat) (src : list byte) : buf_t :=
  Buf (list_inserts (data buf + off) src (payload buf)) (data buf) (len buf).

(** Modelled from the spec: the buffer operations of buf.c, which is not among
    the sources.  The spec describes the buffer as a byte region with a movable
    window (offset and length) over a fixed capacity, and prepend-header,
    remove-header, append-padding and remove-trailing-padding as adjustments
    of that window, padding being zero bytes.  An adjustment that does not fit
    leaves the buffer as it is. *)
Definition buf_add_header (buf : buf_t) (n : nat) : buf_t :=
  if (n <=? data buf)%nat then Buf (payload buf) (data buf - n) (len buf + n)
  else buf.

Definition buf_remove_header (buf : buf_t) (n : nat) : buf_t :=
  if (n <=? len buf)%nat then Buf (payload buf) (data buf + n) (len buf - n)
  else buf.

Definition buf_add_padding (buf : buf_t) (n : nat) : buf_t :=
  if (data buf + len buf + n <=? length (payload buf))%nat
  then Buf (list_inserts (data buf + len buf) (replicate n x00) (payload buf))
           (data buf) (len buf + n)
  else buf.

Definition buf_remove_padding (buf : buf_t) (n : nat) : buf_t :=
  if (n <=? len buf)%nat then Buf (payload buf) (data buf) (len buf - n)
  else buf.

(** Modelled from the spec: [buf_init] of buf.c, which is not among the
    sources.  It starts a window of [n] bytes in the storage of [buf]; the
    model places the end of the window at the middle of a storage of
    [buf_max_len] bytes, which leaves room for the headers prepended and the
    padding appended later.  The bytes of the storage are not touched. *)
Definition buf_init (buf_max_len : nat) (buf : buf_t) (n : nat) : buf_t :=
  Buf (payload buf) (buf_max_len / 2 - n) n.

(** A buffer passes as well formed when its window lies inside its storage. *)
Definition buf_wf (buf : buf_t) : Prop :=
  (data buf + len buf <= length (payload buf))%nat.

(** ** utils.c: transport_checksum *)

(** The 12-byte pseudo-header of the spec:
    srcIp[4] || dstIp[4] || 0x00 || protocol || segmentLength as a big-endian
    16-bit value. *)
Definition pseudo_header (src_ip dst_ip : ip_t) (protocol : Z) (seg_len : Z)
  : list byte :=
  ip_bytes src_ip ++ ip_bytes dst_ip ++
  [x00; byte_of_Z protocol; byte_of_Z (seg_len / 256); byte_of_Z seg_len].

Definition transport_checksum (protocol : Z) (buf : buf_t) (src_ip dst_ip : ip_t)
  : Z * buf_t :=
  let orig_buf_len := len buf in
  (* Step1: buf_add_header(buf, sizeof(peso_hdr_t)) *)
  let buf := buf_add_header buf 12 in
  (* Step2: memcpy(ip_hdr_backup, buf->data, sizeof(peso_hdr_t)) *)
  let ip_hdr_backup := buf_load buf 0 12 in
  (* Step3: the fields of the pseudo-header *)
  let buf := buf_store buf 0 (ip_bytes src_ip) in
  let buf := buf_store buf 4 (ip_bytes dst_ip) in
  let buf := buf_store buf 8 [x00] in
  let buf := buf_store buf 9 [byte_of_Z protocol] in
  let buf := buf_store buf 10 (store16 (swap16 (Z.of_nat orig_buf_len))) in
  (* Step4: checksum16((uint16_t * )buf->data, buf->len) *)
  let checksum := checksum16 (window buf) in
  (* Step5: memcpy(buf->data, ip_hdr_backup, sizeof(peso_hdr_t)) *)
  let buf := buf_store buf 0 ip_hdr_backup in
  (* Step6: buf_remove_header(buf, sizeof(peso_hdr_t)) *)
  let buf := buf_remove_header buf 12 in
  (checksum, buf).

(** Reading header fields through [buf->data]. *)
Definition buf_u8 (buf : buf_t) (off : nat) : byte :=
  default x00 (payload buf !! (data buf + off)%nat).

Definition buf_u16 (buf : buf_t) (off : nat) : Z :=
  load16 (buf_u8 buf off) (buf_u8 buf (off + 1)).

Definition buf_ip (buf : buf_t) (off : nat) : ip_t :=
  (buf_u8 buf off, buf_u8 buf (off + 1), buf_u8 buf (off + 2), buf_u8 buf (off + 3)).

Definition buf_mac (buf : buf_t) (off : nat) : mac_t :=
  (buf_u8 buf off, buf_u8 buf (off + 1), buf_u8 buf (off + 2),
   buf_u8 buf (off + 3), buf_u8 buf (off + 4), buf_u8 buf (off + 5)).

(** ** Constants and configuration *)

(** Modelled from the spec: the constants of the headers under include/, which
    are not among the sources (net.h, ethernet.h, arp.h, ip.h, icmp.h), with
    the values of the protocols they name; header fields are read and written
    at the byte offsets of the packed structs [ether_hdr_t], [arp_pkt_t],
    [ip_hdr_t], [icmp_hdr_t] and [udp_hdr_t], which follow the wire layouts. *)

Definition NET_PROTOCOL_ARP : Z := 2054.   (* 0x0806 *)
Definition NET_PROTOCOL_IP : Z := 2048.    (* 0x0800 *)
Definition NET_PROTOCOL_ICMP : Z := 1.
Definition NET_PROTOCOL_UDP : Z := 17.
Definition ETHERNET_MIN_TRANSPORT_UNIT : nat := 46.
Definition ARP_HW_ETHER : Z := 1.
Definition ARP_REQUEST : Z := 1.
Definition ARP_REPLY : Z := 2.
Definition IP_VERSION_4 : Z := 4.
Definition IP_HDR_LEN : Z := 5.
Definition IP_HDR_LEN_PER_BYTE : Z := 4.
Definition IP_HDR_OFFSET_PER_BYTE : Z := 8.
Definition IP_MIN_HDR_LEN : nat := 20.
Definition IP_DEFAULT_TOS : Z := 0.
Definition IP_DEFAULT_TTL : Z := 64.
Definition ICMP_TYPE_ECHO_REQUEST : Z := 8.
Definition ICMP_TYPE_ECHO_REPLY : Z := 0.
Definition ICMP_TYPE_UNREACH : Z := 3.
Definition ICMP_CODE_PROTOCOL_UNREACH : Z := 2.
Definition ICMP_CODE_PORT_UNREACH : Z := 3.

Definition broadcast_mac : mac_t := (xff, xff, xff, xff, xff, xff).
Definition zero_mac : mac_t := (x00, x00, x00, x00, x00, x00).

(** The values fixed by headers that are not among the sources are the
    parameters of the development.  [IP_MAX_PAYLOAD] is the fragmentation
    threshold, the MTU minus the IP header, a positive number;
    [IP_MORE_FRAGMENT] is the MF bit of the flags word. *)
Record net_config := NetConfig {
  net_if_mac : mac_t;
  net_if_ip : ip_t;
  BUF_MAX_LEN : nat;
  IP_MAX_PAYLOAD : positive;
  IP_MORE_FRAGMENT : Z;
  ARP_TIMEOUT_SEC : Z;
  ARP_MIN_INTERVAL : Z
}.

(** ** The expiring table *)

(** Modelled from the spec: the table of map.c, which is not among the
    sources: set(key, value), get(key) giving the value or absent (absent if
    the age of the entry exceeds the configured time to live), delete(key).
    An entry carries the time it was set. *)
Definition map_get {K V} `{Countable K} (timeout : Z) (m : gmap K (V * Z))
    (key : K) (now : Z) : option V :=
  match m !! key with
  | Some (v, t) => if timeout <? now - t then None else Some v
  | None => None
  end.

Definition map_set {K V} `{Countable K} (m : gmap K (V * Z)) (key : K) (v : V)
    (now : Z) : gmap K (V * Z) :=
  <[key := (v, now)]> m.

Definition map_delete {K V} `{Countable K} (m : gmap K (V * Z)) (key : K)
  : gmap K (V * Z) :=
  delete key m.

(** ** The state of the stack *)

(** What crosses a layer boundary, in the order it happens.  The trace is a
    ghost field: the code does not read it. *)
Inductive event :=
| EvIpOut (msg : list byte) (ip : ip_t) (protocol : Z)
| EvIpFragmentOut (frag : list byte) (ip : ip_t) (protocol : Z)
    (id : Z) (offset : Z) (mf : Z)
| EvEthernetOut (pkt : list byte) (mac : mac_t) (protocol : Z)
| EvDriverSend (frame : list byte)
| EvUdpHandler (handler : nat) (msg : list byte) (src_ip : ip_t) (src_port : Z).

(** The globals: [arp_table], [arp_buf], [udp_table] (handlers are named by a
    number), the protocols registered with [net_add_protocol], [ip_id], the
    shared [txbuf], the clock read by the tables, and the trace. *)
Record net_t := Net {
  arp_table : gmap ip_t (mac_t * Z);
  arp_buf : gmap ip_t (buf_t * Z);
  udp_table : gmap Z nat;
  net_protocols : gset Z;
  ip_id : Z;
  txbuf : buf_t;
  now : Z;
  trace : list event
}.

Definition set_arp_table (st : net_t) (m : gmap ip_t (mac_t * Z)) : net_t :=
  Net m (arp_buf st) (udp_table st) (net_protocols st) (ip_id st) (txbuf st)
      (now st) (trace st).
Definition set_arp_buf (st : net_t) (m : gmap ip_t (buf_t * Z)) : net_t :=
  Net (arp_table st) m (udp_table st) (net_protocols st) (ip_id st) (txbuf st)
      (now st) (trace st).
Definition set_ip_id (st : net_t) (id : Z) : net_t :=
  Net (arp_table st) (arp_buf st) (udp_table st) (net_protocols st) id (txbuf st)
      (now st) (trace st).
Definition set_txbuf (st : net_t) (buf : buf_t) : net_t :=
  Net (arp_table st) (arp_buf st) (udp_table st) (net_protocols st) (ip_id st) buf
      (now st) (trace st).
Definition set_now (st : net_t) (t : Z) : net_t :=
  Net (arp_table st) (arp_buf st) (udp_table st) (net_protocols st) (ip_id st)
      (txbuf st) t (trace st).
Definition log (st : net_t) (e : event) : net_t :=
  Net (arp_table st) (arp_buf st) (udp_table st) (net_protocols st) (ip_id st)
      (txbuf st) (now st) (trace st ++ [e]).

(** A [buf_t *] argument of the send path: the shared [txbuf], or a buffer
    of the caller's own (a local of the caller, or an entry of [arp_buf]).
    Per the spec a buffer handed to the next layer belongs to that layer, so
    what becomes of a caller's own buffer is not returned; [txbuf] stays in
    the state. *)
Inductive buf_ref :=
| TxBuf
| OwnBuf (buf : buf_t).

Definition deref (st : net_t) (r : buf_ref) : buf_t :=
  match r with
  | TxBuf => txbuf st
  | OwnBuf buf => buf
  end.

Definition assign (st : net_t) (r : buf_ref) (buf : buf_t) : net_t * buf_ref :=
  match r with
  | TxBuf => (set_txbuf st buf, TxBuf)
  | OwnBuf _ => (st, OwnBuf buf)
  end.

(** [buf_t frag_buf;]: a local buffer.  Its storage is indeterminate in C;
    every byte the code exposes is written before it is read, and the model
    starts from zeros. *)
Definition local_buf (cfg : net_config) : buf_t :=
  Buf (replicate (BUF_MAX_LEN cfg) x00) 0 0.

Section Stack.

Context (cfg : net_config).

(** ** ethernet.c *)

(** The link primitive [driver_send] is outside the core: the frame handed to
    it is recorded. *)
Definition driver_send (st : net_t) (buf : buf_t) : net_t :=
  log st (EvDriverSend (window buf)).

(** What [ethernet_out] does to the buffer: pad to the minimum transport
    unit, prepend the 14-byte header, fill destination, source and protocol. *)
Definition ethernet_frame (buf : buf_t) (mac : mac_t) (protocol : Z) : buf_t :=
  let buf :=
    if (len buf <? ETHERNET_MIN_TRANSPORT_UNIT)%nat
    then buf_add_padding buf (ETHERNET_MIN_TRANSPORT_UNIT - len buf)
    else buf in
  let buf := buf_add_header buf 14 in
  let buf := buf_store buf 0 (mac_bytes mac) in
  let buf := buf_store buf 6 (mac_bytes (net_if_mac cfg)) in
  buf_store buf 12 (store16 (swap16 protocol)).

Definition ethernet_out (st : net_t) (r : buf_ref) (mac : mac_t) (protocol : Z)
  : net_t :=
  let st := log st (EvEthernetOut (window (deref st r)) mac protocol) in
  let '(st, r) := assign st r (ethernet_frame (deref st r) mac protocol) in
  driver_send st (deref st r).

(** ** arp.c *)

Definition arp_req (st : net_t) (target_ip : ip_t) : net_t :=
  let buf := buf_init (BUF_MAX_LEN cfg) (txbuf st) 28 in
  let buf := buf_store buf 0 (store16 (swap16 ARP_HW_ETHER)) in
  let buf := buf_store buf 2 (store16 (swap16 NET_PROTOCOL_IP)) in
  let buf := buf_store buf 4 [byte_of_Z 6] in
  let buf := buf_store buf 5 [byte_of_Z 4] in
  let buf := buf_store buf 6 (store16 (swap16 ARP_REQUEST)) in
  let buf := buf_store buf 8 (mac_bytes (net_if_mac cfg)) in
  let buf := buf_store buf 14 (ip_bytes (net_if_ip cfg)) in
  let buf := buf_store buf 18 (replicate 6 x00) in
  let buf := buf_store buf 24 (ip_bytes target_ip) in
  let st := set_txbuf st buf in
  ethernet_out st TxBuf broadcast_mac NET_PROTOCOL_ARP.

Definition arp_resp (st : net_t) (target_ip : ip_t) (target_mac : mac_t) : net_t :=
  let buf := buf_init (BUF_MAX_LEN cfg) (txbuf st) 28 in
  let buf := buf_store buf 0 (store16 (swap16 ARP_HW_ETHER)) in
  let buf := buf_store buf 2 (store16 (swap16 NET_PROTOCOL_IP)) in
  let buf := buf_store buf 4 [byte_of_Z 6] in
  let buf := buf_store buf 5 [byte_of_Z 4] in
  let buf := buf_store buf 6 (store16 (swap16 ARP_REPLY)) in
  let buf := buf_store buf 8 (mac_bytes (net_if_mac cfg)) in
  let buf := buf_store buf 14 (ip_bytes (net_if_ip cfg)) in
  let buf := buf_store buf 18 (mac_bytes target_mac) in
  let buf := buf_store buf 24 (ip_bytes target_ip) in
  let st := set_txbuf st buf in
  ethernet_out st TxBuf target_mac NET_PROTOCOL_ARP.

(** The checks at the head of [arp_in]: the packet is complete, for Ethernet
    and IPv4, and a request or a reply. *)
Definition arp_valid (buf : buf_t) : bool :=
  negb (len buf <? 28)%nat
  && (swap16 (buf_u16 buf 0) =? ARP_HW_ETHER)
  && (swap16 (buf_u16 buf 2) =? NET_PROTOCOL_IP)
  && (u8 (buf_u8 buf 4) =? 6)
  && (u8 (buf_u8 buf 5) =? 4)
  && ((swap16 (buf_u16 buf 6) =? ARP_REQUEST)
      || (swap16 (buf_u16 buf 6) =? ARP_REPLY)).

Definition arp_in (st : net_t) (buf : buf_t) (src_mac : mac_t) : net_t :=
  if negb (arp_valid buf) then st
  else
    let opcode := swap16 (buf_u16 buf 6) in
    let sender_mac := buf_mac buf 8 in
    let sender_ip := buf_ip buf 14 in
    let target_ip := buf_ip buf 24 in
    (* map_set(&arp_table, arp_pkt->sender_ip, arp_pkt->sender_mac) *)
    let st := set_arp_table st (map_set (arp_table st) sender_ip sender_mac (now st)) in
    match map_get (ARP_MIN_INTERVAL cfg) (arp_buf st) sender_ip (now st) with
    | Some cached_buf =>
        let st := ethernet_out st (OwnBuf cached_buf) sender_mac NET_PROTOCOL_IP in
        set_arp_buf st (map_delete (arp_buf st) sender_ip)
    | None =>
        if (opcode =? ARP_REQUEST) && bool_decide (target_ip = net_if_ip cfg)
        then arp_resp st sender_ip sender_mac
        else st
    end.

Definition arp_out (st : net_t) (r : buf_ref) (ip : ip_t) : net_t :=
  match map_get (ARP_TIMEOUT_SEC cfg) (arp_table st) ip (now st) with
  | Some dst_mac => ethernet_out st r dst_mac NET_PROTOCOL_IP
  | None =>
      match map_get (ARP_MIN_INTERVAL cfg) (arp_buf st) ip (now st) with
      | Some _ => st
      | None =>
          (* map_set copies the buffer (buf_copy) *)
          let st := set_arp_buf st (map_set (arp_buf st) ip (deref st r) (now st)) in
          arp_req st ip
      end
  end.

(** ** ip.c: the send side *)

(** The header [ip_fragment_out] prepends and fills.  [version] and [hdr_len]
    are the two 4-bit fields of the first byte, version in the high half. *)
Definition ip_fragment_hdr (buf : buf_t) (ip : ip_t) (protocol id offset mf : Z)
  : buf_t :=
  let buf := buf_add_header buf 20 in
  let buf := buf_store buf 0
    [byte_of_Z (Z.lor (Z.land (u8 (buf_u8 buf 0)) 15) (Z.shiftl IP_VERSION_4 4))] in
  let buf := buf_store buf 0
    [byte_of_Z (Z.lor (Z.land (u8 (buf_u8 buf 0)) 240) IP_HDR_LEN)] in
  let buf := buf_store buf 1 [byte_of_Z IP_DEFAULT_TOS] in
  let buf := buf_store buf 2 (store16 (swap16 (Z.of_nat (len buf)))) in
  let buf := buf_store buf 4 (store16 (swap16 id)) in
  let flags_fragment := 0 in
  let flags_fragment :=
    if mf =? 0 then flags_fragment
    else wrap16 (Z.lor flags_fragment (IP_MORE_FRAGMENT cfg)) in
  let flags_fragment :=
    wrap16 (Z.lor flags_fragment (offset / IP_HDR_OFFSET_PER_BYTE)) in
  let buf := buf_store buf 6 (store16 (swap16 flags_fragment)) in
  let buf := buf_store buf 8 [byte_of_Z IP_DEFAULT_TTL] in
  let buf := buf_store buf 9 [byte_of_Z protocol] in
  let buf := buf_store buf 12 (ip_bytes (net_if_ip cfg)) in
  let buf := buf_store buf 16 (ip_bytes ip) in
  let buf := buf_store buf 10 (store16 0) in
  buf_store buf 10 (store16 (checksum16 (buf_load buf 0 20))).

Definition ip_fragment_out (st : net_t) (r : buf_ref) (ip : ip_t)
    (protocol id offset mf : Z) : net_t :=
  let st := log st (EvIpFragmentOut (window (deref st r)) ip protocol id offset mf) in
  let '(st, r) := assign st r (ip_fragment_hdr (deref st r) ip protocol id offset mf) in
  arp_out st r ip.

Definition max_payload : nat := Pos.to_nat (IP_MAX_PAYLOAD cfg).

(** The [while (sent_len + IP_MAX_PAYLOAD < payload_len)] loop of [ip_out].
    Each round reads the source through the pointer [buf] again.  The loop
    advances [sent_len] by a positive amount, so [payload_len] rounds of fuel
    are never used up ([ip_out_loop_fuel]). *)
Fixpoint ip_out_loop (fuel : nat) (st : net_t) (r : buf_ref) (ip : ip_t)
    (protocol cur_id : Z) (payload_len sent_len : nat) (fragment_offset : Z)
  : net_t * nat * Z :=
  match fuel with
  | O => (st, sent_len, fragment_offset)
  | S fuel' =>
      if (sent_len + max_payload <? payload_len)%nat then
        let frag_buf := buf_init (BUF_MAX_LEN cfg) (local_buf cfg) max_payload in
        let frag_buf :=
          buf_store frag_buf 0 (buf_load (deref st r) sent_len max_payload) in
        let st := ip_fragment_out st (OwnBuf frag_buf) ip protocol cur_id
                    fragment_offset 1 in
        ip_out_loop fuel' st r ip protocol cur_id payload_len
          (sent_len + max_payload) (wrap16 (fragment_offset + Z.of_nat max_payload))
      else (st, sent_len, fragment_offset)
  end.

Definition ip_out (st : net_t) (r : buf_ref) (ip : ip_t) (protocol : Z) : net_t :=
  let st := log st (EvIpOut (window (deref st r)) ip protocol) in
  let payload_len := len (deref st r) in
  if (max_payload <? payload_len)%nat then
    let cur_id := ip_id st in
    let st := set_ip_id st (wrap16 (ip_id st + 1)) in
    let '(st, sent_len, fragment_offset) :=
      ip_out_loop payload_len st r ip protocol cur_id payload_len 0 0 in
    let last_frag_len := (payload_len - sent_len)%nat in
    if (0 <? last_frag_len)%nat then
      let last_frag_buf := buf_init (BUF_MAX_LEN cfg) (local_buf cfg) last_frag_len in
      let last_frag_buf :=
        buf_store last_frag_buf 0 (buf_load (deref st r) sent_len last_frag_len) in
      ip_fragment_out st (OwnBuf last_frag_buf) ip protocol cur_id fragment_offset 0
    else st
  else
    let cur_id := ip_id st in
    let st := set_ip_id st (wrap16 (ip_id st + 1)) in
    ip_fragment_out st r ip protocol cur_id 0 0.

(** ** icmp.c *)

Definition icmp_resp (st : net_t) (req_buf : buf_t) (src_ip : ip_t) : net_t :=
  let buf := buf_init (BUF_MAX_LEN cfg) (txbuf st) (len req_buf) in
  let buf := buf_store buf 0 (window req_buf) in
  let buf := buf_store buf 0 [byte_of_Z ICMP_TYPE_ECHO_REPLY] in
  let buf := buf_store buf 1 [byte_of_Z 0] in
  let buf := buf_store buf 2 (store16 0) in
  let buf := buf_store buf 2 (store16 (checksum16 (window buf))) in
  let st := set_txbuf st buf in
  ip_out st TxBuf src_ip NET_PROTOCOL_ICMP.

Definition icmp_in (st : net_t) (buf : buf_t) (src_ip : ip_t) : net_t :=
  if (len buf <? 8)%nat then st
  else if negb (u8 (buf_u8 buf 0) =? ICMP_TYPE_ECHO_REQUEST) then st
  else icmp_resp st buf src_ip.

(** [recv_buf->len - ip_hdr_len] is a [size_t] subtraction: it wraps. *)
Definition icmp_unreachable (st : net_t) (recv_buf : buf_t) (src_ip : ip_t)
    (code : Z) : net_t :=
  let ip_hdr_len := Z.to_nat ((u8 (buf_u8 recv_buf 0) mod 16) * IP_HDR_LEN_PER_BYTE) in
  let icmp_data_len := (ip_hdr_len + 8)%nat in
  let icmp_total_len := (8 + icmp_data_len)%nat in
  let buf := buf_init (BUF_MAX_LEN cfg) (txbuf st) icmp_total_len in
  let buf := buf_store buf 0 [byte_of_Z ICMP_TYPE_UNREACH] in
  let buf := buf_store buf 1 [byte_of_Z code] in
  let buf := buf_store buf 2 (store16 0) in
  let buf := buf_store buf 4 (store16 0) in
  let buf := buf_store buf 6 (store16 0) in
  let buf := buf_store buf 8 (buf_load recv_buf 0 ip_hdr_len) in
  let payload_copy_len :=
    let d := (Z.of_nat (len recv_buf) - Z.of_nat ip_hdr_len) mod 2 ^ 64 in
    Z.to_nat (if 8 <=? d then 8 else d) in
  let buf := buf_store buf (8 + ip_hdr_len)
               (buf_load recv_buf ip_hdr_len payload_copy_len) in
  let buf :=
    if (payload_copy_len <? 8)%nat
    then buf_store buf (8 + ip_hdr_len + payload_copy_len)
           (replicate (8 - payload_copy_len) x00)
    else buf in
  let buf := buf_store buf 2 (store16 (checksum16 (window buf))) in
  let st := set_txbuf st buf in
  ip_out st TxBuf src_ip NET_PROTOCOL_ICMP.

(** ** udp.c: the receive side *)

Inductive udp_in_result :=
| UdpDropShort        (* buf->len < sizeof(udp_hdr_t) *)
| UdpDropLength       (* buf->len < udp_total_len *)
| UdpDropChecksum
| UdpUnreachable      (* no handler: ICMP port unreachable sent *)
| UdpDelivered.

(** Step 1 of [udp_in]: the two length checks, then the trim to the declared
    length. *)
Definition udp_in_check (buf : buf_t) : udp_in_result + buf_t :=
  if (len buf <? 8)%nat then inl UdpDropShort
  else
    let udp_total_len := swap16 (buf_u16 buf 4) in
    if Z.of_nat (len buf) <? udp_total_len then inl UdpDropLength
    else
      inr (if udp_total_len <? Z.of_nat (len buf)
           then buf_remove_padding buf (len buf - Z.to_nat udp_total_len)
           else buf).

(** Steps 2 to 5: checksum verification and dispatch. *)
Definition udp_in_verify (st : net_t) (buf : buf_t) (src_ip : ip_t)
  : net_t * buf_t * udp_in_result :=
  let orig_checksum := buf_u16 buf 6 in
  let buf := buf_store buf 6 (store16 0) in
  let '(calc_checksum, buf) :=
    transport_checksum NET_PROTOCOL_UDP buf src_ip (net_if_ip cfg) in
  if negb (calc_checksum =? orig_checksum) then
    (st, buf_store buf 6 (store16 orig_checksum), UdpDropChecksum)
  else
    let buf := buf_store buf 6 (store16 orig_checksum) in
    let dst_port := swap16 (buf_u16 buf 2) in
    match udp_table st !! dst_port with
    | None =>
        let buf := buf_add_header buf (Z.to_nat (IP_HDR_LEN * IP_HDR_LEN_PER_BYTE)) in
        let st := icmp_unreachable st buf src_ip ICMP_CODE_PORT_UNREACH in
        (st, buf, UdpUnreachable)
    | Some handler =>
        let src_port := swap16 (buf_u16 buf 0) in
        let buf := buf_remove_header buf 8 in
        (log st (EvUdpHandler handler (window buf) src_ip src_port), buf, UdpDelivered)
    end.

Definition udp_in (st : net_t) (buf : buf_t) (src_ip : ip_t)
  : net_t * buf_t * udp_in_result :=
  match udp_in_check buf with
  | inl dropped => (st, buf, dropped)
  | inr buf => udp_in_verify st buf src_ip
  end.

(** ** ip.c: the receive side *)

(** Modelled from the spec: [net_in] of net.c, which is not among the
    sources: it hands the payload to the handler registered for the protocol
    and reports -1 when none is.  The handlers this core registers are
    [icmp_in] ([icmp_init]) and [udp_in] ([udp_init]); a handler registered
    by other code is outside the model. *)
Definition net_in (st : net_t) (buf : buf_t) (protocol : Z) (src_ip : ip_t)
  : net_t * buf_t * Z :=
  if bool_decide (protocol ∈ net_protocols st) then
    if protocol =? NET_PROTOCOL_ICMP then (icmp_in st buf src_ip, buf, 0)
    else if protocol =? NET_PROTOCOL_UDP then
      let '(st, buf, _) := udp_in st buf src_ip in (st, buf, 0)
    else (st, buf, 0)
  else (st, buf, -1).

Inductive ip_in_result :=
| IpDropShort         (* buf->len < IP_MIN_HDR_LEN *)
| IpDropVersion
| IpDropHdrLen
| IpDropTotalLen
| IpDropChecksum
| IpDropNotLocal
| IpUnreachable       (* no handler: ICMP protocol unreachable sent *)
| IpDelivered.

(** Steps 1 to 3 of [ip_in]: length, version, header length, total length and
    header checksum.  The buffer comes back as the checks leave it. *)
Definition ip_in_validate (buf : buf_t) : buf_t * option ip_in_result :=
  if (len buf <? IP_MIN_HDR_LEN)%nat then (buf, Some IpDropShort)
  else
    let version := u8 (buf_u8 buf 0) / 16 in
    let hdr_len := u8 (buf_u8 buf 0) mod 16 in
    if negb (version =? IP_VERSION_4) then (buf, Some IpDropVersion)
    else if (hdr_len <? IP_HDR_LEN) || (15 <? hdr_len) then (buf, Some IpDropHdrLen)
    else
      let actual_hdr_len := wrap16 (hdr_len * IP_HDR_LEN_PER_BYTE) in
      let ip_total_len := swap16 (buf_u16 buf 2) in
      if (Z.of_nat (len buf) <? ip_total_len) || (ip_total_len <? actual_hdr_len)
      then (buf, Some IpDropTotalLen)
      else
        let orig_checksum := buf_u16 buf 10 in
        let buf := buf_store buf 10 (store16 0) in
        let calc_checksum := checksum16 (buf_load buf 0 (Z.to_nat actual_hdr_len)) in
        if negb (calc_checksum =? orig_checksum) then (buf, Some IpDropChecksum)
        else (buf_store buf 10 (store16 orig_checksum), None).

(** Steps 4 to 7: destination, padding, header removal, dispatch. *)
Definition ip_in_deliver (st : net_t) (buf : buf_t)
  : net_t * buf_t * ip_in_result :=
  let actual_hdr_len := Z.to_nat (wrap16 ((u8 (buf_u8 buf 0) mod 16) * IP_HDR_LEN_PER_BYTE)) in
  let ip_total_len := swap16 (buf_u16 buf 2) in
  if negb (bool_decide (buf_ip buf 16 = net_if_ip cfg)) then (st, buf, IpDropNotLocal)
  else
    let protocol := u8 (buf_u8 buf 9) in
    let src_ip := buf_ip buf 12 in
    let buf :=
      if ip_total_len <? Z.of_nat (len buf)
      then buf_remove_padding buf (len buf - Z.to_nat ip_total_len)
      else buf in
    let buf := buf_remove_header buf actual_hdr_len in
    let '(st, buf, ret) := net_in st buf protocol src_ip in
    if ret =? -1 then
      let buf := buf_add_header buf actual_hdr_len in
      let st := icmp_unreachable st buf src_ip ICMP_CODE_PROTOCOL_UNREACH in
      (st, buf, IpUnreachable)
    else (st, buf, IpDelivered).

Definition ip_in (st : net_t) (buf : buf_t) (src_mac : mac_t)
  : net_t * buf_t * ip_in_result :=
  match ip_in_validate buf with
  | (buf, Some dropped) => (st, buf, dropped)
  | (buf, None) => ip_in_deliver st buf
  end.

End Stack.

(** ** Packets as the specification lays them out *)

(** The 28-byte ARP request for [target_ip]: hwType 1, proType 0x0800,
    hwLen 6, proLen 4, opcode 1, the local MAC and IP, a zero target MAC and
    the target IP. *)
Definition arp_request (cfg : net_config) (target_ip : ip_t) : list byte :=
  [x00; x01; x08; x00; x06; x04; x00; x01] ++
  mac_bytes (net_if_mac cfg) ++ ip_bytes (net_if_ip cfg) ++
  replicate 6 x00 ++ ip_bytes target_ip.

(** An Ethernet II frame: destination, source, ethertype in network order,
    and the payload padded with zeros to 46 bytes. *)
Definition ether_frame (dst src : mac_t) (protocol : Z) (pkt : list byte)
  : list byte :=
  mac_bytes dst ++ mac_bytes src ++
  [byte_of_Z (protocol / 256); byte_of_Z protocol] ++
  pkt ++ replicate (ETHERNET_MIN_TRANSPORT_UNIT - length pkt) x00.

(** A 16-bit value in network order. *)
Definition be16 (v : Z) : list byte := [byte_of_Z (v / 256); byte_of_Z v].

(** The flags and fragment-offset word [ip_fragment_out] computes. *)
Definition ip_flags_fragment (cfg : net_config) (offset mf : Z) : Z :=
  let flags_fragment := if mf =? 0 then 0 else wrap16 (Z.lor 0 (IP_MORE_FRAGMENT cfg)) in
  wrap16 (Z.lor flags_fragment (offset / IP_HDR_OFFSET_PER_BYTE)).

(** The 20-byte IPv4 header of the spec, with the checksum field holding the
    native store of [checksum]. *)
Definition ip_header (cfg : net_config) (total_len id flags_fragment protocol : Z)
    (dst : ip_t) (checksum : Z) : list byte :=
  [x45; x00] ++ be16 total_len ++ be16 id ++ be16 flags_fragment ++
  [x40; byte_of_Z protocol] ++ store16 checksum ++
  ip_bytes (net_if_ip cfg) ++ ip_bytes dst.

(** ** Reading the trace *)

Definition is_fragment_out (e : event) : bool :=
  match e with EvIpFragmentOut _ _ _ _ _ _ => true | _ => false end.

Definition is_ip_out (e : event) : bool :=
  match e with EvIpOut _ _ _ => true | _ => false end.

(** The calls to [ip_fragment_out], and to [ip_out], in a trace. *)
Definition fragment_calls (tr : list event) : list event :=
  List.filter is_fragment_out tr.

Definition ip_out_calls (tr : list event) : list event :=
  List.filter is_ip_out tr.

Definition frag_offset (e : event) : Z :=
  match e with EvIpFragmentOut _ _ _ _ offset _ => offset | _ => -1 end.

Definition frag_payload (e : event) : list byte :=
  match e with EvIpFragmentOut frag _ _ _ _ _ => frag | _ => [] end.

Definition frag_id (e : event) : Z :=
  match e with EvIpFragmentOut _ _ _ id _ _ => id | _ => -1 end.

Definition frag_mf (e : event) : Z :=
  match e with EvIpFragmentOut _ _ _ _ _ mf => mf | _ => -1 end.

(** The [k]-th of [n] fragments of the payload [w] cut at every [T] bytes,
    as a call to [ip_fragment_out]: offset [k * T] kept in a [uint16_t], MF
    set on all but the last. *)
Definition fragment_call (T : nat) (w : list byte) (ip : ip_t) (protocol id : Z)
    (n k : nat) : event :=
  EvIpFragmentOut (take T (drop (k * T) w)) ip protocol id
    (wrap16 (Z.of_nat (k * T))) (if (S k <? n)%nat then 1 else 0).

(** [arp_out] for [ip] sends or drops without issuing an ARP request: the
    address is in the cache, or a request is pending. *)
Definition arp_quiet (cfg : net_config) (st : net_t) (ip : ip_t) : Prop :=
  is_Some (map_get (ARP_TIMEOUT_SEC cfg) (arp_table st) ip (now st)) \/
  is_Some (map_get (ARP_MIN_INTERVAL cfg) (arp_buf st) ip (now st)).

(** The buffer [ip_out] reads its payload from is not overwritten while the
    fragments go out: it is the caller's own, or it is the shared [txbuf] and
    [arp_out] issues no ARP request (which is built in [txbuf]). *)
Definition source_kept (cfg : net_config) (st : net_t) (r : buf_ref) (ip : ip_t)
  : Prop :=
  match r with
  | OwnBuf _ => True
  | TxBuf => arp_quiet cfg st ip
  end.

(** ** Concrete configurations and inputs *)

(** An Ethernet host: MTU 1500, so a fragmentation threshold of 1480 bytes;
    buffers of 2 * 65535 + 255 bytes; MF is bit 13 of the flags word. *)
Definition eth_cfg : net_config :=
  NetConfig (x02, x00, x00, x00, x00, x01) (x0a, x00, x00, x01)
    (Z.to_nat 131325) 1480%positive 8192 60 1.

(** A small configuration for running the definitions: threshold 8 bytes,
    buffers of 256 bytes. *)
Definition small_cfg : net_config :=
  NetConfig (x02, x00, x00, x00, x00, x01) (x0a, x00, x00, x01)
    256 8%positive 8192 60 1.

(** The stack after start-up, before any traffic: empty tables, ICMP and UDP
    registered, a zeroed transmit buffer. *)
Definition init_state (cfg : net_config) : net_t :=
  Net ∅ ∅ ∅ {[NET_PROTOCOL_ICMP; NET_PROTOCOL_UDP]} 0
      (Buf (replicate (BUF_MAX_LEN cfg) x00) 0 0) 0 [].

Definition peer_ip : ip_t := (x0a, x00, x00, x02).
Definition peer_mac : mac_t := (xaa, xaa, xaa, xaa, xaa, xaa).

(** A buffer of the caller's own holding [n] bytes of payload [b], with
    [room] bytes in front. *)
Definition payload_buf (cfg : net_config) (room n : nat) (b : byte) : buf_t :=
  Buf (replicate room x00 ++ replicate n b ++
       replicate (BUF_MAX_LEN cfg - room - n) x00) room n.

(** The ICMP destination-unreachable message of the spec: type 3, the code,
    the checksum of the whole message, id 0, seq 0, then the data section. *)
Definition icmp_unreach_msg (code : Z) (data_section : list byte) : list byte :=
  [byte_of_Z ICMP_TYPE_UNREACH; byte_of_Z code] ++
  store16 (checksum16 ([byte_of_Z ICMP_TYPE_UNREACH; byte_of_Z code;
                        x00; x00; x00; x00; x00; x00] ++ data_section)) ++
  [x00; x00; x00; x00] ++ data_section.

(** The first eight bytes of a segment, zero bytes standing in for those a
    shorter segment lacks. *)
Definition first8 (seg : list byte) : list byte :=
  take 8 (seg ++ replicate 8 x00).

Definition ip_out_msg (e : event) : list byte :=
  match e with EvIpOut msg _ _ => msg | _ => [] end.

(** 131076 bytes of 0xFF: 65538 words, one more than a 32-bit accumulator
    adds without wrapping. *)
Definition all_ones_region : list byte := replicate (Z.to_nat 131076) xff.

(** A payload of 66608 bytes in a buffer of the caller: 46 fragments of at
    most 1480 bytes, the last at byte offset 66600. *)
Definition big_buf : buf_t :=
  Buf (replicate (Z.to_nat 131325) x00) 0 (Z.to_nat 66608).

(** A payload of 65516 bytes with room for a header in front: header and
    payload make 65536 bytes. *)
Definition long_buf : buf_t :=
  Buf (replicate (Z.to_nat 131325) x00) 20 (Z.to_nat 65516).

(** A received datagram from [peer_ip] to 10.0.0.1 as [udp_in] gets it: the
    IP header [iph] in the storage in front of the window, the UDP segment
    in the window. *)
Definition rx_buf (iph seg : list byte) : buf_t :=
  Buf (replicate 44 x00 ++ iph ++ seg ++ replicate (192 - length seg) x00)
      (44 + length iph) (length seg).

Definition sample_ip_hdr : list byte :=
  [x45; x00; x00; x1e; x00; x00; x00; x00; x40; x11; xde; xad;
   x0a; x00; x00; x02; x0a; x00; x00; x01].

(** Ports 0x1234 to 0x0035, declared length 10, two bytes of data; the
    checksum 0x0571 is the one [transport_checksum] computes. *)
Definition sample_udp_seg : list byte :=
  [x12; x34; x00; x35; x00; x0a; x71; x05; x68; x69].

(** The same segment declaring a length of 4; the checksum matches the
    pseudo-header and the four bytes that remain after the trim. *)
Definition short_udp_seg : list byte :=
  [x12; x34; x00; x35; x00; x04; xd9; x7e; x68; x69].

(** An ARP reply from the peer, as [arp_in] gets it. *)
Definition arp_reply_buf : buf_t :=
  Buf ([x00; x01; x08; x00; x06; x04; x00; x02] ++
       mac_bytes peer_mac ++ ip_bytes peer_ip ++
       mac_bytes (net_if_mac small_cfg) ++ ip_bytes (net_if_ip small_cfg) ++
       replicate 18 x00) 0 46.

(** A 24-byte IP header: header length 6 words, one word of options. *)
Definition options_ip_hdr : list byte :=
  [x46; x00; x00; x22; x00; x00; x00; x00; x40; x11; xde; xad;
   x0a; x00; x00; x02; x0a; x00; x00; x01; x01; x01; x01; x00].

(** The start-up state with a 20-byte payload in the shared [txbuf], the
    buffer [icmp_resp], [icmp_unreachable] and [udp_send] hand to [ip_out]. *)
Definition tx_payload_state : net_t :=
  set_txbuf (init_state small_cfg) (payload_buf small_cfg 64 20 x41).


(** * The rest of the sources *)

(** ** utils.c: ip_prefix_match *)

(** The inner [for] loop over the eight bits of [flag], a [uint8_t], from the
    top one down: [inl] is the [return count] inside the loop, [inr] the
    count the loop ends with.  [count] is a [uint8_t] too. *)
Fixpoint ip_prefix_match_bits (j : nat) (flag count : Z) : Z + Z :=
  match j with
  | O => inr count
  | S j' =>
      if negb (Z.land flag (Z.shiftl 1 7) =? 0) then inl count
      else ip_prefix_match_bits j' (Z.shiftl flag 1 mod 256) ((count + 1) mod 256)
  end.

(** The outer loop over the bytes of the two addresses. *)
Fixpoint ip_prefix_match_bytes (ipa ipb : list byte) (count : Z) : Z :=
  match ipa, ipb with
  | a :: ipa', b :: ipb' =>
      match ip_prefix_match_bits 8 (Z.lxor (u8 a) (u8 b)) count with
      | inl count => count
      | inr count => ip_prefix_match_bytes ipa' ipb' count
      end
  | _, _ => count
  end.

Definition ip_prefix_match (ipa ipb : ip_t) : Z :=
  ip_prefix_match_bytes (ip_bytes ipa) (ip_bytes ipb) 0.

(** The bits of a byte and of an address, the most significant first. *)
Definition byte_bits (b : byte) : list bool :=
  map (fun i => Z.testbit (u8 b) (Z.of_nat i)) [7; 6; 5; 4; 3; 2; 1; 0]%nat.

Definition ip_bits (ip : ip_t) : list bool :=
  concat (map byte_bits (ip_bytes ip)).

(** ** Registration and start-up *)

Definition set_udp_table (st : net_t) (m : gmap Z nat) : net_t :=
  Net (arp_table st) (arp_buf st) m (net_protocols st) (ip_id st) (txbuf st)
      (now st) (trace st).
Definition set_net_protocols (st : net_t) (s : gset Z) : net_t :=
  Net (arp_table st) (arp_buf st) (udp_table st) s (ip_id st) (txbuf st)
      (now st) (trace st).

(** Modelled from the spec: [net_add_protocol] of net.c, which is not among
    the sources: it enters a handler for the protocol in the registry, the
    last registration for a key winning.  The handlers of this core are
    fixed by the protocol number, so the registry is the set of numbers. *)
Definition net_add_protocol (st : net_t) (protocol : Z) : net_t :=
  set_net_protocols st ({[protocol]} ∪ net_protocols st).

(** [arp_init]: [map_init] empties the two tables; the ARP handler is
    registered; an ARP request for the local address goes out. *)
Definition arp_init (cfg : net_config) (st : net_t) : net_t :=
  let st := set_arp_table st ∅ in
  let st := set_arp_buf st ∅ in
  let st := net_add_protocol st NET_PROTOCOL_ARP in
  arp_req cfg st (net_if_ip cfg).

Definition ip_init (st : net_t) : net_t := net_add_protocol st NET_PROTOCOL_IP.

Definition icmp_init (st : net_t) : net_t := net_add_protocol st NET_PROTOCOL_ICMP.

Definition udp_init (st : net_t) : net_t :=
  let st := set_udp_table st ∅ in
  net_add_protocol st NET_PROTOCOL_UDP.

(** ** udp.c: ports and the send side *)

(** [udp_open] and [udp_close]: [map_set] and [map_delete] on [udp_table].
    The table is created with no timeout and its entries do not expire.  The
    [int] that [map_set] gives back is returned to the caller; the table
    modelled from the spec takes every entry, so it is 0. *)
Definition udp_open (st : net_t) (port : Z) (handler : nat) : net_t * Z :=
  (set_udp_table st (<[port := handler]> (udp_table st)), 0).

Definition udp_close (st : net_t) (port : Z) : net_t :=
  set_udp_table st (delete port (udp_table st)).

(** What [udp_out] does to the buffer: the header in front of the data, the
    checksum over pseudo-header, header and data in the checksum field. *)
Definition udp_segment (cfg : net_config) (buf : buf_t) (src_port : Z)
    (dst_ip : ip_t) (dst_port : Z) : buf_t :=
  let buf := buf_add_header buf 8 in
  let buf := buf_store buf 0 (store16 (swap16 src_port)) in
  let buf := buf_store buf 2 (store16 (swap16 dst_port)) in
  let buf := buf_store buf 4 (store16 (swap16 (Z.of_nat (len buf)))) in
  let buf := buf_store buf 6 (store16 0) in
  let '(checksum, buf) :=
    transport_checksum NET_PROTOCOL_UDP buf (net_if_ip cfg) dst_ip in
  buf_store buf 6 (store16 checksum).

Definition udp_out (cfg : net_config) (st : net_t) (r : buf_ref) (src_port : Z)
    (dst_ip : ip_t) (dst_port : Z) : net_t :=
  let '(st, r) := assign st r (udp_segment cfg (deref st r) src_port dst_ip dst_port) in
  ip_out cfg st r dst_ip NET_PROTOCOL_UDP.

(** [udp_send]: [len] bytes of [data] are copied to [txbuf]; the caller
    passes a [len] that [data] has. *)
Definition udp_send (cfg : net_config) (st : net_t) (data : list byte) (len : Z)
    (src_port : Z) (dst_ip : ip_t) (dst_port : Z) : net_t :=
  let buf := buf_init (BUF_MAX_LEN cfg) (txbuf st) (Z.to_nat len) in
  let buf := buf_store buf 0 (take (Z.to_nat len) data) in
  let st := set_txbuf st buf in
  udp_out cfg st TxBuf src_port dst_ip dst_port.

(** ** ethernet.c: the receive side *)

(** The first four bytes behind a pointer to a MAC address: what a handler
    that takes a source IP reads when it is handed a source MAC. *)
Definition mac_ip_prefix (mac : mac_t) : ip_t :=
  let '(a, b, c, d, _, _) := mac in (a, b, c, d).

(** Modelled from the spec: [net_in] of net.c as [ethernet_in] calls it.  The
    registry is the one [ip_in] dispatches through, keyed by ethertype or IP
    protocol number; the handlers this core registers for ethertypes are
    [arp_in] ([arp_init]) and [ip_in] ([ip_init]). *)
Definition net_in_ether (cfg : net_config) (st : net_t) (buf : buf_t)
    (protocol : Z) (src_mac : mac_t) : net_t * buf_t * Z :=
  if bool_decide (protocol ∈ net_protocols st) then
    if protocol =? NET_PROTOCOL_ARP then (arp_in cfg st buf src_mac, buf, 0)
    else if protocol =? NET_PROTOCOL_IP then
      let '(st, buf, _) := ip_in cfg st buf src_mac in (st, buf, 0)
    else net_in cfg st buf protocol (mac_ip_prefix src_mac)
  else (st, buf, -1).

(** [ethernet_in]: the header is read through [ehdr], which keeps pointing
    at the start of the frame after the header is removed. *)
Definition ethernet_in (cfg : net_config) (st : net_t) (buf : buf_t)
  : net_t * buf_t :=
  if (len buf <? 14)%nat then (st, buf)
  else
    let ehdr := buf in
    let src_mac := buf_mac ehdr 6 in
    let buf := buf_remove_header buf 14 in
    let protocol := swap16 (buf_u16 ehdr 12) in
    let '(st, buf, _) := net_in_ether cfg st buf protocol src_mac in
    (st, buf).

(** ** Packets as they are laid out *)

(** The 8-byte UDP header in network order, the checksum field holding the
    native store of [checksum]. *)
Definition udp_header (src_port dst_port total_len checksum : Z) : list byte :=
  be16 src_port ++ be16 dst_port ++ be16 total_len ++ store16 checksum.

(** The UDP segment [udp_out] builds for [payload_bytes]. *)
Definition udp_datagram (src_ip dst_ip : ip_t) (src_port dst_port : Z)
    (payload_bytes : list byte) : list byte :=
  let total_len := Z.of_nat (length payload_bytes + 8) in
  udp_header src_port dst_port total_len
    (checksum16 (pseudo_header src_ip dst_ip NET_PROTOCOL_UDP total_len ++
                 udp_header src_port dst_port total_len 0 ++ payload_bytes))
  ++ payload_bytes.

(** The 28-byte ARP reply to [target_ip] at [target_mac]. *)
Definition arp_reply (cfg : net_config) (target_ip : ip_t) (target_mac : mac_t)
  : list byte :=
  [x00; x01; x08; x00; x06; x04; x00; x02] ++
  mac_bytes (net_if_mac cfg) ++ ip_bytes (net_if_ip cfg) ++
  mac_bytes target_mac ++ ip_bytes target_ip.

Definition is_driver_send (e : event) : bool :=
  match e with EvDriverSend _ => true | _ => false end.

Definition is_udp_handler (e : event) : bool :=
  match e with EvUdpHandler _ _ _ _ => true | _ => false end.

(** The frames handed to the driver, and the calls to UDP handlers, in a
    trace. *)
Definition frames_sent (tr : list event) : list event :=
  List.filter is_driver_send tr.

Definition handler_calls (tr : list event) : list event :=
  List.filter is_udp_handler tr.

(** What the inner loop of [ip_prefix_match] returns for a pair of bytes, as
    a check that can be run: either the bytes are equal and eight is added to
    the count, or the loop returns at the first bit, from the top, where they
    differ. *)
Definition prefix_step_ok (a b : byte) (c : Z) : Prop :=
  match ip_prefix_match_bits 8 (Z.lxor (u8 a) (u8 b)) c with
  | inl r =>
      a <> b /\ (c <= r /\ r < c + 8) /\
      take (Z.to_nat (r - c)) (byte_bits a) = take (Z.to_nat (r - c)) (byte_bits b) /\
      byte_bits a !! Z.to_nat (r - c) <> byte_bits b !! Z.to_nat (r - c)
  | inr r => a = b /\ r = c + 8
  end.

Definition prefix_step_check (a b : byte) (c : Z) : bool :=
  match ip_prefix_match_bits 8 (Z.lxor (u8 a) (u8 b)) c with
  | inl r =>
      bool_decide
        (a <> b /\ (c <= r /\ r < c + 8) /\
         take (Z.to_nat (r - c)) (byte_bits a) = take (Z.to_nat (r - c)) (byte_bits b) /\
         byte_bits a !! Z.to_nat (r - c) <> byte_bits b !! Z.to_nat (r - c))
  | inr r => bool_decide (a = b /\ r = c + 8)
  end.

(** The 256 bytes. *)
Definition all_bytes : list byte :=
  map (fun n => byte_of_Z (Z.of_nat n)) (seq 0 256).

(** A 28-byte ARP packet for Ethernet and IPv4: hwType 1, proType 0x0800,
    hwLen 6, proLen 4, the opcode, then sender and target addresses. *)
Definition arp_packet (opcode : Z) (sender_mac : mac_t) (sender_ip : ip_t)
    (target_mac : mac_t) (target_ip : ip_t) : list byte :=
  [x00; x01; x08; x00; x06; x04] ++ be16 opcode ++
  mac_bytes sender_mac ++ ip_bytes sender_ip ++
  mac_bytes target_mac ++ ip_bytes target_ip.

(** A second host, the peer of [small_cfg]: the same sizes, the addresses
    [peer_mac] and [peer_ip]. *)
Definition peer_cfg : net_config :=
  NetConfig peer_mac peer_ip 256 8%positive 8192 60 1.

(** The stack after [arp_init], [ip_init], [icmp_init] and [udp_init] on a
    host with a zeroed transmit buffer; the frame [arp_init] sent is in the
    trace. *)
Definition up_state (cfg : net_config) : net_t :=
  udp_init (icmp_init (ip_init (arp_init cfg
    (Net ∅ ∅ ∅ ∅ 0 (Buf (replicate (BUF_MAX_LEN cfg) x00) 0 0) 0 [])))).

(** What the send path leaves alone: the port table, the registry, and the
    calls to UDP handlers in the trace. *)
Definition keeps_upper (st st' : net_t) : Prop :=
  udp_table st' = udp_table st /\ net_protocols st' = net_protocols st /\
  handler_calls (trace st') = handler_calls (trace st).

(** An IPv4 header of [hl_words] 32-bit words: the 20 fixed bytes, the
    checksum field holding the native store of [checksum], then the options. *)
Definition ip_header_opts (hl_words : nat) (tos total id ff ttl protocol : Z)
    (src dst : ip_t) (opts : list byte) (checksum : Z) : list byte :=
  [byte_of_Z (64 + Z.of_nat hl_words); byte_of_Z tos] ++ be16 total ++ be16 id ++
  be16 ff ++ [byte_of_Z ttl; byte_of_Z protocol] ++ store16 checksum ++
  ip_bytes src ++ ip_bytes dst ++ opts.

(** ** utils.c: iptos and mactos *)

(** The characters [sprintf] writes for [%d] with an argument from 0 to 255
    (a [uint8_t] promoted to [int]): the decimal digits, no leading zeros. *)
Definition decimal_digit (v : Z) : byte := byte_of_Z (48 + v).

Definition sprintf_d (v : Z) : list byte :=
  if v <? 10 then [decimal_digit v]
  else if v <? 100 then [decimal_digit (v / 10); decimal_digit (v mod 10)]
  else [decimal_digit (v / 100); decimal_digit (v / 10 mod 10); decimal_digit (v mod 10)].

(** The characters for [%02X] with such an argument: two hexadecimal digits,
    the letters in upper case. *)
Definition hex_digit (v : Z) : byte :=
  if v <? 10 then byte_of_Z (48 + v) else byte_of_Z (55 + v).

Definition sprintf_02X (v : Z) : list byte := [hex_digit (v / 16); hex_digit (v mod 16)].

(** [iptos] and [mactos]: the characters written to the static buffer
    [output], without the terminating NUL. *)
Definition iptos (ip : ip_t) : list byte :=
  let '(a, b, c, d) := ip in
  sprintf_d (u8 a) ++ [x2e] ++ sprintf_d (u8 b) ++ [x2e] ++
  sprintf_d (u8 c) ++ [x2e] ++ sprintf_d (u8 d).

Definition mactos (mac : mac_t) : list byte :=
  let '(a, b, c, d, e, f) := mac in
  sprintf_02X (u8 a) ++ [x2d] ++ sprintf_02X (u8 b) ++ [x2d] ++
  sprintf_02X (u8 c) ++ [x2d] ++ sprintf_02X (u8 d) ++ [x2d] ++
  sprintf_02X (u8 e) ++ [x2d] ++ sprintf_02X (u8 f).

(** The sizes of the two static buffers: [3 * 4 + 3 + 1] and
    [2 * 6 + 5 + 1]. *)
Definition iptos_output_size : nat := 3 * 4 + 3 + 1.
Definition mactos_output_size : nat := 2 * 6 + 5 + 1.


(** * Properties *)

(** ** Bytes *)

Lemma u8_range b : 0 <= u8 b < 256.
Proof. unfold u8. pose proof (Byte.to_N_bounded b). lia. Qed.

Lemma u8_byte_of_Z z : u8 (byte_of_Z z) = z mod 256.
Proof.
  unfold u8, byte_of_Z.
  pose proof (Z.mod_pos_bound z 256 ltac:(lia)) as Hm.
  destruct (Byte.of_N (Z.to_N (z mod 256))) as [b|] eqn:E.
  - apply Byte.to_of_N in E. rewrite E. lia.
  - apply Byte.of_N_None_iff in E. lia.
Qed.

Lemma byte_of_Z_u8 b : byte_of_Z (u8 b) = b.
Proof.
  unfold byte_of_Z, u8. pose proof (Byte.to_N_bounded b).
  rewrite Z.mod_small by lia. rewrite N2Z.id, Byte.of_to_N. reflexivity.
Qed.

Lemma land_255 v : Z.land v 255 = v mod 256.
Proof. change 255 with (Z.ones 8). rewrite Z.land_ones by lia. reflexivity. Qed.

Lemma land_65535 v : Z.land v 65535 = v mod 65536.
Proof. change 65535 with (Z.ones 16). rewrite Z.land_ones by lia. reflexivity. Qed.

Lemma shiftr_8 v : Z.shiftr v 8 = v / 256.
Proof. rewrite Z.shiftr_div_pow2 by lia. reflexivity. Qed.

Lemma shiftr_16 v : Z.shiftr v 16 = v / 65536.
Proof. rewrite Z.shiftr_div_pow2 by lia. reflexivity. Qed.

Lemma lor_shiftl_8 a b : 0 <= b < 256 -> Z.lor (Z.shiftl a 8) b = 256 * a + b.
Proof.
  intros Hb. rewrite <- Z.add_nocarry_lor.
  - rewrite Z.shiftl_mul_pow2 by lia. change (2 ^ 8) with 256. lia.
  - apply Z.bits_inj'. intros n Hn. rewrite Z.land_spec, Z.bits_0.
    destruct (Z_lt_le_dec n 8).
    + rewrite Z.shiftl_spec_low by lia. reflexivity.
    + replace b with (Z.land b (Z.ones 8))
        by (rewrite Z.land_ones by lia; apply Z.mod_small; change (2 ^ 8) with 256; lia).
      rewrite (Z.land_spec b), Z.ones_spec_high by lia.
      rewrite !andb_false_r. reflexivity.
Qed.

Lemma swap16_arith x : swap16 x = 256 * (x mod 256) + (x / 256) mod 256.
Proof.
  unfold swap16. rewrite !land_255, shiftr_8.
  apply lor_shiftl_8. apply Z.mod_pos_bound. lia.
Qed.

Lemma swap16_range x : 0 <= swap16 x < 65536.
Proof.
  rewrite swap16_arith.
  pose proof (Z.mod_pos_bound x 256 ltac:(lia)).
  pose proof (Z.mod_pos_bound (x / 256) 256 ltac:(lia)). lia.
Qed.

Lemma load16_store16 v :
  match store16 v with
  | [b0; b1] => load16 b0 b1 = v mod 65536
  | _ => False
  end.
Proof.
  unfold store16, load16. rewrite !u8_byte_of_Z, !land_255, shiftr_8.
  rewrite !Z.mod_mod by lia.
  pose proof (Z.div_mod v 256 ltac:(lia)).
  pose proof (Z.div_mod (v / 256) 256 ltac:(lia)).
  pose proof (Z.mod_pos_bound v 256 ltac:(lia)).
  pose proof (Z.mod_pos_bound (v / 256) 256 ltac:(lia)).
  apply Z.mod_unique with (q := v / 256 / 256); lia.
Qed.

(** ** checksum16: the accumulator and the carry loop *)

Lemma load16_range b0 b1 : 0 <= load16 b0 b1 <= 65535.
Proof. unfold load16. pose proof (u8_range b0). pose proof (u8_range b1). lia. Qed.

(** Induction two bytes at a time, the way the summing loop walks a region. *)
Lemma list_pair_ind {A} (P : list A -> Prop) :
  P [] -> (forall a, P [a]) ->
  (forall a0 a1 rest, P rest -> P (a0 :: a1 :: rest)) ->
  forall l, P l.
Proof.
  intros H0 H1 H2 l.
  assert (P l /\ forall a, P (a :: l)) as [? _]; [|assumption].
  induction l as [|x l [IHl IHxl]]; split; auto.
Qed.

Lemma sum_le_words_bound d :
  0 <= sum_list (le_words d) <= 65535 * Z.of_nat ((length d + 1) / 2).
Proof.
  induction d as [|b0|b0 b1 rest IH] using list_pair_ind.
  - simpl. lia.
  - cbn [le_words sum_list foldr length]. pose proof (u8_range b0).
    change ((0 + 1 + 1) / 2)%nat with 1%nat. simpl. lia.
  - cbn [le_words sum_list foldr length].
    fold (sum_list (le_words rest)).
    pose proof (load16_range b0 b1).
    replace ((S (S (length rest)) + 1) / 2)%nat
      with (S ((length rest + 1) / 2)) ; [lia|].
    replace (S (S (length rest)) + 1)%nat with (1 * 2 + (length rest + 1))%nat by lia.
    rewrite Nat.div_add_l by lia. lia.
Qed.

Lemma sum16_spec d : forall acc,
  0 <= acc < 4294967296 ->
  sum16 d acc = wrap32 (acc + sum_list (le_words d)).
Proof.
  induction d as [|b0|b0 b1 rest IH] using list_pair_ind;
    intros acc Hacc; unfold wrap32 in *.
  - simpl. rewrite Z.add_0_r, Z.mod_small by lia. reflexivity.
  - simpl. rewrite Z.add_0_r. reflexivity.
  - cbn [sum16 le_words sum_list foldr]. fold (sum_list (le_words rest)).
    rewrite IH.
    + unfold wrap32. rewrite Zplus_mod_idemp_l. f_equal. lia.
    + unfold wrap32. apply Z.mod_pos_bound. lia.
Qed.

Lemma ocnorm_small s : 0 <= s <= 65535 -> ocnorm s = s.
Proof.
  intros H. unfold ocnorm. destruct (Z.eqb_spec s 0); [lia|].
  rewrite Z.mod_small by lia. lia.
Qed.

Lemma ocnorm_range s : 0 <= s -> 0 <= ocnorm s <= 65535.
Proof.
  intros H. unfold ocnorm. destruct (Z.eqb_spec s 0); [lia|].
  pose proof (Z.mod_pos_bound (s - 1) 65535 ltac:(lia)). lia.
Qed.

Lemma ocnorm_pos s : 0 < s -> 1 <= ocnorm s <= 65535.
Proof.
  intros H. unfold ocnorm. destruct (Z.eqb_spec s 0); [lia|].
  pose proof (Z.mod_pos_bound (s - 1) 65535 ltac:(lia)). lia.
Qed.

(** Two positive sums that differ by a multiple of 65535 fold to the same
    value. *)
Lemma ocnorm_congr s t k : 0 < s -> 0 < t -> s = t + 65535 * k -> ocnorm s = ocnorm t.
Proof.
  intros Hs Ht E. unfold ocnorm.
  destruct (Z.eqb_spec s 0); [lia|]. destruct (Z.eqb_spec t 0); [lia|].
  f_equal. subst s. replace (t + 65535 * k - 1) with (t - 1 + k * 65535) by lia.
  apply Z.mod_add. lia.
Qed.

Lemma fold_carry_ocnorm n : forall s,
  (1 <= n)%nat -> 0 <= s <= 32768 * 2 ^ Z.of_nat n ->
  fold_carry n s = ocnorm s.
Proof.
  induction n as [|n IH]; intros s Hn Hs; [lia|].
  cbn [fold_carry]. rewrite shiftr_16, land_65535.
  destruct (Z.eqb_spec (s / 65536) 0) as [E|E].
  - symmetry. apply ocnorm_small.
    pose proof (Z.div_mod s 65536 ltac:(lia)).
    pose proof (Z.mod_pos_bound s 65536 ltac:(lia)). lia.
  - pose proof (Z.div_mod s 65536 ltac:(lia)) as Hdm.
    pose proof (Z.mod_pos_bound s 65536 ltac:(lia)) as Hlo.
    assert (0 < s / 65536) as Hhi.
    { pose proof (Z.div_pos s 65536 ltac:(lia) ltac:(lia)). lia. }
    rewrite Nat2Z.inj_succ, Z.pow_succ_r in Hs by lia.
    destruct n as [|n].
    + (* the last permitted round: s = 65536 *)
      change (2 ^ Z.of_nat 0) with 1 in Hs.
      cbn [fold_carry].
      rewrite (ocnorm_congr s (s mod 65536 + s / 65536) (s / 65536)) by lia.
      symmetry. apply ocnorm_small. lia.
    + rewrite IH.
      * symmetry. apply (ocnorm_congr s _ (s / 65536)); lia.
      * lia.
      * assert (2 <= 2 ^ Z.of_nat (S n)) as Hp.
        { rewrite Nat2Z.inj_succ, Z.pow_succ_r by lia.
          pose proof (Z.pow_pos_nonneg 2 (Z.of_nat n) ltac:(lia) ltac:(lia)). lia. }
        remember (2 ^ Z.of_nat (S n)) as p. 
        assert (s / 65536 <= p) by (apply Z.div_le_upper_bound; lia).
        destruct (Z.eq_dec (s / 65536) p); lia.
Qed.

Lemma fold_step_facts s :
  0 <= s -> s / 65536 <> 0 ->
  let s1 := s mod 65536 + s / 65536 in
  0 < s1 /\ ocnorm s = ocnorm s1 /\
  (s < 4294967296 -> s1 <= 131070) /\ (s <= 131070 -> s1 <= 65535).
Proof.
  intros Hs Hc s1. subst s1.
  pose proof (Z.div_mod s 65536 ltac:(lia)) as Hdm.
  pose proof (Z.mod_pos_bound s 65536 ltac:(lia)) as Hlo.
  assert (0 < s / 65536) as Hhi.
  { pose proof (Z.div_pos s 65536 ltac:(lia) ltac:(lia)). lia. }
  split; [lia|]. split.
  - apply (ocnorm_congr s _ (s / 65536)); lia.
  - split; intros Hb.
    + assert (s / 65536 < 65536) by (apply Z.div_lt_upper_bound; lia). lia.
    + assert (s / 65536 < 2) by (apply Z.div_lt_upper_bound; lia). lia.
Qed.

(** The loop of step 3 leaves through its test: for a 32-bit accumulator two
    rounds reach a value without carry, and more fuel does not change it. *)
Lemma fold_carry_u32 s n :
  0 <= s < 4294967296 -> (2 <= n)%nat -> fold_carry n s = ocnorm s.
Proof.
  intros Hs Hn. destruct n as [|n]; [lia|].
  cbn [fold_carry]. rewrite shiftr_16, land_65535.
  destruct (Z.eqb_spec (s / 65536) 0) as [E|E].
  { symmetry. apply ocnorm_small.
    pose proof (Z.div_mod s 65536 ltac:(lia)).
    pose proof (Z.mod_pos_bound s 65536 ltac:(lia)). lia. }
  destruct (fold_step_facts s ltac:(lia) E) as (Hpos & -> & Hb & _).
  specialize (Hb ltac:(lia)).
  set (s1 := s mod 65536 + s / 65536) in *. clearbody s1.
  destruct n as [|n]; [lia|].
  cbn [fold_carry]. rewrite shiftr_16, land_65535.
  destruct (Z.eqb_spec (s1 / 65536) 0) as [E1|E1].
  { symmetry. apply ocnorm_small.
    pose proof (Z.div_mod s1 65536 ltac:(lia)).
    pose proof (Z.mod_pos_bound s1 65536 ltac:(lia)). lia. }
  destruct (fold_step_facts s1 ltac:(lia) E1) as (Hpos1 & -> & _ & Hb1).
  specialize (Hb1 ltac:(lia)).
  set (s2 := s1 mod 65536 + s1 / 65536) in *. clearbody s2.
  rewrite ocnorm_small by lia.
  destruct n; cbn [fold_carry]; [reflexivity|].
  rewrite shiftr_16, Z.div_small by lia. reflexivity.
Qed.

Lemma fold_carry_exit s n :
  0 <= s < 4294967296 -> (2 <= n)%nat ->
  fold_carry n s = fold_carry 2 s /\ Z.shiftr (fold_carry n s) 16 = 0.
Proof.
  intros Hs Hn. rewrite !fold_carry_u32 by lia. split; [reflexivity|].
  rewrite shiftr_16. apply Z.div_small.
  pose proof (ocnorm_range s ltac:(lia)). lia.
Qed.

(** The same loop on an unbounded sum, with the fuel the specification-side
    definition gives it. *)
Lemma fold_until_no_carry_ocnorm s : 0 <= s -> fold_until_no_carry s = ocnorm s.
Proof.
  intros Hs. unfold fold_until_no_carry.
  apply fold_carry_ocnorm; [lia|].
  destruct (Z.eq_dec s 0) as [->|Hne].
  - simpl. lia.
  - pose proof (Z.log2_spec s ltac:(lia)) as [_ Hlt].
    pose proof (Z.log2_nonneg s).
    rewrite Nat2Z.inj_succ, Z2Nat.id by lia.
    change 32768 with (2 ^ 15). rewrite <- Z.pow_add_r by lia.
    assert (2 ^ Z.succ (Z.log2 s) <= 2 ^ (15 + Z.succ (Z.log2 s)))
      by (apply Z.pow_le_mono_r; lia).
    lia.
Qed.

Lemma checksum16_ocnorm d :
  checksum16 d = 65535 - ocnorm (wrap32 (sum_list (le_words d))).
Proof.
  unfold checksum16. rewrite sum16_spec by lia. rewrite Z.add_0_l.
  assert (0 <= wrap32 (sum_list (le_words d)) < 4294967296) as Hw
    by (unfold wrap32; apply Z.mod_pos_bound; lia).
  rewrite fold_carry_u32 by lia.
  pose proof (ocnorm_range _ (proj1 Hw)) as Hn.
  set (y := ocnorm _) in *. clearbody y.
  rewrite land_65535. replace (Z.lnot y) with (-y - 1) by (unfold Z.lnot; lia).
  apply eq_sym, Z.mod_unique with (q := -1); lia.
Qed.

Lemma checksum16_range d : 0 <= checksum16 d <= 65535.
Proof.
  rewrite checksum16_ocnorm.
  assert (0 <= wrap32 (sum_list (le_words d))) as Hw
    by (unfold wrap32; apply Z.mod_pos_bound; lia).
  pose proof (ocnorm_range _ Hw). lia.
Qed.


(** ** checksum16 against the network-order reading *)

(** Word by word, the network-order sum is 256 times the host-order sum up
    to a multiple of 65535. *)
Lemma be_le_sums d :
  exists h, 0 <= h /\
    sum_list (be_words d) = 256 * sum_list (le_words d) - 65535 * h /\
    sum_list (be_words d) <= 256 * sum_list (le_words d) /\
    sum_list (le_words d) <= 256 * sum_list (be_words d) /\
    0 <= sum_list (le_words d).
Proof.
  induction d as [|b0|b0 b1 rest (h & Hh & E & H1 & H2 & H3)] using list_pair_ind.
  - exists 0. simpl. lia.
  - exists 0. pose proof (u8_range b0). simpl. lia.
  - exists (h + u8 b1). pose proof (u8_range b0). pose proof (u8_range b1).
    cbn [be_words le_words sum_list foldr] in *. unfold load16.
    fold (sum_list (be_words rest)) in *. fold (sum_list (le_words rest)) in *. lia.
Qed.

Lemma swap16_small y :
  0 <= y <= 65535 ->
  exists l h, 0 <= l < 256 /\ 0 <= h < 256 /\ y = 256 * h + l /\ swap16 y = 256 * l + h.
Proof.
  intros Hy. exists (y mod 256), (y / 256).
  pose proof (Z.div_mod y 256 ltac:(lia)).
  pose proof (Z.mod_pos_bound y 256 ltac:(lia)).
  assert (0 <= y / 256 < 256).
  { split; [apply Z.div_pos; lia|]. apply Z.div_lt_upper_bound; lia. }
  rewrite swap16_arith, (Z.mod_small (y / 256)) by lia. lia.
Qed.

Lemma swap16_complement y : 0 <= y <= 65535 -> swap16 (65535 - y) = 65535 - swap16 y.
Proof.
  intros Hy.
  destruct (swap16_small y Hy) as (l & h & Hl & Hh & Ey & ->).
  destruct (swap16_small (65535 - y) ltac:(lia)) as (l' & h' & Hl' & Hh' & Ey' & ->).
  lia.
Qed.

Lemma swap16_ocnorm a b h :
  0 <= a -> 0 <= b -> b = 256 * a - 65535 * h -> (a = 0 <-> b = 0) ->
  swap16 (ocnorm a) = ocnorm b.
Proof.
  intros Ha Hb E Hz.
  destruct (Z.eq_dec a 0) as [->|Hne].
  - replace b with 0 by lia. reflexivity.
  - assert (0 < b) by lia.
    pose proof (ocnorm_pos a ltac:(lia)) as Hy.
    assert (exists k, a = ocnorm a + 65535 * k) as [k Hk].
    { exists ((a - 1) / 65535). unfold ocnorm.
      destruct (Z.eqb_spec a 0); [lia|].
      pose proof (Z.div_mod (a - 1) 65535 ltac:(lia)). lia. }
    destruct (swap16_small (ocnorm a) ltac:(lia)) as (l & hh & Hl & Hhh & Ey & ->).
    rewrite (ocnorm_congr b (256 * l + hh) (256 * k - h + hh)) by lia.
    symmetry. apply ocnorm_small. lia.
Qed.

Lemma checksum16_wire_sum d :
  sum_list (le_words d) < 4294967296 ->
  wire16 (checksum16 d) = internet_checksum d.
Proof.
  intros Hlt. unfold wire16, internet_checksum.
  destruct (be_le_sums d) as (h & Hh & E & H1 & H2 & H3).
  rewrite checksum16_ocnorm, fold_until_no_carry_ocnorm by lia.
  unfold wrap32. rewrite Z.mod_small by lia.
  rewrite swap16_complement by (apply ocnorm_range; lia).
  f_equal. apply (swap16_ocnorm _ _ h); lia.
Qed.

(** ** The checksum field *)

Lemma set_field16_cons b0 b1 rest i v :
  set_field16 (b0 :: b1 :: rest) (S i) v = b0 :: b1 :: set_field16 rest i v.
Proof.
  unfold set_field16. replace (2 * S i)%nat with (S (S (2 * i))) by lia.
  rewrite !list_inserts_cons. reflexivity.
Qed.

Lemma set_field16_sum d : forall i v,
  (2 * i + 2 <= length d)%nat ->
  sum_list (le_words (set_field16 d i v)) =
  sum_list (le_words (set_field16 d i 0)) + v mod 65536.
Proof.
  induction d as [|b0|b0 b1 rest IH] using list_pair_ind; intros i v Hi;
    [simpl in Hi; lia | simpl in Hi; lia |].
  destruct i as [|i].
  - unfold set_field16. change (2 * 0)%nat with 0%nat.
    cbn [list_inserts store16 insert list_insert].
    cbn [le_words sum_list foldr].
    pose proof (load16_store16 v) as Hv. pose proof (load16_store16 0) as H0.
    unfold store16 in Hv, H0. rewrite Hv, H0. rewrite Z.mod_0_l by lia. lia.
  - rewrite !set_field16_cons. cbn [le_words sum_list foldr].
    fold (sum_list (le_words (set_field16 rest i v))).
    fold (sum_list (le_words (set_field16 rest i 0))).
    rewrite (IH i v) by (simpl in Hi; lia). lia.
Qed.

Lemma set_field16_idem d i v w :
  set_field16 (set_field16 d i v) i w = set_field16 d i w.
Proof.
  unfold set_field16. apply list_eq. intros j.
  destruct (decide (j < 2 * i)%nat).
  { rewrite !list_lookup_inserts_lt by lia. reflexivity. }
  destruct (decide (2 * i + 2 <= j)%nat).
  { rewrite !list_lookup_inserts_ge by (simpl; lia). reflexivity. }
  destruct (decide (j < length d)%nat).
  - rewrite !list_lookup_inserts by (rewrite ?length_inserts; simpl; lia). reflexivity.
  - rewrite !lookup_ge_None_2 by (rewrite ?length_inserts; lia). reflexivity.
Qed.

(** The accumulator of the second pass does not wrap where the first did
    not: adding the complement reaches a multiple of 65535 below 2^32. *)
Lemma complement_closes y :
  0 <= y < 4294967296 ->
  y + (65535 - ocnorm y) < 4294967296 /\ ocnorm (y + (65535 - ocnorm y)) = 65535.
Proof.
  intros Hy.
  destruct (Z.eq_dec y 0) as [->|Hne]; [split; [reflexivity|reflexivity]|].
  assert (ocnorm y = (y - 1) mod 65535 + 1) as ->.
  { unfold ocnorm. destruct (Z.eqb_spec y 0); [lia|reflexivity]. }
  pose proof (Z.div_mod (y - 1) 65535 ltac:(lia)) as Hdm.
  pose proof (Z.mod_pos_bound (y - 1) 65535 ltac:(lia)) as Hm.
  assert ((y - 1) / 65535 <= 65536) as Hq.
  { assert ((y - 1) / 65535 < 65537) by (apply Z.div_lt_upper_bound; lia). lia. }
  assert (0 <= (y - 1) / 65535) by (apply Z.div_pos; lia).
  replace (y + (65535 - ((y - 1) mod 65535 + 1)))
    with (65535 * ((y - 1) / 65535 + 1)) by lia.
  split; [lia|].
  unfold ocnorm. destruct (Z.eqb_spec (65535 * ((y - 1) / 65535 + 1)) 0); [lia|].
  replace (65535 * ((y - 1) / 65535 + 1) - 1)
    with (65534 + ((y - 1) / 65535) * 65535) by lia.
  rewrite Z.mod_add by lia. reflexivity.
Qed.

(** ** C2 and C8 *)

(** C2 (as amended).  For every byte region of at most 131074 bytes (65537
    sixteen-bit words, the most a 32-bit accumulator adds without wrapping),
    the two bytes that [checksum16] returns are, read in network order, the
    value obtained by summing the region's consecutive 16-bit words (an odd
    trailing byte being the high byte of a last word with a zero low byte),
    folding every carry above bit 15 back until none remains, and
    complementing the 16-bit result.  [checksum16] is a total function: it
    yields a 16-bit value for every region, the empty one included. *)
Theorem checksum16_internet_checksum (d : list byte) :
  Z.of_nat (length d) <= 131074 ->
  wire16 (checksum16 d) = internet_checksum d /\ 0 <= checksum16 d <= 65535.
Proof.
  intros Hlen. split; [|apply checksum16_range].
  apply checksum16_wire_sum.
  pose proof (sum_le_words_bound d) as [_ Hb].
  assert (Z.of_nat ((length d + 1) / 2) <= 65537).
  { rewrite Nat2Z.inj_div, Nat2Z.inj_add. change (Z.of_nat 2) with 2.
    change (Z.of_nat 1) with 1.
    assert ((Z.of_nat (length d) + 1) / 2 < 65538)
      by (apply Z.div_lt_upper_bound; lia).
    lia. }
  lia.
Qed.

(** C8.  For every byte sequence [d] whose [i]-th 16-bit word is the checksum
    field, storing [checksum16] of [d] with the field zeroed into the field
    and recomputing [checksum16] over the whole region yields 0. *)
Theorem checksum16_embed_zero (d : list byte) (i : nat) :
  (2 * i + 2 <= length d)%nat ->
  checksum16 (embed_checksum d i) = 0.
Proof.
  intros Hi. unfold embed_checksum.
  set (d0 := set_field16 d i 0).
  assert (length d0 = length d) as Hlen by (unfold d0, set_field16; apply length_inserts).
  rewrite (checksum16_ocnorm (set_field16 d0 i _)).
  rewrite set_field16_sum by lia.
  replace (set_field16 d0 i 0) with d0 by (unfold d0; rewrite set_field16_idem; reflexivity).
  pose proof (checksum16_range d0) as Hc.
  rewrite (Z.mod_small (checksum16 d0)) by lia.
  rewrite checksum16_ocnorm.
  set (s0 := sum_list (le_words d0)).
  assert (0 <= wrap32 s0 < 4294967296) as Hw
    by (unfold wrap32; apply Z.mod_pos_bound; lia).
  destruct (complement_closes (wrap32 s0) Hw) as [Hlt Hn].
  assert (wrap32 (s0 + (65535 - ocnorm (wrap32 s0)))
          = wrap32 s0 + (65535 - ocnorm (wrap32 s0))) as ->.
  { unfold wrap32 at 1. rewrite <- Zplus_mod_idemp_l. fold (wrap32 s0).
    apply Z.mod_small. pose proof (ocnorm_range (wrap32 s0) ltac:(lia)). lia. }
  rewrite Hn. reflexivity.
Qed.


(** ** Memory regions and buffers *)

Lemma byte_of_Z_mod z : byte_of_Z (z mod 256) = byte_of_Z z.
Proof. unfold byte_of_Z. rewrite Z.mod_mod by lia. reflexivity. Qed.

(** A native store of [swap16 n] leaves [n] in memory in network order. *)
Lemma store16_swap16 n : store16 (swap16 n) = [byte_of_Z (n / 256); byte_of_Z n].
Proof.
  unfold store16. rewrite !land_255, shiftr_8, swap16_arith.
  pose proof (Z.mod_pos_bound n 256 ltac:(lia)).
  pose proof (Z.mod_pos_bound (n / 256) 256 ltac:(lia)).
  f_equal; [|f_equal].
  - rewrite byte_of_Z_mod.
    replace (256 * (n mod 256) + (n / 256) mod 256)
      with ((n / 256) mod 256 + (n mod 256) * 256) by lia.
    rewrite <- byte_of_Z_mod, Z.mod_add, Z.mod_mod, byte_of_Z_mod by lia. reflexivity.
  - rewrite byte_of_Z_mod.
    replace (256 * (n mod 256) + (n / 256) mod 256)
      with ((n / 256) mod 256 + (n mod 256) * 256) by lia.
    rewrite Z.div_add, Z.div_small, Z.add_0_l, byte_of_Z_mod by lia. reflexivity.
Qed.

Lemma length_ip_bytes (ip : ip_t) : length (ip_bytes ip) = 4%nat.
Proof. destruct ip as [[[a b] c] d]. reflexivity. Qed.

Lemma length_mac_bytes (mac : mac_t) : length (mac_bytes mac) = 6%nat.
Proof. destruct mac as [[[[[a b] c] d] e] f]. reflexivity. Qed.

Lemma length_store16 v : length (store16 v) = 2%nat.
Proof. reflexivity. Qed.

(** Overwriting a segment in the middle of a region. *)
Lemma inserts_middle {A} (pre old new post : list A) (i : nat) :
  i = length pre -> length new = length old ->
  list_inserts i new (pre ++ old ++ post) = pre ++ new ++ post.
Proof.
  intros -> Hlen. replace (length pre) with (length pre + 0)%nat by lia.
  rewrite list_inserts_app_r. f_equal. apply list_inserts_0_r. assumption.
Qed.

(** Cutting a region at two points. *)
Lemma split3 {A} (l : list A) (i n : nat) :
  (i + n <= length l)%nat ->
  exists pre mid post,
    l = pre ++ mid ++ post /\ length pre = i /\ length mid = n.
Proof.
  intros H. exists (take i l), (take n (drop i l)), (drop (i + n) l).
  split; [|split].
  - rewrite <- drop_drop, !take_drop. reflexivity.
  - rewrite length_take. lia.
  - rewrite length_take, length_drop. lia.
Qed.

Lemma window_mid (pre w post : list byte) i n :
  i = length pre -> n = length w -> window (Buf (pre ++ w ++ post) i n) = w.
Proof.
  intros -> ->. unfold window. cbn [payload data len].
  rewrite drop_app_length, take_app_length. reflexivity.
Qed.

Lemma load_mid {A} (pre w post : list A) i n :
  i = length pre -> n = length w -> take n (drop i (pre ++ w ++ post)) = w.
Proof. intros -> ->. rewrite drop_app_length, take_app_length. reflexivity. Qed.

(** ** transport_checksum *)

(** C7.  For every protocol number, segment buffer with room for the 12-byte
    pseudo-header in front of its window, source IP and destination IP,
    [transport_checksum] returns the [checksum16] of the pseudo-header
    concatenated with the segment, and the buffer it leaves is identical to
    the buffer it was given: same window offset, same length, same storage
    contents, the twelve bytes overwritten by the pseudo-header included. *)
Theorem transport_checksum_frame (protocol : Z) (buf : buf_t) (src_ip dst_ip : ip_t) :
  (12 <= data buf)%nat -> buf_wf buf ->
  transport_checksum protocol buf src_ip dst_ip =
  (checksum16 (pseudo_header src_ip dst_ip protocol (Z.of_nat (len buf)) ++ window buf),
   buf).
Proof.
  intros Hroom Hwf. destruct buf as [mem d n]. unfold buf_wf in Hwf.
  cbn [payload data len] in *.
  destruct (split3 mem (d - 12) (12 + n) ltac:(lia)) as (pre & mid & post & -> & Hpre & Hmid).
  destruct (split3 mid 0 12 ltac:(lia)) as (nil & hdr & seg & -> & Hnil & Hhdr).
  destruct nil; [|discriminate]. cbn [app] in *. rewrite length_app in Hmid.
  unfold transport_checksum, buf_add_header. cbn [payload data len].
  destruct (Nat.leb_spec 12 d) as [_|]; [|lia].
  unfold buf_load, buf_store. cbn [payload data len]. rewrite !Nat.add_0_r.
  (* the five stores amount to one store of the pseudo-header *)
  set (ph := pseudo_header src_ip dst_ip protocol (Z.of_nat n)).
  assert (length ph = 12%nat) as Hph.
  { unfold ph, pseudo_header. rewrite !length_app, !length_ip_bytes. reflexivity. }
  set (m0 := pre ++ (hdr ++ seg) ++ post).
  assert (list_inserts (d - 12 + 10) (store16 (swap16 (Z.of_nat n)))
            (list_inserts (d - 12 + 9) [byte_of_Z protocol]
               (list_inserts (d - 12 + 8) [x00]
                  (list_inserts (d - 12 + 4) (ip_bytes dst_ip)
                     (list_inserts (d - 12) (ip_bytes src_ip) m0))))
          = list_inserts (d - 12) ph m0) as ->.
  { unfold ph, pseudo_header. rewrite store16_swap16.
    rewrite (list_inserts_app_l (ip_bytes src_ip)), length_ip_bytes.
    rewrite (list_inserts_app_l (ip_bytes dst_ip)), length_ip_bytes.
    change [x00; byte_of_Z protocol; byte_of_Z (Z.of_nat n / 256); byte_of_Z (Z.of_nat n)]
      with ([x00] ++ [byte_of_Z protocol] ++
            [byte_of_Z (Z.of_nat n / 256); byte_of_Z (Z.of_nat n)]).
    rewrite (list_inserts_app_l [x00]), (list_inserts_app_l [byte_of_Z protocol]).
    cbn [length].
    replace (1 + (1 + (4 + (4 + (d - 12)))))%nat with (d - 12 + 10)%nat by lia.
    replace (1 + (4 + (4 + (d - 12))))%nat with (d - 12 + 9)%nat by lia.
    replace (4 + (4 + (d - 12)))%nat with (d - 12 + 8)%nat by lia.
    replace (4 + (d - 12))%nat with (d - 12 + 4)%nat by lia.
    reflexivity. }
  unfold m0. rewrite <- !app_assoc.
  rewrite (load_mid pre hdr (seg ++ post)) by lia.
  rewrite (inserts_middle pre hdr ph (seg ++ post)) by lia.
  unfold window. cbn [payload data len].
  rewrite (inserts_middle pre ph hdr (seg ++ post)) by lia.
  unfold buf_remove_header. cbn [payload data len].
  destruct (Nat.leb_spec 12 (n + 12)) as [_|]; [|lia].
  assert (length seg = n) as Hseg by lia.
  f_equal.
  - f_equal. rewrite (drop_app_length' pre) by lia.
    rewrite (app_assoc ph seg post).
    rewrite take_app_length' by (rewrite length_app; lia).
    f_equal. rewrite (app_assoc pre hdr), drop_app_length' by (rewrite length_app; lia).
    rewrite take_app_length' by lia. reflexivity.
  - f_equal; lia.
Qed.


(** ** Stores into a buffer whose storage is cut around the window *)

Lemma inserts_app_seg {A} (w post src : list A) (off : nat) :
  (off + length src <= length w)%nat ->
  list_inserts off src (w ++ post) = list_inserts off src w ++ post.
Proof.
  intros H. apply list_eq. intros j.
  destruct (decide (j < length w)%nat) as [Hj|Hj].
  - rewrite lookup_app_l by (rewrite length_inserts; lia).
    destruct (decide (j < off)%nat).
    { rewrite !list_lookup_inserts_lt by lia. apply lookup_app_l. lia. }
    destruct (decide (off + length src <= j)%nat).
    { rewrite !list_lookup_inserts_ge by lia. apply lookup_app_l. lia. }
    rewrite !list_lookup_inserts by (rewrite ?length_app; lia). reflexivity.
  - rewrite list_lookup_inserts_ge by lia.
    rewrite !lookup_app_r by (rewrite ?length_inserts; lia).
    rewrite length_inserts. reflexivity.
Qed.

Lemma buf_store_mid (pre w post src : list byte) (d n off : nat) :
  d = length pre -> (off + length src <= length w)%nat ->
  buf_store (Buf (pre ++ w ++ post) d n) off src
  = Buf (pre ++ list_inserts off src w ++ post) d n.
Proof.
  intros -> H. unfold buf_store. cbn [payload data len]. f_equal.
  rewrite list_inserts_app_r. f_equal. apply inserts_app_seg. assumption.
Qed.

Lemma buf_u8_mid (pre w post : list byte) (d n off : nat) :
  d = length pre -> (off < length w)%nat ->
  buf_u8 (Buf (pre ++ w ++ post) d n) off = default x00 (w !! off).
Proof.
  intros -> H. unfold buf_u8. cbn [payload data]. f_equal.
  rewrite lookup_app_r by lia. rewrite lookup_app_l by lia. f_equal. lia.
Qed.

Lemma buf_load_mid (pre w post : list byte) (d n off k : nat) :
  d = length pre -> (off + k <= length w)%nat ->
  buf_load (Buf (pre ++ w ++ post) d n) off k = take k (drop off w).
Proof.
  intros -> H. unfold buf_load. cbn [payload data].
  rewrite drop_app_add'  by reflexivity.
  rewrite drop_app_le by lia. rewrite take_app_le by (rewrite length_drop; lia).
  reflexivity.
Qed.

(** Opening a well-formed buffer with [k] bytes of head room. *)
Lemma buf_open (buf : buf_t) (k : nat) :
  (k <= data buf)%nat -> buf_wf buf ->
  exists pre hd w post,
    buf = Buf (pre ++ hd ++ w ++ post) (length pre + k) (length w) /\
    length hd = k /\ window buf = w.
Proof.
  intros Hk Hwf. destruct buf as [mem d n]. unfold buf_wf in Hwf.
  cbn [payload data len] in *.
  destruct (split3 mem (d - k) k ltac:(lia)) as (pre & hd & rest & -> & Hpre & Hhd).
  rewrite !length_app in Hwf.
  destruct (split3 rest 0 n ltac:(lia)) as (nil & w & post & -> & Hnil & Hw).
  destruct nil; [|discriminate]. cbn [app].
  exists pre, hd, w, post. split; [f_equal; lia|]. split; [assumption|].
  unfold window. cbn [payload data len].
  rewrite (app_assoc pre hd), drop_app_length' by (rewrite length_app; lia).
  rewrite take_app_length' by lia. reflexivity.
Qed.

Ltac len_solve :=
  repeat (rewrite ?length_inserts, ?length_app, ?length_store16, ?length_ip_bytes,
            ?length_mac_bytes, ?length_replicate, ?length_take, ?length_drop);
  cbn [length]; lia.

Ltac explode_list l H :=
  repeat (destruct l as [|? l]; [discriminate H|]);
  destruct l; [|discriminate H]; clear H.

(** ** ethernet.c *)

Lemma ethernet_out_eq cfg st r mac protocol :
  ethernet_out cfg st r mac protocol =
  Net (arp_table st) (arp_buf st) (udp_table st) (net_protocols st) (ip_id st)
      (match r with
       | TxBuf => ethernet_frame cfg (txbuf st) mac protocol
       | OwnBuf _ => txbuf st
       end)
      (now st)
      (trace st ++ [EvEthernetOut (window (deref st r)) mac protocol;
                    EvDriverSend (window (ethernet_frame cfg (deref st r) mac protocol))]).
Proof.
  unfold ethernet_out, driver_send, log. destruct r; cbn; rewrite <- app_assoc; reflexivity.
Qed.

(** The frame handed to the driver, for a buffer with room for the header in
    front of its window and for the padding behind it. *)
Lemma ethernet_frame_window cfg buf mac protocol :
  buf_wf buf -> (14 <= data buf)%nat ->
  (data buf + 46 <= length (payload buf))%nat ->
  window (ethernet_frame cfg buf mac protocol)
  = ether_frame mac (net_if_mac cfg) protocol (window buf).
Proof.
  intros Hwf Hroom Htail.
  destruct (buf_open buf 14 Hroom Hwf) as (pre & hd & w & post & -> & Hhd & Hw).
  rewrite Hw. clear Hw. unfold buf_wf in *. cbn [payload data len] in *.
  rewrite !length_app in Htail.
  unfold ethernet_frame, ether_frame, ETHERNET_MIN_TRANSPORT_UNIT. cbn [len].
  assert (exists buf1 pad post',
    (if (length w <? 46)%nat
     then buf_add_padding (Buf (pre ++ hd ++ w ++ post) (length pre + 14) (length w))
            (46 - length w)
     else Buf (pre ++ hd ++ w ++ post) (length pre + 14) (length w)) = buf1 /\
    buf1 = Buf (pre ++ hd ++ (w ++ pad) ++ post') (length pre + 14) (length (w ++ pad)) /\
    pad = replicate (46 - length w) x00) as (buf1 & pad & post' & -> & -> & ->).
  { destruct (Nat.ltb_spec (length w) 46) as [Hlt|Hge].
    - destruct (split3 post 0 (46 - length w) ltac:(lia)) as (nil & old & post' & -> & Hnil & Hold).
      destruct nil; [|discriminate]. cbn [app].
      eexists _, _, post'. split; [reflexivity|]. split; [|reflexivity].
      unfold buf_add_padding. cbn [payload data len].
      rewrite !length_app.
      destruct (Nat.leb_spec (length pre + 14 + length w + (46 - length w))
                  (length pre + (length hd + (length w + (length old + length post'))))); [|lia].
      rewrite length_replicate. f_equal.
      rewrite (app_assoc pre hd), (app_assoc (pre ++ hd) w).
      rewrite (inserts_middle ((pre ++ hd) ++ w) old)
        by (rewrite ?length_app, ?length_replicate; lia).
      rewrite <- !app_assoc. reflexivity.
    - exists (Buf (pre ++ hd ++ w ++ post) (length pre + 14) (length w)), [], post.
      replace (46 - length w)%nat with 0%nat by lia. cbn [replicate].
      rewrite !app_nil_r. repeat split. }
  set (w' := w ++ replicate (46 - length w) x00).
  unfold buf_add_header. cbn [payload data len].
  destruct (Nat.leb_spec 14 (length pre + 14)); [|lia].
  replace (length pre + 14 - 14)%nat with (length pre) by lia.
  rewrite (app_assoc hd w' post').
  destruct mac as [[[[[m0 m1] m2] m3] m4] m5].
  destruct (net_if_mac cfg) as [[[[[s0 s1] s2] s3] s4] s5].
  rewrite !buf_store_mid by len_solve.
  unfold window. cbn [payload data len].
  rewrite drop_app_length.
  rewrite take_app_length' by len_solve.
  rewrite store16_swap16. explode_list hd Hhd.
  cbn. reflexivity.
Qed.


(** ** utils.c: transport_checksum on an opened buffer *)

Lemma length_pseudo_header src_ip dst_ip protocol n :
  length (pseudo_header src_ip dst_ip protocol n) = 12%nat.
Proof. unfold pseudo_header. rewrite !length_app, !length_ip_bytes. reflexivity. Qed.

(** With twelve bytes [hd] in front of the window [w], the checksum is taken
    over the pseudo-header and [w], and [hd] is back in place afterwards. *)
Lemma transport_checksum_open protocol (pre hd w post : list byte) src_ip dst_ip :
  length hd = 12%nat ->
  transport_checksum protocol
    (Buf (pre ++ hd ++ w ++ post) (length pre + 12) (length w)) src_ip dst_ip
  = (checksum16 (pseudo_header src_ip dst_ip protocol (Z.of_nat (length w)) ++ w),
     Buf (pre ++ hd ++ w ++ post) (length pre + 12) (length w)).
Proof.
  intros Hhd. unfold transport_checksum, buf_add_header. cbn [payload data len].
  destruct (Nat.leb_spec 12 (length pre + 12)); [|lia].
  replace (length pre + 12 - 12)%nat with (length pre) by lia.
  rewrite (app_assoc hd w post).
  destruct src_ip as [[[s0 s1] s2] s3]. destruct dst_ip as [[[d0 d1] d2] d3].
  rewrite store16_swap16.
  repeat (first [ rewrite buf_store_mid by len_solve
                | rewrite buf_load_mid by len_solve
                | progress cbn [payload data len] ]).
  rewrite window_mid by len_solve.
  unfold buf_remove_header. cbn [payload data len].
  destruct (Nat.leb_spec 12 (length w + 12)); [|lia].
  replace (length w + 12 - 12)%nat with (length w) by lia.
  explode_list hd Hhd.
  cbn [list_inserts insert list_insert firstn skipn app length lookup
       list_lookup ip_bytes pseudo_header Nat.add Nat.sub drop take].
  unfold Datatypes.id. reflexivity.
Qed.

Lemma transport_checksum_eq (protocol : Z) (buf : buf_t) (src_ip dst_ip : ip_t) :
  (12 <= data buf)%nat -> buf_wf buf ->
  transport_checksum protocol buf src_ip dst_ip =
  (checksum16 (pseudo_header src_ip dst_ip protocol (Z.of_nat (len buf)) ++ window buf),
   buf).
Proof.
  intros Hroom Hwf.
  destruct (buf_open buf 12 Hroom Hwf) as (pre & hd & w & post & -> & Hhd & ->).
  cbn [len]. apply transport_checksum_open. assumption.
Qed.


(** ** arp.c *)

Lemma half_bounds (n : nat) : (2 * (n / 2) <= n <= 2 * (n / 2) + 1)%nat.
Proof.
  pose proof (Nat.div_mod_eq n 2). pose proof (Nat.mod_upper_bound n 2). lia.
Qed.

(** A window started by [buf_init] in a full-size storage. *)
Lemma buf_init_open (bml : nat) (buf : buf_t) (n : nat) :
  length (payload buf) = bml -> (n <= bml / 2)%nat ->
  exists pre old post,
    buf_init bml buf n = Buf (pre ++ old ++ post) (length pre) n /\
    length pre = (bml / 2 - n)%nat /\ length old = n /\
    length post = (bml - bml / 2)%nat.
Proof.
  intros Hlen Hn. pose proof (half_bounds bml).
  destruct (split3 (payload buf) (bml / 2 - n) n ltac:(lia)) as (pre & old & post & E & Hpre & Hold).
  exists pre, old, post. unfold buf_init. rewrite E, Hpre. repeat split; try assumption.
  rewrite E, !length_app in Hlen. lia.
Qed.

Lemma arp_req_eq cfg st target_ip :
  length (payload (txbuf st)) = BUF_MAX_LEN cfg -> (84 <= BUF_MAX_LEN cfg)%nat ->
  exists tx,
    arp_req cfg st target_ip =
    Net (arp_table st) (arp_buf st) (udp_table st) (net_protocols st) (ip_id st)
      tx (now st)
      (trace st ++
       [EvEthernetOut (arp_request cfg target_ip) broadcast_mac NET_PROTOCOL_ARP;
        EvDriverSend (ether_frame broadcast_mac (net_if_mac cfg) NET_PROTOCOL_ARP
                        (arp_request cfg target_ip))]).
Proof.
  intros Hlen Hcap. pose proof (half_bounds (BUF_MAX_LEN cfg)) as Hhalf.
  unfold arp_req.
  destruct (buf_init_open (BUF_MAX_LEN cfg) (txbuf st) 28 Hlen ltac:(lia))
    as (pre & old & post & -> & Hpre & Hold & Hpost).
  rewrite !buf_store_mid by len_solve.
  set (w := list_inserts 24 _ _).
  assert (w = arp_request cfg target_ip) as Hw.
  { unfold w, arp_request. rewrite !store16_swap16.
    destruct (net_if_mac cfg) as [[[[[s0 s1] s2] s3] s4] s5].
    destruct (net_if_ip cfg) as [[[i0 i1] i2] i3].
    destruct target_ip as [[[t0 t1] t2] t3].
    explode_list old Hold. reflexivity. }
  clearbody w. subst w.
  assert (length (arp_request cfg target_ip) = 28%nat) as Hreq.
  { unfold arp_request. len_solve. }
  rewrite ethernet_out_eq. cbn [arp_table arp_buf udp_table net_protocols ip_id txbuf now trace
    set_txbuf deref].
  rewrite ethernet_frame_window;
    [| unfold buf_wf; cbn [payload data len]; len_solve
     | cbn [data]; lia
     | cbn [payload data]; len_solve ].
  rewrite window_mid by (reflexivity || lia).
  eexists. reflexivity.
Qed.

Lemma map_get_later {V} (timeout : Z) (m : gmap ip_t (V * Z)) (key : ip_t) (t1 t2 : Z) :
  t1 <= t2 -> map_get timeout m key t1 = None -> map_get timeout m key t2 = None.
Proof.
  unfold map_get. intros Ht. destruct (m !! key) as [[v t]|]; [|reflexivity].
  destruct (Z.ltb_spec timeout (t1 - t)); [|discriminate].
  destruct (Z.ltb_spec timeout (t2 - t)); [reflexivity|lia].
Qed.

Lemma map_get_set_fresh {V} (timeout : Z) (m : gmap ip_t (V * Z)) (key : ip_t)
    (v : V) (t1 t2 : Z) :
  t2 - t1 <= timeout -> map_get timeout (map_set m key v t1) key t2 = Some v.
Proof.
  intros Ht. unfold map_get, map_set. rewrite lookup_insert_eq.
  destruct (Z.ltb_spec timeout (t2 - t1)); [lia|reflexivity].
Qed.

(** C3.  For every destination IP with no valid ARP cache entry and no
    pending entry, two consecutive calls to [arp_out] for that IP (the second
    made before the pending entry of the first expires) transmit exactly one
    frame, the broadcast ARP request for the IP, and store exactly one
    buffer, the first, as the pending entry; the second call returns having
    transmitted nothing and changed nothing: it neither replaces the stored
    buffer nor queues the new one. *)
Theorem arp_out_twice cfg (st : net_t) (r1 r2 : buf_ref) (ip : ip_t) (t2 : Z) :
  map_get (ARP_TIMEOUT_SEC cfg) (arp_table st) ip (now st) = None ->
  map_get (ARP_MIN_INTERVAL cfg) (arp_buf st) ip (now st) = None ->
  now st <= t2 <= now st + ARP_MIN_INTERVAL cfg ->
  length (payload (txbuf st)) = BUF_MAX_LEN cfg -> (84 <= BUF_MAX_LEN cfg)%nat ->
  let st1 := arp_out cfg st r1 ip in
  let st2 := arp_out cfg (set_now st1 t2) r2 ip in
  trace st1 = trace st ++
    [EvEthernetOut (arp_request cfg ip) broadcast_mac NET_PROTOCOL_ARP;
     EvDriverSend (ether_frame broadcast_mac (net_if_mac cfg) NET_PROTOCOL_ARP
                     (arp_request cfg ip))] /\
  arp_buf st1 = map_set (arp_buf st) ip (deref st r1) (now st) /\
  arp_table st1 = arp_table st /\
  st2 = set_now st1 t2.
Proof.
  intros Hcache Hpend Ht Hlen Hcap st1 st2.
  assert (exists tx, st1 =
    Net (arp_table st) (map_set (arp_buf st) ip (deref st r1) (now st))
      (udp_table st) (net_protocols st) (ip_id st) tx (now st)
      (trace st ++
       [EvEthernetOut (arp_request cfg ip) broadcast_mac NET_PROTOCOL_ARP;
        EvDriverSend (ether_frame broadcast_mac (net_if_mac cfg) NET_PROTOCOL_ARP
                        (arp_request cfg ip))])) as [tx E1].
  { unfold st1, arp_out. rewrite Hcache, Hpend.
    destruct (arp_req_eq cfg
      (set_arp_buf st (map_set (arp_buf st) ip (deref st r1) (now st))) ip)
      as [tx ->]; [assumption..|].
    exists tx. reflexivity. }
  repeat split; try (rewrite E1; reflexivity).
  unfold st2, arp_out. rewrite E1. cbn [set_now arp_table arp_buf now].
  rewrite (map_get_later _ _ _ (now st) t2) by (lia || assumption).
  rewrite map_get_set_fresh by lia. reflexivity.
Qed.

Lemma arp_valid_intro (buf : buf_t) :
  (28 <= len buf)%nat ->
  swap16 (buf_u16 buf 0) = 1 -> swap16 (buf_u16 buf 2) = 2048 ->
  u8 (buf_u8 buf 4) = 6 -> u8 (buf_u8 buf 5) = 4 ->
  swap16 (buf_u16 buf 6) = 1 \/ swap16 (buf_u16 buf 6) = 2 ->
  arp_valid buf = true.
Proof.
  intros Hlen H0 H2 H4 H5 H6. unfold arp_valid.
  destruct (Nat.ltb_spec (len buf) 28); [lia|].
  rewrite H0, H2, H4, H5. destruct H6 as [-> | ->]; reflexivity.
Qed.

(** C4.  For every valid inbound ARP packet (length at least 28, hwType 1,
    proType 0x0800, hwLen 6, proLen 4, opcode 1 or 2) whose sender IP has a
    pending entry, [arp_in] performs exactly one Ethernet transmission, the
    held pending buffer sent to the packet's sender MAC with protocol IP,
    deletes the pending entry, and returns without building or sending an ARP
    reply, whatever the opcode and the target IP; the cache entry for the
    sender is upserted first, and the flush runs on the state that has it. *)
Theorem arp_in_flushes_pending cfg (st : net_t) (buf : buf_t) (src_mac : mac_t)
    (cached_buf : buf_t) :
  (28 <= len buf)%nat ->
  swap16 (buf_u16 buf 0) = 1 -> swap16 (buf_u16 buf 2) = 2048 ->
  u8 (buf_u8 buf 4) = 6 -> u8 (buf_u8 buf 5) = 4 ->
  swap16 (buf_u16 buf 6) = 1 \/ swap16 (buf_u16 buf 6) = 2 ->
  map_get (ARP_MIN_INTERVAL cfg) (arp_buf st) (buf_ip buf 14) (now st)
    = Some cached_buf ->
  let sender_mac := buf_mac buf 8 in
  let sender_ip := buf_ip buf 14 in
  let upserted :=
    set_arp_table st (map_set (arp_table st) sender_ip sender_mac (now st)) in
  let st' := arp_in cfg st buf src_mac in
  st' = set_arp_buf
          (ethernet_out cfg upserted (OwnBuf cached_buf) sender_mac NET_PROTOCOL_IP)
          (map_delete (arp_buf st) sender_ip) /\
  trace st' = trace st ++
    [EvEthernetOut (window cached_buf) sender_mac NET_PROTOCOL_IP;
     EvDriverSend (window (ethernet_frame cfg cached_buf sender_mac NET_PROTOCOL_IP))] /\
  arp_buf st' !! sender_ip = None /\
  arp_table st' !! sender_ip = Some (sender_mac, now st) /\
  txbuf st' = txbuf st.
Proof.
  intros Hlen H0 H2 H4 H5 H6 Hpend sender_mac sender_ip upserted st'.
  assert (st' = set_arp_buf
          (ethernet_out cfg upserted (OwnBuf cached_buf) sender_mac NET_PROTOCOL_IP)
          (map_delete (arp_buf st) sender_ip)) as E.
  { unfold st', arp_in. rewrite (arp_valid_intro buf) by assumption.
    cbn [negb set_arp_table arp_buf now]. fold sender_ip. fold sender_mac.
    unfold sender_ip at 1. rewrite Hpend. rewrite !ethernet_out_eq. reflexivity. }
  split; [exact E|]. rewrite E, ethernet_out_eq.
  cbn [set_arp_buf trace arp_buf arp_table txbuf upserted set_arp_table deref].
  repeat split.
  - unfold map_delete. apply lookup_delete_eq.
  - unfold map_set. apply lookup_insert_eq.
Qed.


(** ** ip.c: the header built by ip_fragment_out *)

(** The two bit-field stores to the first header byte leave 0x45 whatever
    the byte held. *)
Lemma ver_ihl_byte (b : byte) :
  byte_of_Z (Z.lor (Z.land (u8 (byte_of_Z
    (Z.lor (Z.land (u8 b) 15) (Z.shiftl IP_VERSION_4 4)))) 240) IP_HDR_LEN) = x45.
Proof. destruct b; vm_compute; reflexivity. Qed.

Ltac buf_norm :=
  repeat (first [ rewrite buf_store_mid by len_solve
                | rewrite buf_u8_mid by len_solve
                | rewrite buf_load_mid by len_solve
                | progress cbn [payload data len] ]).

Lemma ip_fragment_hdr_eq cfg (pre hd w post : list byte) ip protocol id offset mf :
  length hd = 20%nat ->
  ip_fragment_hdr cfg (Buf (pre ++ hd ++ w ++ post) (length pre + 20) (length w))
    ip protocol id offset mf
  = Buf (pre ++
         ip_header cfg (Z.of_nat (length w + 20)) id (ip_flags_fragment cfg offset mf)
           protocol ip
           (checksum16 (ip_header cfg (Z.of_nat (length w + 20)) id
                          (ip_flags_fragment cfg offset mf) protocol ip 0))
         ++ w ++ post)
        (length pre) (length w + 20).
Proof.
  intros Hhd. unfold ip_fragment_hdr, buf_add_header. cbn [payload data len].
  destruct (Nat.leb_spec 20 (length pre + 20)); [|lia].
  replace (length pre + 20 - 20)%nat with (length pre) by lia.
  rewrite (app_assoc hd w post).
  fold (ip_flags_fragment cfg offset mf).
  destruct (net_if_ip cfg) as [[[s0 s1] s2] s3] eqn:Esrc.
  destruct ip as [[[d0 d1] d2] d3].
  explode_list hd Hhd.
  buf_norm.
  f_equal.
  unfold ip_header. rewrite Esrc, !store16_swap16.
  cbn [app list_inserts insert list_insert ip_bytes default lookup list_lookup
       Nat.add take drop be16 store16 IP_DEFAULT_TOS IP_DEFAULT_TTL].
  unfold Datatypes.id. rewrite !ver_ihl_byte. reflexivity.
Qed.

Lemma length_ip_header cfg total id ff protocol ip c :
  length (ip_header cfg total id ff protocol ip c) = 20%nat.
Proof.
  unfold ip_header. destruct (net_if_ip cfg) as [[[s0 s1] s2] s3].
  destruct ip as [[[d0 d1] d2] d3]. reflexivity.
Qed.

Lemma swap16_load16_be16 v :
  swap16 (load16 (byte_of_Z (v / 256)) (byte_of_Z v)) = v mod 65536.
Proof.
  unfold load16. rewrite !u8_byte_of_Z, swap16_arith.
  pose proof (Z.mod_pos_bound v 256 ltac:(lia)).
  pose proof (Z.mod_pos_bound (v / 256) 256 ltac:(lia)).
  pose proof (Z.div_mod v 256 ltac:(lia)).
  pose proof (Z.div_mod (v / 256) 256 ltac:(lia)).
  replace ((v / 256) mod 256 + 256 * (v mod 256))
    with ((v / 256) mod 256 + (v mod 256) * 256) by lia.
  rewrite Z.mod_add, Z.mod_mod, Z.div_add, (Z.div_small ((v / 256) mod 256)),
    Z.add_0_l, Z.mod_mod by lia.
  apply Z.mod_unique with (q := v / 256 / 256); lia.
Qed.

Lemma load16_store16_val v b0 b1 :
  store16 v = [b0; b1] -> load16 b0 b1 = v mod 65536.
Proof.
  intros E. pose proof (load16_store16 v) as H. rewrite E in H. exact H.
Qed.

Lemma store16_load16 b0 b1 : store16 (load16 b0 b1) = [b0; b1].
Proof.
  unfold store16, load16. rewrite !land_255, shiftr_8.
  pose proof (u8_range b0). pose proof (u8_range b1).
  replace (u8 b0 + 256 * u8 b1) with (u8 b0 + u8 b1 * 256) by lia.
  rewrite Z.mod_add, Z.div_add, (Z.div_small (u8 b0)), Z.add_0_l by lia.
  rewrite !Z.mod_small by lia. rewrite !byte_of_Z_u8. reflexivity.
Qed.

(** What [ip_in]'s validation makes of a datagram laid out as
    [ip_fragment_out] builds it. *)
Lemma ip_in_validate_built cfg (pre w post : list byte) ip protocol id ff :
  20 <= Z.of_nat (length w + 20) mod 65536 ->
  let total := Z.of_nat (length w + 20) in
  let built :=
    Buf (pre ++ ip_header cfg total id ff protocol ip
                  (checksum16 (ip_header cfg total id ff protocol ip 0))
         ++ w ++ post) (length pre) (length w + 20) in
  ip_in_validate built = (built, None).
Proof.
  intros Hlen total built. subst built.
  assert (exists c, c = checksum16 (ip_header cfg total id ff protocol ip 0)
                    /\ 0 <= c <= 65535) as (c & Ec & Hc).
  { eexists. split; [reflexivity|]. apply checksum16_range. }
  rewrite <- Ec. unfold ip_header in *.
  destruct (net_if_ip cfg) as [[[s0 s1] s2] s3].
  destruct ip as [[[d0 d1] d2] d3].
  cbn [app be16 ip_bytes store16] in Ec.
  match goal with |- context [Buf (pre ++ ?h ++ w ++ post) _ _] =>
    let h' := eval cbn [app be16 ip_bytes store16] in h in
    change h with h'
  end.
  unfold ip_in_validate, IP_MIN_HDR_LEN. cbn [len].
  destruct (Nat.ltb_spec (length w + 20) 20); [lia|].
  unfold buf_u16. rewrite !buf_u8_mid by len_solve.
  cbn [lookup list_lookup default from_option Nat.add]. unfold Datatypes.id.
  change (u8 x45 / 16 =? IP_VERSION_4) with true.
  change (u8 x45 mod 16) with 5. cbn [negb].
  change ((5 <? IP_HDR_LEN) || (15 <? 5)) with false.
  change (wrap16 (5 * IP_HDR_LEN_PER_BYTE)) with 20.
  rewrite swap16_load16_be16.
  pose proof (Z.mod_le total 65536 ltac:(unfold total; lia) ltac:(lia)) as Hle.
  unfold total in Hle.
  destruct (Z.ltb_spec (Z.of_nat (length w + 20)) (total mod 65536)) as [Hlt|_];
    [unfold total in Hlt; lia|].
  destruct (Z.ltb_spec (total mod 65536) 20) as [Hlt|_];
    [unfold total in Hlt; lia|]. cbn [orb].
  rewrite (load16_store16_val c) by reflexivity.
  rewrite (Z.mod_small c) by lia.
  buf_norm.
  cbn [list_inserts insert list_insert store16 Nat.add app take drop Z.to_nat Pos.to_nat
       Pos.iter_op].
  match goal with |- context [checksum16 ?l] =>
    replace (checksum16 l) with c by (rewrite Ec; reflexivity)
  end.
  rewrite Z.eqb_refl. cbn [negb]. reflexivity.
Qed.

(** C5 (as amended).  For every payload whose length plus the 20 header
    bytes, as the 16-bit total-length field holds it, is at least 20 (every
    payload of at most 65515 bytes is such), and every destination, the
    datagram built by [ip_fragment_out], presented unmodified to [ip_in],
    passes the validation of version, header length, total length and header
    checksum: [ip_in] goes on to its delivery steps with the buffer as it
    received it. *)
Theorem ip_fragment_out_validates cfg (st : net_t) (buf : buf_t) (ip : ip_t)
    (protocol id offset mf : Z) :
  buf_wf buf -> (20 <= data buf)%nat ->
  20 <= (Z.of_nat (len buf) + 20) mod 65536 ->
  let built := ip_fragment_hdr cfg buf ip protocol id offset mf in
  ip_fragment_out cfg st (OwnBuf buf) ip protocol id offset mf
    = arp_out cfg (log st (EvIpFragmentOut (window buf) ip protocol id offset mf))
        (OwnBuf built) ip /\
  window built =
    ip_header cfg (Z.of_nat (len buf + 20)) id (ip_flags_fragment cfg offset mf)
      protocol ip
      (checksum16 (ip_header cfg (Z.of_nat (len buf + 20)) id
                     (ip_flags_fragment cfg offset mf) protocol ip 0))
    ++ window buf /\
  ip_in_validate built = (built, None) /\
  (forall cfg' st' src_mac,
     ip_in cfg' st' built src_mac = ip_in_deliver cfg' st' built).
Proof.
  intros Hwf Hroom Hlen built. split; [reflexivity|]. subst built.
  destruct (buf_open buf 20 Hroom Hwf) as (pre & hd & w & post & -> & Hhd & Hw).
  rewrite Hw. cbn [len] in *.
  rewrite ip_fragment_hdr_eq by assumption.
  assert (ip_in_validate
            (Buf (pre ++
                  ip_header cfg (Z.of_nat (length w + 20)) id
                    (ip_flags_fragment cfg offset mf) protocol ip
                    (checksum16 (ip_header cfg (Z.of_nat (length w + 20)) id
                                   (ip_flags_fragment cfg offset mf) protocol ip 0))
                  ++ w ++ post) (length pre) (length w + 20))
          = (Buf (pre ++
                  ip_header cfg (Z.of_nat (length w + 20)) id
                    (ip_flags_fragment cfg offset mf) protocol ip
                    (checksum16 (ip_header cfg (Z.of_nat (length w + 20)) id
                                   (ip_flags_fragment cfg offset mf) protocol ip 0))
                  ++ w ++ post) (length pre) (length w + 20), None)) as Hval.
  { apply ip_in_validate_built. rewrite Nat2Z.inj_add. exact Hlen. }
  split; [|split].
  - unfold window. cbn [payload data len].
    rewrite drop_app_length, app_assoc.
    apply take_app_length'. rewrite length_app, length_ip_header. lia.
  - exact Hval.
  - intros cfg' st' src_mac. unfold ip_in. rewrite Hval. reflexivity.
Qed.

(** ** ip.c: the checksum check of ip_in *)

Lemma buf_field16 (buf : buf_t) (off : nat) :
  buf_wf buf -> (off + 2 <= len buf)%nat ->
  exists pre a c0 c1 b post,
    buf = Buf (pre ++ (a ++ [c0; c1] ++ b) ++ post) (length pre) (len buf) /\
    length a = off /\ len buf = length (a ++ [c0; c1] ++ b) /\
    buf_u16 buf off = load16 c0 c1.
Proof.
  intros Hwf Hoff.
  destruct (buf_open buf 0 ltac:(lia) Hwf) as (pre & hd & w & post & E & Hhd & Hw).
  destruct hd; [|discriminate]. cbn [app] in E.
  destruct (split3 w off 2) as (a & f & b & -> & Ha & Hf).
  { rewrite E in Hoff. cbn [len] in Hoff. lia. }
  destruct f as [|c0 [|c1 [|]]]; try discriminate.
  exists pre, a, c0, c1, b, post.
  assert (len buf = length (a ++ [c0; c1] ++ b)) as Hl by (rewrite E; reflexivity).
  repeat split; try assumption.
  - rewrite E at 1. cbn [len]. f_equal; lia.
  - rewrite E. unfold buf_u16.
    replace (length pre + 0)%nat with (length pre) by lia.
    rewrite !buf_u8_mid by len_solve.
    rewrite !(lookup_app_r a) by lia.
    replace (off - length a)%nat with 0%nat by lia.
    replace (off + 1 - length a)%nat with 1%nat by lia. reflexivity.
Qed.

Lemma zero_field_then_restore (buf : buf_t) (off : nat) :
  buf_wf buf -> (off + 2 <= len buf)%nat ->
  let zeroed := buf_store buf off (store16 0) in
  buf_u16 zeroed off = 0 /\
  buf_store zeroed off (store16 (buf_u16 buf off)) = buf.
Proof.
  intros Hwf Hoff zeroed. subst zeroed.
  destruct (buf_field16 buf off Hwf Hoff) as (pre & a & c0 & c1 & b & post & E & Ha & Hl & Hf).
  rewrite Hf. rewrite E. clear E Hf.
  rewrite buf_store_mid by len_solve.
  rewrite (inserts_middle a [c0; c1] (store16 0) b) by (reflexivity || lia).
  split.
  - unfold buf_u16. rewrite !buf_u8_mid by len_solve.
    rewrite !(lookup_app_r a) by lia.
    replace (off - length a)%nat with 0%nat by lia.
    replace (off + 1 - length a)%nat with 1%nat by lia. reflexivity.
  - rewrite buf_store_mid by len_solve.
    rewrite (inserts_middle a (store16 0) (store16 (load16 c0 c1)) b)
      by (reflexivity || lia).
    rewrite store16_load16. reflexivity.
Qed.

(** C9.  For every received IP datagram that passes the length, version,
    header-length and total-length checks: when the recomputed header
    checksum differs from the stored one, [ip_in] returns with the caller's
    buffer changed, the checksum field holding zero instead of its original
    value (so the buffer differs from the one received whenever that value
    was not zero); the field gets its original value back only when the
    verification succeeds. *)
Theorem ip_in_checksum_mismatch cfg (st : net_t) (buf : buf_t) (src_mac : mac_t) :
  buf_wf buf -> (20 <= len buf)%nat ->
  u8 (buf_u8 buf 0) / 16 = 4 -> 5 <= u8 (buf_u8 buf 0) mod 16 ->
  (u8 (buf_u8 buf 0) mod 16) * 4 <= swap16 (buf_u16 buf 2) <= Z.of_nat (len buf) ->
  let zeroed := buf_store buf 10 (store16 0) in
  let calc_checksum :=
    checksum16 (buf_load zeroed 0 (Z.to_nat ((u8 (buf_u8 buf 0) mod 16) * 4))) in
  (calc_checksum <> buf_u16 buf 10 ->
     ip_in cfg st buf src_mac = (st, zeroed, IpDropChecksum) /\
     buf_u16 zeroed 10 = 0 /\
     (buf_u16 buf 10 <> 0 -> zeroed <> buf)) /\
  (calc_checksum = buf_u16 buf 10 -> ip_in_validate buf = (buf, None)).
Proof.
  intros Hwf Hlen Hver Hhl Htot zeroed calc.
  pose proof (Z.mod_pos_bound (u8 (buf_u8 buf 0)) 16 ltac:(lia)) as Hnib.
  destruct (zero_field_then_restore buf 10 Hwf ltac:(lia)) as [Hz Hrestore].
  fold zeroed in Hz, Hrestore.
  assert (ip_in_validate buf =
            if negb (calc =? buf_u16 buf 10) then (zeroed, Some IpDropChecksum)
            else (buf_store zeroed 10 (store16 (buf_u16 buf 10)), None)) as Hval.
  { unfold ip_in_validate, IP_MIN_HDR_LEN.
    destruct (Nat.ltb_spec (len buf) 20); [lia|].
    rewrite Hver. change (4 =? IP_VERSION_4) with true. cbn [negb].
    unfold IP_HDR_LEN, IP_HDR_LEN_PER_BYTE, wrap16.
    destruct (Z.ltb_spec (u8 (buf_u8 buf 0) mod 16) 5); [lia|].
    destruct (Z.ltb_spec 15 (u8 (buf_u8 buf 0) mod 16)); [lia|]. cbn [orb].
    rewrite (Z.mod_small (u8 (buf_u8 buf 0) mod 16 * 4)) by lia.
    destruct (Z.ltb_spec (Z.of_nat (len buf)) (swap16 (buf_u16 buf 2))); [lia|].
    destruct (Z.ltb_spec (swap16 (buf_u16 buf 2)) (u8 (buf_u8 buf 0) mod 16 * 4)); [lia|].
    cbn [orb]. reflexivity. }
  split.
  - intros Hne. split; [|split].
    + unfold ip_in. rewrite Hval.
      destruct (Z.eqb_spec calc (buf_u16 buf 10)); [contradiction|]. reflexivity.
    + exact Hz.
    + intros Hnz Heq. rewrite Heq in Hz. contradiction.
  - intros Heq. rewrite Hval.
    destruct (Z.eqb_spec calc (buf_u16 buf 10)); [|contradiction].
    cbn [negb]. rewrite Hrestore. reflexivity.
Qed.


(** ** The loop of ip_out leaves through its test *)

(** With [payload_len - sent_len] rounds of fuel or more, the result of the
    loop does not depend on the fuel: every round advances [sent_len] by
    [IP_MAX_PAYLOAD], which is positive. *)
Lemma ip_out_loop_fuel cfg fuel : forall fuel' st r ip protocol id payload_len sent off,
  (payload_len <= sent + fuel)%nat -> (fuel <= fuel')%nat ->
  ip_out_loop cfg fuel st r ip protocol id payload_len sent off
  = ip_out_loop cfg fuel' st r ip protocol id payload_len sent off.
Proof.
  assert (HT : (0 < max_payload cfg)%nat) by (unfold max_payload; lia).
  induction fuel as [|fuel IH]; intros fuel' st r ip protocol id L sent off HL Hf.
  - destruct fuel' as [|fuel']; [reflexivity|].
    cbn [ip_out_loop].
    destruct (Nat.ltb_spec (sent + max_payload cfg) L); [lia|reflexivity].
  - destruct fuel' as [|fuel']; [lia|].
    cbn [ip_out_loop].
    destruct (Nat.ltb_spec (sent + max_payload cfg) L); [|reflexivity].
    apply IH; lia.
Qed.


(** ** The trace below ip_fragment_out *)

Lemma fragment_calls_app tr1 tr2 :
  fragment_calls (tr1 ++ tr2) = fragment_calls tr1 ++ fragment_calls tr2.
Proof. apply List.filter_app. Qed.

Lemma ip_out_calls_app tr1 tr2 :
  ip_out_calls (tr1 ++ tr2) = ip_out_calls tr1 ++ ip_out_calls tr2.
Proof. apply List.filter_app. Qed.

(** [arp_out] leaves the counters and tables of the upper layers alone and
    adds only link-layer events to the trace. *)
Lemma arp_out_frame cfg st r ip :
  let st' := arp_out cfg st r ip in
  ip_id st' = ip_id st /\ now st' = now st /\ udp_table st' = udp_table st /\
  net_protocols st' = net_protocols st /\ arp_table st' = arp_table st /\
  exists evs, trace st' = trace st ++ evs /\
              fragment_calls evs = [] /\ ip_out_calls evs = [].
Proof.
  unfold arp_out.
  destruct (map_get _ (arp_table st) ip (now st)) as [mac|].
  - rewrite ethernet_out_eq. cbn. repeat split. eexists. repeat split.
  - destruct (map_get _ (arp_buf st) ip (now st)).
    + cbn. repeat split. exists []. rewrite app_nil_r. repeat split.
    + unfold arp_req. rewrite ethernet_out_eq. cbn. repeat split.
      eexists. repeat split.
Qed.

(** When no ARP request is issued, [arp_out] on a buffer other than [txbuf]
    changes nothing but the trace. *)
Lemma arp_out_quiet cfg st buf ip :
  arp_quiet cfg st ip ->
  let st' := arp_out cfg st (OwnBuf buf) ip in
  txbuf st' = txbuf st /\ arp_buf st' = arp_buf st.
Proof.
  intros Hq. unfold arp_out.
  destruct (map_get _ (arp_table st) ip (now st)) as [mac|] eqn:E1.
  - rewrite ethernet_out_eq. cbn. split; reflexivity.
  - destruct (map_get _ (arp_buf st) ip (now st)) eqn:E2.
    + cbn. split; reflexivity.
    + destruct Hq as [[? Hq]|[? Hq]]; congruence.
Qed.

Lemma ip_fragment_out_frame cfg st r ip protocol id offset mf :
  let st' := ip_fragment_out cfg st r ip protocol id offset mf in
  ip_id st' = ip_id st /\ now st' = now st /\ udp_table st' = udp_table st /\
  net_protocols st' = net_protocols st /\ arp_table st' = arp_table st /\
  fragment_calls (trace st') =
    fragment_calls (trace st) ++
    [EvIpFragmentOut (window (deref st r)) ip protocol id offset mf] /\
  ip_out_calls (trace st') = ip_out_calls (trace st).
Proof.
  unfold ip_fragment_out.
  set (st1 := log st _).
  set (hdr := ip_fragment_hdr cfg (deref st1 r) ip protocol id offset mf).
  destruct (assign st1 r hdr) as [st2 r2] eqn:Ea.
  assert (ip_id st2 = ip_id st /\ now st2 = now st /\ udp_table st2 = udp_table st /\
          net_protocols st2 = net_protocols st /\ arp_table st2 = arp_table st /\
          trace st2 = trace st ++
            [EvIpFragmentOut (window (deref st r)) ip protocol id offset mf])
    as (H1 & H2 & H3 & H4 & H5 & H6).
  { destruct r; cbn in Ea; inversion Ea; subst; cbn; repeat split. }
  destruct (arp_out_frame cfg st2 r2 ip) as (G1 & G2 & G3 & G4 & G5 & evs & G6 & G7 & G8).
  cbv zeta in *. rewrite G1, G2, G3, G4, G5, G6, H1, H2, H3, H4, H5, H6.
  rewrite !fragment_calls_app, !ip_out_calls_app, G7, G8, !app_nil_r.
  repeat split.
Qed.

Lemma arp_quiet_same cfg st st' ip :
  arp_table st' = arp_table st -> arp_buf st' = arp_buf st -> now st' = now st ->
  arp_quiet cfg st ip -> arp_quiet cfg st' ip.
Proof. unfold arp_quiet. intros -> -> ->. tauto. Qed.

(** Sending a fragment held in a local buffer keeps the source of [ip_out]. *)
Lemma ip_fragment_out_keeps cfg st r frag ip protocol id offset mf :
  source_kept cfg st r ip ->
  let st' := ip_fragment_out cfg st (OwnBuf frag) ip protocol id offset mf in
  deref st' r = deref st r /\ source_kept cfg st' r ip.
Proof.
  intros Hk st'.
  destruct (ip_fragment_out_frame cfg st (OwnBuf frag) ip protocol id offset mf)
    as (_ & Hnow & _ & _ & Harp & _).
  fold st' in Hnow, Harp.
  destruct r as [|own]; [|split; [reflexivity|exact I]].
  cbn [source_kept deref] in *.
  unfold st', ip_fragment_out in *. cbn [assign deref] in *.
  set (st1 := log st _) in *.
  assert (arp_quiet cfg st1 ip) as Hq1 by (apply (arp_quiet_same cfg st); auto).
  destruct (arp_out_quiet cfg st1 (ip_fragment_hdr cfg frag ip protocol id offset mf)
              ip Hq1) as [Htx Hbuf]. cbv zeta in *.
  split; [rewrite Htx; reflexivity|].
  apply (arp_quiet_same cfg st1); auto.
Qed.

(** The window of a local buffer after [buf_init] and the [memcpy]. *)
Lemma local_frag_window cfg (src : list byte) :
  (length src <= BUF_MAX_LEN cfg / 2)%nat ->
  window (buf_store (buf_init (BUF_MAX_LEN cfg) (local_buf cfg) (length src)) 0 src)
  = src.
Proof.
  intros Hn.
  destruct (buf_init_open (BUF_MAX_LEN cfg) (local_buf cfg) (length src))
    as (pre & old & post & -> & Hpre & Hold & Hpost).
  { unfold local_buf. cbn [payload]. apply length_replicate. }
  { assumption. }
  rewrite buf_store_mid by len_solve.
  rewrite <- (app_nil_r old), list_inserts_0_r, app_nil_r by lia.
  apply window_mid; reflexivity.
Qed.

(** ** ip.c: the fragmentation loop *)

Lemma wrap16_step (k T : nat) :
  wrap16 (wrap16 (Z.of_nat (k * T)) + Z.of_nat T) = wrap16 (Z.of_nat (S k * T)).
Proof.
  unfold wrap16. rewrite Zplus_mod_idemp_l. f_equal. lia.
Qed.

Lemma ip_out_loop_spec cfg (r : buf_ref) (ip : ip_t) (protocol id : Z)
    (pre w post : list byte) (m : nat) :
  let T := max_payload cfg in
  let b := Buf (pre ++ w ++ post) (length pre) (length w) in
  (T <= BUF_MAX_LEN cfg / 2)%nat ->
  (m * T < length w)%nat -> (length w <= S m * T)%nat ->
  forall (j k fuel : nat) (st : net_t),
    (k + j = m)%nat -> (j <= fuel)%nat ->
    deref st r = b -> source_kept cfg st r ip ->
    exists st',
      ip_out_loop cfg fuel st r ip protocol id (length w) (k * T)
        (wrap16 (Z.of_nat (k * T)))
      = (st', (m * T)%nat, wrap16 (Z.of_nat (m * T))) /\
      deref st' r = b /\ source_kept cfg st' r ip /\ ip_id st' = ip_id st /\
      fragment_calls (trace st') =
        fragment_calls (trace st) ++
        map (fragment_call T w ip protocol id (S m)) (seq k j) /\
      ip_out_calls (trace st') = ip_out_calls (trace st).
Proof.
  intros T b Hcap Hlo Hhi. 
  assert (0 < T)%nat as HT by (unfold T, max_payload; lia).
  induction j as [|j IH]; intros k fuel st Hk Hfuel Hb Hkept.
  - assert (k = m) by lia. subst k.
    exists st. cbn [seq map]. rewrite app_nil_r.
    repeat split; try assumption.
    destruct fuel as [|fuel]; [reflexivity|].
    cbn [ip_out_loop]. fold T.
    destruct (Nat.ltb_spec (m * T + T) (length w)); [cbn in Hhi; lia|reflexivity].
  - destruct fuel as [|fuel]; [lia|].
    cbn [ip_out_loop]. fold T.
    assert (S k * T <= m * T)%nat as Hle by (apply Nat.mul_le_mono_r; lia).
    cbn [Nat.mul] in Hle.
    destruct (Nat.ltb_spec (k * T + T) (length w)) as [_|]; [|lia].
    rewrite Hb.
    assert (buf_load b (k * T) T = take T (drop (k * T) w)) as Hload.
    { unfold b. apply buf_load_mid; [reflexivity|lia]. }
    rewrite Hload.
    set (src := take T (drop (k * T) w)).
    assert (length src = T) as Hsrc by (unfold src; rewrite length_take, length_drop; lia).
    set (frag := buf_store (buf_init (BUF_MAX_LEN cfg) (local_buf cfg) T) 0 src).
    assert (window frag = src) as Hwin.
    { unfold frag. rewrite <- Hsrc at 1. apply local_frag_window. lia. }
    set (st1 := ip_fragment_out cfg st (OwnBuf frag) ip protocol id
                  (wrap16 (Z.of_nat (k * T))) 1).
    destruct (ip_fragment_out_frame cfg st (OwnBuf frag) ip protocol id
                (wrap16 (Z.of_nat (k * T))) 1) as (Hid & _ & _ & _ & _ & Hfc & Hic).
    destruct (ip_fragment_out_keeps cfg st r frag ip protocol id
                (wrap16 (Z.of_nat (k * T))) 1 Hkept) as [Hd1 Hk1].
    fold st1 in Hid, Hfc, Hic, Hd1, Hk1.
    rewrite wrap16_step.
    replace (k * T + T)%nat with (S k * T)%nat by (cbn [Nat.mul]; lia).
    destruct (IH (S k) fuel st1 ltac:(lia) ltac:(lia) ltac:(congruence) Hk1)
      as (st' & E & Hd' & Hk' & Hid' & Hfc' & Hic').
    exists st'. rewrite E. repeat split; try assumption; try congruence.
    rewrite Hfc', Hfc. cbn [deref]. rewrite Hwin, <- app_assoc. f_equal.
    cbn [seq map app]. f_equal. unfold fragment_call. fold src.
    destruct (Nat.ltb_spec (S k) (S m)); [reflexivity|lia].
Qed.

Lemma source_kept_same cfg st st' r ip :
  arp_table st' = arp_table st -> arp_buf st' = arp_buf st -> now st' = now st ->
  source_kept cfg st r ip -> source_kept cfg st' r ip.
Proof. destruct r; [apply arp_quiet_same|intros; exact I]. Qed.

(** The calls [ip_out] makes for a payload that needs [m + 1] fragments, the
    offsets as the 16-bit variable holds them. *)
Lemma ip_out_fragments cfg (st : net_t) (r : buf_ref) (ip : ip_t) (protocol : Z)
    (m : nat) :
  let T := max_payload cfg in
  let b := deref st r in
  buf_wf b -> (T <= BUF_MAX_LEN cfg / 2)%nat ->
  (1 <= m)%nat -> (m * T < len b)%nat -> (len b <= S m * T)%nat ->
  source_kept cfg st r ip ->
  let st' := ip_out cfg st r ip protocol in
  fragment_calls (trace st') =
    fragment_calls (trace st) ++
    map (fragment_call T (window b) ip protocol (ip_id st) (S m)) (seq 0 (S m)) /\
  ip_out_calls (trace st') =
    ip_out_calls (trace st) ++ [EvIpOut (window b) ip protocol] /\
  ip_id st' = wrap16 (ip_id st + 1).
Proof.
  intros T b Hwf Hcap Hm Hlo Hhi Hkept st'.
  assert (0 < T)%nat as HT by (unfold T, max_payload; lia).
  unfold b in *. clear b.
  destruct (buf_open (deref st r) 0 ltac:(lia) Hwf) as (pre & hd & w & post & Eb & Hhd & Hw).
  destruct hd; [|discriminate]. cbn [app] in Eb.
  replace (length pre + 0)%nat with (length pre) in Eb by lia.
  rewrite Hw. rewrite Eb in Hlo, Hhi. cbn [len] in Hlo, Hhi.
  unfold st', ip_out.
  assert (deref (log st (EvIpOut (window (deref st r)) ip protocol)) r = deref st r)
    as Hd0 by (destruct r; reflexivity).
  rewrite Hd0, Hw, Eb. cbn [len]. fold T.
  set (st0 := log st (EvIpOut w ip protocol)).
  assert (deref st0 r = Buf (pre ++ w ++ post) (length pre) (length w)) as Hd0'.
  { rewrite <- Eb. destruct r; reflexivity. }
  assert (T < length w)%nat as HTL.
  { assert (1 * T <= m * T)%nat by (apply Nat.mul_le_mono_r; lia). lia. }
  destruct (Nat.ltb_spec T (length w)) as [_|]; [|lia].
  set (st1 := set_ip_id st0 (wrap16 (ip_id st0 + 1))).
  assert (m <= length w)%nat as Hfuel.
  { assert (m * 1 <= m * T)%nat by (apply Nat.mul_le_mono_l; lia). lia. }
  destruct (ip_out_loop_spec cfg r ip protocol (ip_id st0) pre w post m
              Hcap Hlo Hhi m 0%nat (length w) st1 ltac:(lia) Hfuel)
    as (st2 & E & Hd2 & Hk2 & Hid2 & Hfc2 & Hic2).
  { rewrite <- Hd0'. destruct r; reflexivity. }
  { apply (source_kept_same cfg st); auto. }
  change (0 * max_payload cfg)%nat with 0%nat in E.
  change (wrap16 (Z.of_nat 0)) with 0 in E. fold T in E, Hfc2. fold T. rewrite E.
  destruct (Nat.ltb_spec 0 (length w - m * T)) as [_|]; [|lia].
  rewrite Hd2.
  rewrite (buf_load_mid pre w post) by (reflexivity || lia).
  set (src := take (length w - m * T) (drop (m * T) w)).
  assert (length src = (length w - m * T)%nat) as Hsrc
    by (unfold src; rewrite length_take, length_drop; lia).
  assert (src = take T (drop (m * T) w)) as Hsrc'.
  { unfold src. rewrite !take_ge by (rewrite length_drop; cbn in Hhi; lia). reflexivity. }
  set (frag := buf_store (buf_init (BUF_MAX_LEN cfg) (local_buf cfg)
                                (length w - m * T)) 0 src).
  assert (window frag = src) as Hwin.
  { unfold frag. rewrite <- Hsrc. apply local_frag_window. rewrite Hsrc.
    cbn in Hhi. lia. }
  destruct (ip_fragment_out_frame cfg st2 (OwnBuf frag) ip protocol (ip_id st0)
              (wrap16 (Z.of_nat (m * T))) 0) as (Hid & _ & _ & _ & _ & Hfc & Hic).
  cbv zeta in Hid, Hfc, Hic. rewrite Hid, Hfc, Hic, Hfc2, Hic2, Hid2.
  cbn [deref]. rewrite Hwin.
  repeat split.
  - unfold st1, st0. cbn [trace set_ip_id log ip_id].
    rewrite fragment_calls_app. cbn [fragment_calls List.filter is_fragment_out].
    rewrite app_nil_r, <- app_assoc. f_equal.
    rewrite seq_S, map_app. f_equal. cbn [map Nat.add]. unfold fragment_call.
    rewrite <- Hsrc'. destruct (Nat.ltb_spec (S m) (S m)); [lia|reflexivity].
  - unfold st1, st0. cbn [trace set_ip_id log].
    rewrite ip_out_calls_app. cbn [ip_out_calls List.filter is_ip_out].
    reflexivity.
Qed.

Lemma concat_chunks (T : nat) (w : list byte) (j k : nat) :
  concat (map (fun i => take T (drop (i * T) w)) (seq k j))
  = take (j * T) (drop (k * T) w).
Proof.
  revert k. induction j as [|j IH]; intros k; [reflexivity|].
  cbn [seq map concat]. rewrite IH.
  replace (S k * T)%nat with (k * T + T)%nat by (cbn [Nat.mul]; lia).
  rewrite <- drop_drop, take_take_drop. f_equal.
Qed.

Lemma fragments_bounds (T L : nat) :
  (0 < T)%nat -> (0 < L)%nat ->
  let m := ((L - 1) / T)%nat in
  (m * T < L)%nat /\ (L <= S m * T)%nat /\
  Z.of_nat (S m) = (Z.of_nat L + Z.of_nat T - 1) / Z.of_nat T.
Proof.
  intros HT HL m.
  pose proof (Nat.div_mod_eq (L - 1) T) as Hdm.
  pose proof (Nat.mod_upper_bound (L - 1) T ltac:(lia)) as Hmod.
  fold m in Hdm. cbn [Nat.mul].
  assert (T * m = m * T)%nat as Hc by lia. rewrite Hc in Hdm.
  split; [lia|]. split; [lia|].
  apply Z.div_unique with (r := Z.of_nat ((L - 1) mod T)); [lia|].
  rewrite Nat2Z.inj_succ. 
  replace (Z.of_nat T * Z.succ (Z.of_nat m)) with (Z.of_nat (m * T) + Z.of_nat T) by lia.
  lia.
Qed.


(** ** C1 *)

(** C1 (as amended).  For every payload of length [L] above the threshold
    [T] (a multiple of 8) whose last fragment offset fits in 16 bits, read
    from a buffer that is not overwritten during the call ([source_kept]: a
    buffer of the caller's own, or the shared [txbuf] when the destination
    is in the ARP cache or has an ARP request pending, so that [arp_out]
    builds no request in [txbuf]), one call to [ip_out] makes exactly
    ceil(L/T) calls to [ip_fragment_out], all with the datagram id allocated
    by this call; the [k]-th call carries the bytes [k*T .. k*T+T) of the
    payload (the last one the remainder) at byte offset [k*T], a multiple of
    8, with MF set on all calls but the last; the offsets increase strictly,
    the fragment payloads concatenated in order give back the payload, and
    the id counter advances by one. *)
Theorem ip_out_fragmentation cfg (st : net_t) (r : buf_ref) (ip : ip_t)
    (protocol : Z) :
  let T := max_payload cfg in
  let b := deref st r in
  let L := len b in
  buf_wf b -> (T <= BUF_MAX_LEN cfg / 2)%nat -> (T < L)%nat ->
  Z.of_nat T mod 8 = 0 ->
  Z.of_nat ((L - 1) / T * T) < 65536 ->
  source_kept cfg st r ip ->
  let st' := ip_out cfg st r ip protocol in
  exists calls,
    fragment_calls (trace st') = fragment_calls (trace st) ++ calls /\
    Z.of_nat (length calls) = (Z.of_nat L + Z.of_nat T - 1) / Z.of_nat T /\
    (forall k e, calls !! k = Some e ->
       is_fragment_out e = true /\
       frag_id e = ip_id st /\
       frag_offset e = Z.of_nat (k * T) /\ frag_offset e mod 8 = 0 /\
       frag_mf e = (if (S k <? length calls)%nat then 1 else 0) /\
       frag_payload e = take T (drop (k * T) (window b))) /\
    (forall j k ej ek, (j < k)%nat -> calls !! j = Some ej -> calls !! k = Some ek ->
       frag_offset ej < frag_offset ek) /\
    concat (map frag_payload calls) = window b /\
    ip_id st' = wrap16 (ip_id st + 1).
Proof.
  intros T b L Hwf Hcap HTL H8 Hoff Hkept st'.
  assert (0 < T)%nat as HT by (unfold T, max_payload; lia).
  destruct (fragments_bounds T L HT ltac:(lia)) as (Hlo & Hhi & Hceil).
  set (m := ((L - 1) / T)%nat) in *.
  assert (1 <= m)%nat as Hm.
  { destruct m; [cbn in Hhi; lia|lia]. }
  destruct (ip_out_fragments cfg st r ip protocol m Hwf Hcap Hm Hlo Hhi Hkept)
    as (Hfc & _ & Hid).
  fold st' T b in Hfc, Hid.
  set (calls := map (fragment_call T (window b) ip protocol (ip_id st) (S m))
                  (seq 0 (S m))) in *.
  assert (length calls = S m) as Hlen by (unfold calls; rewrite length_map, length_seq; reflexivity).
  assert (forall k e, calls !! k = Some e ->
            (k <= m)%nat /\ e = fragment_call T (window b) ip protocol (ip_id st) (S m) k)
    as Hlook.
  { intros k e He. unfold calls in He.
    change (map ?f ?l) with (f <$> l) in He.
    rewrite list_lookup_fmap in He.
    destruct (seq 0 (S m) !! k) as [k'|] eqn:Ek; [|discriminate].
    apply lookup_seq in Ek as [-> Hk]. cbn in He. inversion He. split; [lia|reflexivity]. }
  assert (forall k, (k <= m)%nat -> wrap16 (Z.of_nat (k * T)) = Z.of_nat (k * T)) as Hwrap.
  { intros k Hk. unfold wrap16. apply Z.mod_small.
    assert (k * T <= m * T)%nat by (apply Nat.mul_le_mono_r; lia). lia. }
  exists calls. split; [exact Hfc|]. split; [rewrite Hlen; exact Hceil|].
  split; [|split; [|split]].
  - intros k e He. destruct (Hlook k e He) as [Hk ->].
    unfold fragment_call. cbn [is_fragment_out frag_id frag_offset frag_mf frag_payload].
    rewrite Hwrap, Hlen by assumption. repeat split.
    rewrite Nat2Z.inj_mul, <- Zmult_mod_idemp_r, H8, Z.mul_0_r. reflexivity.
  - intros j k ej ek Hjk Hj Hk.
    destruct (Hlook j ej Hj) as [Hj' ->]. destruct (Hlook k ek Hk) as [Hk' ->].
    unfold fragment_call. cbn [frag_offset]. rewrite !Hwrap by assumption.
    assert (S j * T <= k * T)%nat by (apply Nat.mul_le_mono_r; lia).
    cbn [Nat.mul] in *. lia.
  - unfold calls. rewrite map_map. cbn [fragment_call frag_payload].
    rewrite (concat_chunks T (window b) (S m) 0).
    cbn [Nat.mul drop]. apply take_ge.
    assert (length (window b) <= L)%nat; [|cbn [Nat.mul] in Hhi; lia].
    unfold window. rewrite length_take. fold L. lia.
  - exact Hid.
Qed.


(** ** ip_out is called once per message *)

Lemma ip_out_loop_calls cfg fuel : forall st r ip protocol id payload_len sent off,
  ip_out_calls (trace (ip_out_loop cfg fuel st r ip protocol id payload_len sent off).1.1)
  = ip_out_calls (trace st).
Proof.
  induction fuel as [|fuel IH]; intros; [reflexivity|].
  cbn [ip_out_loop].
  destruct (sent + max_payload cfg <? payload_len)%nat; [|reflexivity].
  rewrite IH.
  apply (ip_fragment_out_frame cfg st (OwnBuf _) ip protocol id off 1).
Qed.

Lemma ip_out_calls_ip_out cfg st r ip protocol :
  ip_out_calls (trace (ip_out cfg st r ip protocol))
  = ip_out_calls (trace st) ++ [EvIpOut (window (deref st r)) ip protocol].
Proof.
  unfold ip_out.
  set (st0 := log st (EvIpOut (window (deref st r)) ip protocol)).
  assert (ip_out_calls (trace st0)
          = ip_out_calls (trace st) ++ [EvIpOut (window (deref st r)) ip protocol]) as H0.
  { unfold st0. cbn [trace log]. rewrite ip_out_calls_app. reflexivity. }
  destruct (max_payload cfg <? len (deref st0 r))%nat.
  - set (st1 := set_ip_id st0 _).
    pose proof (ip_out_loop_calls cfg (len (deref st0 r)) st1 r ip protocol
                  (ip_id st0) (len (deref st0 r)) 0%nat 0) as Hl.
    destruct (ip_out_loop _ _ _ _ _ _ _ _ _ _) as [[st2 sent] off]. cbn [fst] in Hl.
    destruct (0 <? len (deref st0 r) - sent)%nat.
    + destruct (ip_fragment_out_frame cfg st2 (OwnBuf
         (buf_store (buf_init (BUF_MAX_LEN cfg) (local_buf cfg)
            (len (deref st0 r) - sent)) 0
            (buf_load (deref st2 r) sent (len (deref st0 r) - sent))))
         ip protocol (ip_id st0) off 0) as (_ & _ & _ & _ & _ & _ & Hic).
      cbv zeta in Hic. rewrite Hic, Hl. exact H0.
    + rewrite Hl. exact H0.
  - destruct (ip_fragment_out_frame cfg (set_ip_id st0 (wrap16 (ip_id st0 + 1))) r
                ip protocol (ip_id st0) 0 0) as (_ & _ & _ & _ & _ & _ & Hic).
    cbv zeta in Hic. rewrite Hic. exact H0.
Qed.

(** ** udp.c: the length checks *)

(** C10.  [udp_in] puts no lower bound on the declared UDP length: for every
    received segment of at least 8 bytes whose declared total length is below
    8 (even 0), neither length check drops the datagram; the window is
    trimmed to the declared length, below the size of the header, and the
    checksum verification and the dispatch run on the trimmed buffer. *)
Theorem udp_in_no_lower_bound cfg (st : net_t) (buf : buf_t) (src_ip : ip_t) :
  (8 <= len buf)%nat ->
  swap16 (buf_u16 buf 4) < 8 ->
  let trimmed := Buf (payload buf) (data buf) (Z.to_nat (swap16 (buf_u16 buf 4))) in
  udp_in_check buf = inr trimmed /\
  Z.of_nat (len trimmed) = swap16 (buf_u16 buf 4) /\
  (len trimmed < 8)%nat /\
  udp_in cfg st buf src_ip = udp_in_verify cfg st trimmed src_ip.
Proof.
  intros Hlen Hdecl trimmed.
  pose proof (swap16_range (buf_u16 buf 4)) as Hr.
  assert (udp_in_check buf = inr trimmed) as Hc.
  { unfold udp_in_check.
    destruct (Nat.ltb_spec (len buf) 8); [lia|].
    destruct (Z.ltb_spec (Z.of_nat (len buf)) (swap16 (buf_u16 buf 4))); [lia|].
    destruct (Z.ltb_spec (swap16 (buf_u16 buf 4)) (Z.of_nat (len buf))); [|lia].
    unfold buf_remove_padding.
    destruct (Nat.leb_spec (len buf - Z.to_nat (swap16 (buf_u16 buf 4))) (len buf)); [|lia].
    unfold trimmed. do 2 f_equal. lia. }
  split; [exact Hc|]. split; [cbn [len trimmed]; lia|]. split; [cbn [len trimmed]; lia|].
  unfold udp_in. rewrite Hc. reflexivity.
Qed.


(** ** icmp.c: the unreachable message *)

Lemma buf_load_pre (pre l : list byte) (n off k : nat) :
  buf_load (Buf (pre ++ l) (length pre) n) off k = take k (drop off l).
Proof. unfold buf_load. cbn [payload data]. rewrite drop_app_add' by reflexivity. reflexivity. Qed.

Lemma buf_u8_pre (pre l : list byte) (n off : nat) :
  buf_u8 (Buf (pre ++ l) (length pre) n) off = default x00 (l !! off).
Proof.
  unfold buf_u8. cbn [payload data]. rewrite lookup_app_r by lia.
  do 2 f_equal. lia.
Qed.

Ltac list_compute :=
  cbn [list_inserts insert list_insert firstn skipn app replicate length
       lookup list_lookup default from_option Nat.add Nat.sub store16];
  unfold Datatypes.id.

Lemma icmp_unreachable_calls cfg (st : net_t) (pre iph rest : list byte) (tn : nat)
    (src_ip : ip_t) (code : Z) :
  length iph = 20%nat -> (8 <= length rest)%nat ->
  u8 (default x00 (iph !! 0%nat)) mod 16 = 5 ->
  Z.of_nat tn < 2 ^ 64 ->
  length (payload (txbuf st)) = BUF_MAX_LEN cfg -> (36 <= BUF_MAX_LEN cfg / 2)%nat ->
  ip_out_calls (trace (icmp_unreachable cfg st
                         (Buf (pre ++ iph ++ rest) (length pre) (tn + 20)) src_ip code))
  = ip_out_calls (trace st) ++
    [EvIpOut (icmp_unreach_msg code (iph ++ first8 (take tn rest))) src_ip
       NET_PROTOCOL_ICMP].
Proof.
  intros Hiph Hrest Hihl Htn Htx Hcap.
  unfold icmp_unreachable. rewrite ip_out_calls_ip_out.
  cbn [deref txbuf set_txbuf trace len]. do 3 f_equal.
  rewrite buf_u8_pre.
  assert (default x00 ((iph ++ rest) !! 0%nat) = default x00 (iph !! 0%nat)) as ->.
  { destruct iph; [discriminate|reflexivity]. }
  rewrite Hihl. change (Z.to_nat (5 * IP_HDR_LEN_PER_BYTE)) with 20%nat.
  replace ((Z.of_nat (tn + 20) - Z.of_nat 20) mod 2 ^ 64) with (Z.of_nat tn)
    by (rewrite Z.mod_small; lia).
  rewrite !buf_load_pre.
  set (pcl := Z.to_nat (if 8 <=? Z.of_nat tn then 8 else Z.of_nat tn)).
  assert (pcl = Nat.min 8 tn) as Hpcl.
  { unfold pcl. destruct (Z.leb_spec 8 (Z.of_nat tn)); lia. }
  clearbody pcl. subst pcl.
  destruct (buf_init_open (BUF_MAX_LEN cfg) (txbuf st) (8 + (20 + 8)) Htx ltac:(lia))
    as (tpre & old & tpost & -> & Htpre & Hold & Htpost).
  destruct (split3 rest 0 8 ltac:(lia)) as (nil & r8 & rest' & -> & Hnil & Hr8).
  destruct nil; [|discriminate]. cbn [app].
  explode_list iph Hiph. explode_list r8 Hr8.
  unfold icmp_unreach_msg, first8.
  destruct tn as [|[|[|[|[|[|[|[|tn]]]]]]]].
  all: cbn [Nat.min Nat.ltb Nat.leb Nat.add Nat.sub firstn skipn replicate app].
  all: rewrite ?take_0.
  all: buf_norm.
  all: rewrite !window_mid by len_solve.
  all: explode_list old Hold.
  all: list_compute.
  all: reflexivity.
Qed.

(** ** udp.c: no handler for the destination port *)

Lemma store_restore16 (buf : buf_t) (off : nat) :
  (data buf + off + 2 <= length (payload buf))%nat ->
  buf_store (buf_store buf off (store16 0)) off (store16 (buf_u16 buf off)) = buf.
Proof.
  intros H. destruct buf as [mem d n]. cbn [payload data] in H.
  destruct (split3 mem (d + off) 2 H) as (a & f & b & -> & Ha & Hf).
  destruct f as [|c0 [|c1 [|]]]; try discriminate.
  assert (buf_u16 (Buf (a ++ [c0; c1] ++ b) d n) off = load16 c0 c1) as ->.
  { unfold buf_u16, buf_u8. cbn [payload data].
    rewrite !(lookup_app_r a) by lia.
    replace (d + off - length a)%nat with 0%nat by lia.
    replace (d + (off + 1) - length a)%nat with 1%nat by lia. reflexivity. }
  unfold buf_store. cbn [payload data len]. f_equal.
  rewrite (inserts_middle a [c0; c1] (store16 0) b) by (reflexivity || lia).
  rewrite (inserts_middle a (store16 0) (store16 (load16 c0 c1)) b)
    by (reflexivity || lia).
  rewrite store16_load16. reflexivity.
Qed.

Lemma fst_pair {A B} (a : A) (b : B) : (a, b).1 = a.
Proof. reflexivity. Qed.

Lemma first8_long (l : list byte) : (8 <= length l)%nat -> first8 l = take 8 l.
Proof. intros H. unfold first8. apply take_app_le. lia. Qed.

(** C6 (as amended).  For every received UDP datagram that follows a 20-byte
    IP header (no options), passes [udp_in]'s length and checksum checks and
    names a destination port without handler, [udp_in] sends exactly one
    message through [ip_out], to the source IP with protocol ICMP: a
    destination-unreachable message with type 3, code 3 (port unreachable),
    id 0 and seq 0, whose data section is the original IP header followed by
    the first 8 bytes of the UDP segment as trimmed to its declared length,
    zero bytes filling up to 8 when that length is below 8.  When the
    declared length is at least 8 these are the first 8 bytes of the original
    segment. *)
Theorem udp_in_port_unreachable cfg (st : net_t) (buf : buf_t) (src_ip : ip_t) :
  buf_wf buf -> (20 <= data buf)%nat -> (8 <= len buf)%nat ->
  let total := swap16 (buf_u16 buf 4) in
  total <= Z.of_nat (len buf) ->
  let trimmed := Buf (payload buf) (data buf) (Z.to_nat total) in
  (transport_checksum NET_PROTOCOL_UDP (buf_store trimmed 6 (store16 0)) src_ip
     (net_if_ip cfg)).1 = buf_u16 buf 6 ->
  udp_table st !! swap16 (buf_u16 buf 2) = None ->
  let ip_hdr := take 20 (drop (data buf - 20) (payload buf)) in
  u8 (default x00 (ip_hdr !! 0%nat)) mod 16 = 5 ->
  length (payload (txbuf st)) = BUF_MAX_LEN cfg -> (36 <= BUF_MAX_LEN cfg / 2)%nat ->
  exists st' buf',
    udp_in cfg st buf src_ip = (st', buf', UdpUnreachable) /\
    ip_out_calls (trace st') =
      ip_out_calls (trace st) ++
      [EvIpOut (icmp_unreach_msg ICMP_CODE_PORT_UNREACH
                  (ip_hdr ++ first8 (window trimmed)))
         src_ip NET_PROTOCOL_ICMP] /\
    (8 <= total -> first8 (window trimmed) = take 8 (window buf)).
Proof.
  intros Hwf Hroom Hlen total Htot trimmed Hck Hport ip_hdr Hihl Htx Hcap.
  pose proof (swap16_range (buf_u16 buf 4)) as Hr. fold total in Hr.
  destruct buf as [mem d n]. unfold buf_wf in Hwf. cbn [payload data len] in *.
  assert (udp_in_check (Buf mem d n) = inr trimmed) as Hc.
  { unfold udp_in_check. cbn [len]. fold total.
    destruct (Nat.ltb_spec n 8); [lia|].
    destruct (Z.ltb_spec (Z.of_nat n) total); [lia|].
    unfold trimmed. f_equal.
    destruct (Z.ltb_spec total (Z.of_nat n)).
    - unfold buf_remove_padding. cbn [payload data len].
      destruct (Nat.leb_spec (n - Z.to_nat total) n); [|lia]. f_equal. lia.
    - f_equal. lia. }
  unfold udp_in. rewrite Hc. unfold udp_in_verify.
  set (zeroed := buf_store trimmed 6 (store16 0)) in *.
  assert (buf_u16 trimmed 6 = buf_u16 (Buf mem d n) 6) as Ho by reflexivity.
  rewrite Ho.
  rewrite transport_checksum_eq in Hck |- *;
    [| unfold zeroed, trimmed; cbn [buf_store data]; lia
     | unfold zeroed, trimmed, buf_wf; cbn [buf_store payload data len];
       rewrite length_inserts; lia
     | unfold zeroed, trimmed; cbn [buf_store data]; lia
     | unfold zeroed, trimmed, buf_wf; cbn [buf_store payload data len];
       rewrite length_inserts; lia ].
  rewrite fst_pair in Hck. rewrite Hck, Z.eqb_refl. cbn [negb].
  rewrite <- Ho. unfold zeroed.
  rewrite store_restore16 by (unfold trimmed; cbn [payload data]; lia).
  assert (buf_u16 trimmed 2 = buf_u16 (Buf mem d n) 2) as -> by reflexivity.
  rewrite Hport.
  change (Z.to_nat (IP_HDR_LEN * IP_HDR_LEN_PER_BYTE)) with 20%nat.
  unfold buf_add_header, trimmed. cbn [payload data len].
  destruct (Nat.leb_spec 20 d); [|lia].
  destruct (split3 mem (d - 20) 20 ltac:(lia)) as (pre & iph & rest & Emem & Hpre & Hiph).
  assert (ip_hdr = iph) as Eiph.
  { unfold ip_hdr. rewrite Emem. apply load_mid; lia. }
  assert (drop d mem = rest) as Erest.
  { rewrite Emem, app_assoc. apply drop_app_length'. rewrite length_app. lia. }
  assert (window (Buf mem d (Z.to_nat total)) = take (Z.to_nat total) rest) as Ewin.
  { unfold window. cbn [payload data len]. rewrite Erest. reflexivity. }
  assert (8 <= length rest)%nat as Hrest.
  { rewrite <- Erest, length_drop. lia. }
  eexists _, _. split; [reflexivity|]. split.
  - rewrite Ewin, Eiph. rewrite Emem, <- Hpre.
    apply icmp_unreachable_calls; try assumption.
    + rewrite <- Eiph. exact Hihl.
    + change (2 ^ 64) with 18446744073709551616. lia.
  - intros H8. rewrite Ewin. rewrite first8_long by (rewrite length_take; lia).
    unfold window. cbn [payload data len]. rewrite Erest.
    rewrite !take_take. f_equal. lia.
Qed.


(** ** The theorems at concrete inputs *)

(** C2 as stated fails on a region of 131076 bytes of 0xFF: the 32-bit
    accumulator wraps, [checksum16] returns 1, and the checksum of the
    specification is 0. *)
Lemma checksum16_accumulator_wraps :
  Z.of_nat (length all_ones_region) = 131076 /\
  checksum16 all_ones_region = 1 /\
  internet_checksum all_ones_region = 0 /\
  wire16 (checksum16 all_ones_region) <> internet_checksum all_ones_region.
Proof. vm_compute. repeat split; congruence. Qed.

Lemma checksum16_internet_checksum_witness :
  Z.of_nat (length [x45; x00; x00; x1c; x01]) <= 131074 /\
  wire16 (checksum16 [x45; x00; x00; x1c; x01])
  = internet_checksum [x45; x00; x00; x1c; x01].
Proof.
  split; [simpl; lia|].
  apply (checksum16_internet_checksum [x45; x00; x00; x1c; x01]). simpl; lia.
Defined.

Lemma checksum16_embed_zero_witness :
  (2 * 1 + 2 <= length [x08; x00; xab; xcd; x00; x01; x00; x02; x50])%nat /\
  checksum16 (embed_checksum [x08; x00; xab; xcd; x00; x01; x00; x02; x50] 1) = 0.
Proof.
  split; [simpl; lia|].
  apply (checksum16_embed_zero [x08; x00; xab; xcd; x00; x01; x00; x02; x50] 1).
  simpl; lia.
Defined.

Lemma transport_checksum_frame_witness :
  (12 <= data (rx_buf sample_ip_hdr sample_udp_seg))%nat /\
  buf_wf (rx_buf sample_ip_hdr sample_udp_seg) /\
  transport_checksum NET_PROTOCOL_UDP (rx_buf sample_ip_hdr sample_udp_seg)
    peer_ip (net_if_ip small_cfg)
  = (checksum16 (pseudo_header peer_ip (net_if_ip small_cfg) NET_PROTOCOL_UDP 10
                 ++ sample_udp_seg),
     rx_buf sample_ip_hdr sample_udp_seg).
Proof.
  split; [vm_compute; lia|]. split; [vm_compute; lia|].
  apply (transport_checksum_frame NET_PROTOCOL_UDP (rx_buf sample_ip_hdr sample_udp_seg)
           peer_ip (net_if_ip small_cfg)); vm_compute; lia.
Defined.

Lemma arp_out_twice_witness :
  let st := init_state small_cfg in
  let own := OwnBuf (payload_buf small_cfg 64 20 x41) in
  map_get (ARP_TIMEOUT_SEC small_cfg) (arp_table st) peer_ip (now st) = None /\
  map_get (ARP_MIN_INTERVAL small_cfg) (arp_buf st) peer_ip (now st) = None /\
  now st <= 1 <= now st + ARP_MIN_INTERVAL small_cfg /\
  arp_out small_cfg (set_now (arp_out small_cfg st own peer_ip) 1) TxBuf peer_ip
  = set_now (arp_out small_cfg st own peer_ip) 1.
Proof.
  intros st own.
  split; [reflexivity|]. split; [reflexivity|]. split; [vm_compute; split; discriminate|].
  apply (arp_out_twice small_cfg st own TxBuf peer_ip 1).
  - reflexivity.
  - reflexivity.
  - vm_compute; split; discriminate.
  - reflexivity.
  - vm_compute; lia.
Defined.

Lemma arp_in_flushes_pending_witness :
  let pending := payload_buf small_cfg 64 20 x41 in
  let st := arp_out small_cfg (init_state small_cfg) (OwnBuf pending) peer_ip in
  map_get (ARP_MIN_INTERVAL small_cfg) (arp_buf st) (buf_ip arp_reply_buf 14) (now st)
    = Some pending /\
  arp_buf (arp_in small_cfg st arp_reply_buf peer_mac) !! peer_ip = None.
Proof.
  intros pending st.
  split; [vm_compute; reflexivity|].
  apply (arp_in_flushes_pending small_cfg st arp_reply_buf peer_mac pending).
  - vm_compute; lia.
  - reflexivity.
  - reflexivity.
  - reflexivity.
  - reflexivity.
  - right; reflexivity.
  - vm_compute; reflexivity.
Defined.

Lemma ip_out_fragmentation_witness :
  let st := init_state small_cfg in
  let own := OwnBuf (payload_buf small_cfg 64 20 x41) in
  buf_wf (deref st own) /\
  (max_payload small_cfg < len (deref st own))%nat /\
  Z.of_nat (max_payload small_cfg) mod 8 = 0 /\
  exists calls,
    fragment_calls (trace (ip_out small_cfg st own peer_ip NET_PROTOCOL_UDP))
      = fragment_calls (trace st) ++ calls /\
    Z.of_nat (length calls) = 3 /\
    concat (map frag_payload calls) = replicate 20 x41.
Proof.
  intros st own.
  split; [vm_compute; lia|]. split; [vm_compute; lia|]. split; [reflexivity|].
  destruct (ip_out_fragmentation small_cfg st own peer_ip NET_PROTOCOL_UDP)
    as (calls & Hcalls & Hn & _ & _ & Hcat & _).
  - vm_compute; lia.
  - vm_compute; lia.
  - vm_compute; lia.
  - reflexivity.
  - vm_compute; reflexivity.
  - exact I.
  - exists calls. split; [exact Hcalls|]. split; [exact Hn|exact Hcat].
Defined.

(** C1 as stated fails on a payload of 66608 bytes with the Ethernet
    threshold of 1480: the 46th fragment would start at byte 66600, which the
    16-bit offset variable holds as 1064, below the offset 65120 of the 45th
    fragment. *)
Lemma ip_out_offset_wraps :
  let st' := ip_out eth_cfg (init_state eth_cfg) (OwnBuf big_buf) peer_ip
               NET_PROTOCOL_UDP in
  Z.of_nat (len big_buf) = 66608 /\
  Z.of_nat (max_payload eth_cfg) = 1480 /\
  length (fragment_calls (trace st')) = 46%nat /\
  map frag_offset (fragment_calls (trace st')) !! 44%nat = Some 65120 /\
  map frag_offset (fragment_calls (trace st')) !! 45%nat = Some 1064 /\
  1064 <> 45 * 1480.
Proof.
  intros st'.
  destruct (ip_out_fragments eth_cfg (init_state eth_cfg) (OwnBuf big_buf) peer_ip
              NET_PROTOCOL_UDP 45) as (Hfc & _ & _).
  - unfold buf_wf, big_buf. cbn [deref payload data len].
    rewrite length_replicate. lia.
  - pose proof (half_bounds (BUF_MAX_LEN eth_cfg)).
    unfold max_payload. cbn [IP_MAX_PAYLOAD BUF_MAX_LEN eth_cfg] in *. lia.
  - lia.
  - unfold max_payload. cbn [deref len big_buf IP_MAX_PAYLOAD eth_cfg]. lia.
  - unfold max_payload. cbn [deref len big_buf IP_MAX_PAYLOAD eth_cfg]. lia.
  - exact I.
  - fold st' in Hfc. rewrite Hfc. cbn [fragment_calls init_state trace List.filter app].
    rewrite map_map. cbn [frag_offset fragment_call].
    split; [reflexivity|]. split; [reflexivity|].
    split; [rewrite length_map, length_seq; reflexivity|].
    change (map ?f ?l) with (f <$> l).
    rewrite !list_lookup_fmap, !lookup_seq_lt by lia.
    split; [vm_compute; reflexivity|]. split; [vm_compute; reflexivity|]. lia.
Qed.

Lemma ip_fragment_out_validates_witness :
  let buf := payload_buf small_cfg 64 20 x41 in
  buf_wf buf /\ (20 <= data buf)%nat /\
  20 <= (Z.of_nat (len buf) + 20) mod 65536 /\
  ip_in_validate (ip_fragment_hdr small_cfg buf peer_ip NET_PROTOCOL_UDP 7 0 0)
  = (ip_fragment_hdr small_cfg buf peer_ip NET_PROTOCOL_UDP 7 0 0, None).
Proof.
  intros buf.
  split; [vm_compute; lia|]. split; [vm_compute; lia|]. split; [vm_compute; discriminate|].
  apply (ip_fragment_out_validates small_cfg (init_state small_cfg) buf peer_ip
           NET_PROTOCOL_UDP 7 0 0).
  - vm_compute; lia.
  - vm_compute; lia.
  - vm_compute; discriminate.
Defined.

(** C5 as stated fails on a payload of 65516 bytes: header and payload make
    65536 bytes, the 16-bit total-length field holds 0, and [ip_in] drops the
    datagram at the total-length check. *)
Lemma ip_fragment_out_total_len_wraps :
  buf_wf long_buf /\ (20 <= data long_buf)%nat /\
  Z.of_nat (len long_buf) = 65516 /\
  (ip_in_validate
     (ip_fragment_hdr eth_cfg long_buf peer_ip NET_PROTOCOL_UDP 0 0 0)).2
  = Some IpDropTotalLen /\
  (ip_in eth_cfg (init_state eth_cfg)
     (ip_fragment_hdr eth_cfg long_buf peer_ip NET_PROTOCOL_UDP 0 0 0) peer_mac).2
  = IpDropTotalLen.
Proof.
  split; [unfold buf_wf, long_buf; cbn [payload data len]; rewrite length_replicate; lia|].
  split; [cbn; lia|]. split; [cbn; lia|].
  vm_compute. split; reflexivity.
Qed.

Lemma ip_in_checksum_mismatch_witness :
  let buf := rx_buf [] (sample_ip_hdr ++ sample_udp_seg) in
  buf_wf buf /\ (20 <= len buf)%nat /\
  ip_in small_cfg (init_state small_cfg) buf peer_mac
  = (init_state small_cfg, buf_store buf 10 (store16 0), IpDropChecksum) /\
  buf_store buf 10 (store16 0) <> buf.
Proof.
  intros buf.
  split; [vm_compute; lia|]. split; [vm_compute; lia|].
  destruct (ip_in_checksum_mismatch small_cfg (init_state small_cfg) buf peer_mac)
    as [Hbad _].
  - vm_compute; lia.
  - vm_compute; lia.
  - reflexivity.
  - vm_compute; discriminate.
  - vm_compute; split; discriminate.
  - destruct Hbad as (Hret & _ & Hmod).
    + vm_compute; discriminate.
    + split; [exact Hret|]. apply Hmod. vm_compute; discriminate.
Defined.

Lemma udp_in_no_lower_bound_witness :
  let buf := rx_buf sample_ip_hdr short_udp_seg in
  (8 <= len buf)%nat /\ swap16 (buf_u16 buf 4) < 8 /\
  udp_in_check buf = inr (Buf (payload buf) (data buf) 4).
Proof.
  intros buf.
  split; [vm_compute; lia|]. split; [vm_compute; reflexivity|].
  apply (udp_in_no_lower_bound small_cfg (init_state small_cfg) buf peer_ip).
  - vm_compute; lia.
  - vm_compute; reflexivity.
Defined.

Lemma udp_in_port_unreachable_witness :
  let buf := rx_buf sample_ip_hdr sample_udp_seg in
  let st := init_state small_cfg in
  buf_wf buf /\ (20 <= data buf)%nat /\ (8 <= len buf)%nat /\
  udp_table st !! swap16 (buf_u16 buf 2) = None /\
  exists st' buf',
    udp_in small_cfg st buf peer_ip = (st', buf', UdpUnreachable) /\
    ip_out_calls (trace st') =
      [EvIpOut (icmp_unreach_msg ICMP_CODE_PORT_UNREACH
                  (sample_ip_hdr ++ take 8 sample_udp_seg))
         peer_ip NET_PROTOCOL_ICMP].
Proof.
  intros buf st.
  split; [vm_compute; lia|]. split; [vm_compute; lia|]. split; [vm_compute; lia|].
  split; [reflexivity|].
  destruct (udp_in_port_unreachable small_cfg st buf peer_ip)
    as (st' & buf' & Hret & Hcalls & _).
  - vm_compute; lia.
  - vm_compute; lia.
  - vm_compute; lia.
  - vm_compute; discriminate.
  - vm_compute; reflexivity.
  - reflexivity.
  - vm_compute; reflexivity.
  - reflexivity.
  - vm_compute; lia.
  - exists st', buf'. split; [exact Hret|]. exact Hcalls.
Defined.

(** C6 as stated fails on a datagram that declares a UDP length of 4: it
    passes the length and checksum checks, and the data section of the ICMP
    message ends in the four bytes that remain after the trim followed by
    four zero bytes, not in the first 8 bytes of the original segment. *)
Lemma udp_in_short_segment_padded :
  let buf := rx_buf sample_ip_hdr short_udp_seg in
  let '(st', _, res) := udp_in small_cfg (init_state small_cfg) buf peer_ip in
  res = UdpUnreachable /\
  map (fun e => drop 8 (ip_out_msg e)) (ip_out_calls (trace st'))
    = [sample_ip_hdr ++ [x12; x34; x00; x35; x00; x00; x00; x00]] /\
  take 8 (window buf) = [x12; x34; x00; x35; x00; x04; xd9; x7e] /\
  map (fun e => drop 8 (ip_out_msg e)) (ip_out_calls (trace st'))
    <> [sample_ip_hdr ++ take 8 (window buf)].
Proof. vm_compute. repeat split; congruence. Qed.

(** ** Two cases the amended claims leave out *)

(** The payload of [ip_out] in the shared [txbuf], destination not in the
    ARP cache: the first fragment makes [arp_out] issue a request, [arp_req]
    rebuilds [txbuf], and the later fragments are read from the rebuilt
    buffer.  This is the case [source_kept] excludes in C1. *)
Lemma ip_out_reads_rebuilt_txbuf :
  window (txbuf tx_payload_state) = replicate 20 x41 /\
  map frag_payload
    (fragment_calls
       (trace (ip_out small_cfg tx_payload_state TxBuf peer_ip NET_PROTOCOL_UDP)))
  = [replicate 8 x41;
     [x00; x00; x00; x01; x08; x06; x00; x01];
     [x08; x00; x06; x04]].
Proof. vm_compute. split; reflexivity. Qed.

(** A UDP datagram behind a 24-byte IP header, no handler for its port:
    [udp_in] re-attaches 20 bytes, which start at the fifth byte of the
    header, and the data section of the ICMP message is not the original IP
    header.  This is the case the 20-byte premise of C6 excludes. *)
Lemma udp_in_ip_options_header :
  let buf := rx_buf options_ip_hdr sample_udp_seg in
  let '(st', _, res) := udp_in small_cfg (init_state small_cfg) buf peer_ip in
  res = UdpUnreachable /\
  map (fun e => drop 8 (ip_out_msg e)) (ip_out_calls (trace st'))
    = [[x00; x00; x00; x00; x40; x11; xde; xad]].
Proof. vm_compute. split; reflexivity. Qed.


(** * Further properties *)

(** ** utils.c: ip_prefix_match *)

Lemma all_bytes_all (b : byte) : In b all_bytes.
Proof.
  unfold all_bytes. apply in_map_iff. exists (Z.to_nat (u8 b)).
  pose proof (u8_range b). split.
  - rewrite Z2Nat.id by lia. apply byte_of_Z_u8.
  - apply in_seq. lia.
Qed.

Lemma prefix_step_all (a b : byte) (c : Z) :
  In c [0; 8; 16; 24] -> prefix_step_ok a b c.
Proof.
  intros Hc.
  assert (forallb (fun c => forallb (fun a => forallb (fun b => prefix_step_check a b c)
                                       all_bytes) all_bytes) [0; 8; 16; 24] = true) as H.
  { vm_compute. reflexivity. }
  rewrite forallb_forall in H. specialize (H c Hc).
  rewrite forallb_forall in H. specialize (H a (all_bytes_all a)).
  rewrite forallb_forall in H. specialize (H b (all_bytes_all b)).
  unfold prefix_step_check in H. unfold prefix_step_ok.
  destruct (ip_prefix_match_bits 8 (Z.lxor (u8 a) (u8 b)) c);
    apply bool_decide_eq_true in H; exact H.
Qed.



Lemma length_byte_bits b : length (byte_bits b) = 8%nat.
Proof. reflexivity. Qed.

(** The loop over the bytes: [k] bytes are done and agree, [count] is 8k. *)
Lemma ip_prefix_match_bytes_spec (la lb : list byte) : forall (k : nat),
  length la = length lb -> (k + length la = 4)%nat ->
  let r := ip_prefix_match_bytes la lb (Z.of_nat (8 * k)) in
  let n := Z.to_nat (r - Z.of_nat (8 * k)) in
  (Z.of_nat (8 * k) <= r <= 32) /\
  take n (concat (map byte_bits la)) = take n (concat (map byte_bits lb)) /\
  (r = 32 <-> la = lb) /\
  (r < 32 -> concat (map byte_bits la) !! n <> concat (map byte_bits lb) !! n).
Proof.
  revert lb. induction la as [|a la IH]; intros [|b lb] k Hlen Hk; try discriminate.
  - cbn [ip_prefix_match_bytes length] in *. cbn zeta.
    replace (Z.of_nat (8 * k)) with 32 by lia.
    repeat split; try lia; reflexivity.
  - cbn [length] in *. cbn [ip_prefix_match_bytes map concat]. cbn zeta.
    assert (In (Z.of_nat (8 * k)) [0; 8; 16; 24]) as Hc.
    { destruct k as [|[|[|[|k]]]]; [| | | |lia]; cbn; tauto. }
    pose proof (prefix_step_all a b _ Hc) as Hs. unfold prefix_step_ok in Hs.
    destruct (ip_prefix_match_bits 8 (Z.lxor (u8 a) (u8 b)) (Z.of_nat (8 * k)))
      as [r|r].
    + destruct Hs as (Hne & Hr & Htake & Hbit).
      set (n := Z.to_nat (r - Z.of_nat (8 * k))) in *.
      assert (n < 8)%nat as Hn by lia.
      split; [lia|]. split; [|split; [split|]].
      * rewrite !take_app_le by (rewrite length_byte_bits; lia). exact Htake.
      * lia.
      * intros E. congruence.
      * intros _. rewrite !lookup_app_l by (rewrite length_byte_bits; lia). exact Hbit.
    + destruct Hs as (-> & ->).
      replace (Z.of_nat (8 * k) + 8) with (Z.of_nat (8 * S k)) by lia.
      specialize (IH lb (S k) ltac:(lia) ltac:(lia)). cbn zeta in IH.
      set (r := ip_prefix_match_bytes la lb (Z.of_nat (8 * S k))) in *.
      destruct IH as (Hr & Htake & Heq & Hbit).
      replace (Z.to_nat (r - Z.of_nat (8 * k)))
        with (8 + Z.to_nat (r - Z.of_nat (8 * S k)))%nat by lia.
      split; [lia|]. split; [|split; [split|]].
      * rewrite !take_app_add' by reflexivity.
        f_equal. exact Htake.
      * intros E. f_equal. apply Heq. exact E.
      * intros E. apply Heq. congruence.
      * intros Hlt. rewrite !lookup_app_r by (rewrite length_byte_bits; lia).
        rewrite length_byte_bits.
        replace (8 + Z.to_nat (r - Z.of_nat (8 * S k)) - 8)%nat
          with (Z.to_nat (r - Z.of_nat (8 * S k))) by lia.
        apply Hbit. exact Hlt.
Qed.

(** X1.  [ip_prefix_match] returns the length of the longest common prefix of
    the two addresses, read as 32 bits from the top bit of the first byte:
    the result is between 0 and 32, the two addresses agree on that many
    leading bits, and unless the result is 32 they differ in the next bit. *)
Theorem ip_prefix_match_longest (ipa ipb : ip_t) :
  let n := Z.to_nat (ip_prefix_match ipa ipb) in
  (0 <= ip_prefix_match ipa ipb <= 32) /\
  take n (ip_bits ipa) = take n (ip_bits ipb) /\
  (ip_prefix_match ipa ipb < 32 -> ip_bits ipa !! n <> ip_bits ipb !! n).
Proof.
  pose proof (ip_prefix_match_bytes_spec (ip_bytes ipa) (ip_bytes ipb) 0) as H.
  rewrite !length_ip_bytes in H. specialize (H eq_refl eq_refl).
  cbn zeta in H. change (Z.of_nat (8 * 0)) with 0 in H. rewrite Z.sub_0_r in H.
  destruct H as (Hr & Htake & _ & Hbit). cbn zeta. unfold ip_prefix_match, ip_bits.
  repeat split; [lia|lia|exact Htake|exact Hbit].
Qed.

Lemma ip_bytes_inj (ipa ipb : ip_t) : ip_bytes ipa = ip_bytes ipb -> ipa = ipb.
Proof.
  destruct ipa as [[[a0 a1] a2] a3], ipb as [[[b0 b1] b2] b3]. cbn. congruence.
Qed.

(** X2.  [ip_prefix_match] returns 32 exactly when the two addresses are the
    same, and the order of the two arguments does not matter. *)
Theorem ip_prefix_match_equal (ipa ipb : ip_t) :
  (ip_prefix_match ipa ipb = 32 <-> ipa = ipb) /\
  ip_prefix_match ipa ipb = ip_prefix_match ipb ipa.
Proof.
  split.
  - pose proof (ip_prefix_match_bytes_spec (ip_bytes ipa) (ip_bytes ipb) 0) as H.
    rewrite !length_ip_bytes in H. specialize (H eq_refl eq_refl).
    cbn zeta in H. destruct H as (_ & _ & Heq & _).
    unfold ip_prefix_match. change 0 with (Z.of_nat (8 * 0)) at 1.
    rewrite Heq. split; [apply ip_bytes_inj|congruence].
  - unfold ip_prefix_match. generalize 0.
    assert (length (ip_bytes ipa) = length (ip_bytes ipb)) as Hlen
      by (rewrite !length_ip_bytes; reflexivity).
    revert Hlen. generalize (ip_bytes ipb) as lb. generalize (ip_bytes ipa) as la.
    induction la as [|a la IH]; intros [|b lb] Hlen c; try discriminate; [reflexivity|].
    cbn [ip_prefix_match_bytes]. rewrite (Z.lxor_comm (u8 b)).
    destruct (ip_prefix_match_bits 8 (Z.lxor (u8 a) (u8 b)) c); [reflexivity|].
    apply IH. cbn in Hlen. lia.
Qed.


(** ** utils.c: iptos and mactos *)

Lemma decimal_digit_u8 v : 0 <= v <= 9 -> u8 (decimal_digit v) = 48 + v.
Proof. intros H. unfold decimal_digit. rewrite u8_byte_of_Z. apply Z.mod_small. lia. Qed.

Lemma decimal_digit_inj v v' :
  0 <= v <= 9 -> 0 <= v' <= 9 -> decimal_digit v = decimal_digit v' -> v = v'.
Proof.
  intros H H' E. apply (f_equal u8) in E. rewrite !decimal_digit_u8 in E by lia. lia.
Qed.

Lemma decimal_digit_not_dot v : 0 <= v <= 9 -> decimal_digit v <> x2e.
Proof.
  intros H E. apply (f_equal u8) in E. rewrite decimal_digit_u8 in E by lia.
  change (u8 x2e) with 46 in E. lia.
Qed.

Lemma length_sprintf_d v : (1 <= length (sprintf_d v) <= 3)%nat.
Proof.
  unfold sprintf_d. destruct (v <? 10); [cbn; lia|]. destruct (v <? 100); cbn; lia.
Qed.

(** The digits of a value up to 255, followed by nothing or by a dot and
    more, determine the value and what follows. *)
Lemma sprintf_d_inj (v v' : Z) (r r' : list byte) :
  0 <= v <= 255 -> 0 <= v' <= 255 ->
  (r = [] \/ exists t, r = x2e :: t) -> (r' = [] \/ exists t, r' = x2e :: t) ->
  sprintf_d v ++ r = sprintf_d v' ++ r' -> v = v' /\ r = r'.
Proof.
  intros Hv Hv' Hr Hr'. unfold sprintf_d.
  assert (Hnd : forall x l t, 0 <= x <= 9 ->
            (l = [] \/ exists t', l = x2e :: t') -> l = decimal_digit x :: t -> False).
  { intros x l t Hx [->|(t' & ->)] E; [discriminate|].
    injection E as E _. symmetry in E. revert E. apply decimal_digit_not_dot. exact Hx. }
  destruct (Z.ltb_spec v 10); [|destruct (Z.ltb_spec v 100)];
    (destruct (Z.ltb_spec v' 10); [|destruct (Z.ltb_spec v' 100)]);
    cbn [app]; intros E; injection E as E;
    repeat match goal with
    | H : decimal_digit _ = decimal_digit _ |- _ =>
        apply decimal_digit_inj in H;
        [|Z.div_mod_to_equations; lia|Z.div_mod_to_equations; lia]
    end;
    try (split; [Z.div_mod_to_equations; lia|congruence]);
    exfalso;
    repeat match goal with
    | H : _ :: _ = _ :: _ |- _ => injection H as ? H
    end;
    match goal with
    | H : r = decimal_digit ?x :: ?t |- _ =>
        apply (Hnd x r t); [Z.div_mod_to_equations; lia|exact Hr|exact H]
    | H : decimal_digit ?x :: ?t = r |- _ =>
        apply (Hnd x r t); [Z.div_mod_to_equations; lia|exact Hr|symmetry; exact H]
    | H : r' = decimal_digit ?x :: ?t |- _ =>
        apply (Hnd x r' t); [Z.div_mod_to_equations; lia|exact Hr'|exact H]
    | H : decimal_digit ?x :: ?t = r' |- _ =>
        apply (Hnd x r' t); [Z.div_mod_to_equations; lia|exact Hr'|symmetry; exact H]
    end.
Qed.

(** X3.  The text [iptos] writes has 7 to 15 characters, so with the
    terminating NUL it fits the static buffer of [3 * 4 + 3 + 1] bytes, and
    two different addresses never give the same text. *)
Theorem iptos_fits_and_distinguishes (ipa ipb : ip_t) :
  (7 <= length (iptos ipa) <= 15)%nat /\
  (length (iptos ipa) + 1 <= iptos_output_size)%nat /\
  (iptos ipa = iptos ipb -> ipa = ipb).
Proof.
  destruct ipa as [[[a0 a1] a2] a3], ipb as [[[b0 b1] b2] b3].
  unfold iptos, iptos_output_size.
  pose proof (length_sprintf_d (u8 a0)). pose proof (length_sprintf_d (u8 a1)).
  pose proof (length_sprintf_d (u8 a2)). pose proof (length_sprintf_d (u8 a3)).
  split; [|split].
  - rewrite !length_app. cbn [length]. lia.
  - rewrite !length_app. cbn [length]. lia.
  - intros E.
    pose proof (u8_range a0). pose proof (u8_range a1). pose proof (u8_range a2).
    pose proof (u8_range a3). pose proof (u8_range b0). pose proof (u8_range b1).
    pose proof (u8_range b2). pose proof (u8_range b3).
    apply sprintf_d_inj in E as (E0 & E);
      [|lia|lia|right; eexists; reflexivity|right; eexists; reflexivity].
    injection E as E.
    apply sprintf_d_inj in E as (E1 & E);
      [|lia|lia|right; eexists; reflexivity|right; eexists; reflexivity].
    injection E as E.
    apply sprintf_d_inj in E as (E2 & E);
      [|lia|lia|right; eexists; reflexivity|right; eexists; reflexivity].
    injection E as E.
    rewrite <- (app_nil_r (sprintf_d (u8 a3))), <- (app_nil_r (sprintf_d (u8 b3))) in E.
    apply sprintf_d_inj in E as (E3 & _); [|lia|lia|left; reflexivity|left; reflexivity].
    apply (f_equal byte_of_Z) in E0, E1, E2, E3.
    rewrite !byte_of_Z_u8 in E0, E1, E2, E3. congruence.
Qed.

Lemma hex_digit_inj v v' :
  0 <= v <= 15 -> 0 <= v' <= 15 -> hex_digit v = hex_digit v' -> v = v'.
Proof.
  intros H H' E. apply (f_equal u8) in E. unfold hex_digit in E.
  destruct (Z.ltb_spec v 10); destruct (Z.ltb_spec v' 10);
    rewrite !u8_byte_of_Z, !Z.mod_small in E by lia; lia.
Qed.

Lemma sprintf_02X_inj (a b : byte) : sprintf_02X (u8 a) = sprintf_02X (u8 b) -> a = b.
Proof.
  intros E. pose proof (u8_range a). pose proof (u8_range b).
  unfold sprintf_02X in E. injection E as E1 E2.
  apply hex_digit_inj in E1; [|Z.div_mod_to_equations; lia|Z.div_mod_to_equations; lia].
  apply hex_digit_inj in E2; [|Z.div_mod_to_equations; lia|Z.div_mod_to_equations; lia].
  assert (u8 a = u8 b) as E by (Z.div_mod_to_equations; lia).
  apply (f_equal byte_of_Z) in E. rewrite !byte_of_Z_u8 in E. exact E.
Qed.

(** X4.  The text [mactos] writes has exactly 17 characters, so with the
    terminating NUL it fills the static buffer of [2 * 6 + 5 + 1] bytes, and
    two different addresses never give the same text. *)
Theorem mactos_fits_and_distinguishes (maca macb : mac_t) :
  length (mactos maca) = 17%nat /\
  (length (mactos maca) + 1 = mactos_output_size)%nat /\
  (mactos maca = mactos macb -> maca = macb).
Proof.
  destruct maca as [[[[[a0 a1] a2] a3] a4] a5], macb as [[[[[b0 b1] b2] b3] b4] b5].
  split; [reflexivity|]. split; [reflexivity|].
  unfold mactos. cbn [app sprintf_02X]. intros E.
  injection E as E0 E0' E1 E1' E2 E2' E3 E3' E4 E4' E5 E5'.
  assert (forall a b, hex_digit (u8 a / 16) = hex_digit (u8 b / 16) ->
                      hex_digit (u8 a mod 16) = hex_digit (u8 b mod 16) -> a = b) as Hb.
  { intros a b Hh Hl. apply sprintf_02X_inj. unfold sprintf_02X. congruence. }
  rewrite (Hb a0 b0), (Hb a1 b1), (Hb a2 b2), (Hb a3 b3), (Hb a4 b4), (Hb a5 b5)
    by assumption.
  reflexivity.
Qed.


(** ** utils.c: checksum16 *)

Lemma le_words_zeros k : sum_list (le_words (replicate k x00)) = 0.
Proof.
  assert (forall n k, (k <= n)%nat -> sum_list (le_words (replicate k x00)) = 0) as H.
  { induction n as [|n IH]; intros [|[|j]] Hj; try reflexivity; try lia.
    cbn [replicate le_words sum_list foldr].
    fold (sum_list (le_words (replicate j x00))). rewrite IH by lia. reflexivity. }
  apply (H k k). lia.
Qed.

Lemma le_words_zero_padding d : forall k,
  sum_list (le_words (d ++ replicate k x00)) = sum_list (le_words d).
Proof.
  induction d as [|b0|b0 b1 rest IH] using list_pair_ind; intros k.
  - cbn [app]. rewrite le_words_zeros. reflexivity.
  - destruct k as [|k]; [reflexivity|].
    cbn [app replicate le_words sum_list foldr].
    fold (sum_list (le_words (replicate k x00))). rewrite le_words_zeros.
    unfold load16. change (u8 x00) with 0. lia.
  - cbn [app le_words sum_list foldr].
    fold (sum_list (le_words (rest ++ replicate k x00))).
    fold (sum_list (le_words rest)). rewrite IH. reflexivity.
Qed.

(** X5.  Zero bytes appended to a region do not change its checksum: the
    odd byte of a region of odd length is added as if a zero byte followed,
    and words of zero add nothing.  The result is a 16-bit value. *)
Theorem checksum16_zero_padding (d : list byte) (k : nat) :
  checksum16 (d ++ replicate k x00) = checksum16 d /\
  0 <= checksum16 d <= 65535.
Proof.
  split; [|apply checksum16_range].
  rewrite !checksum16_ocnorm, le_words_zero_padding. reflexivity.
Qed.

Lemma length_set_field16 d i v : length (set_field16 d i v) = length d.
Proof. unfold set_field16. apply length_inserts. Qed.

Lemma sum_le_words_u32 d :
  Z.of_nat (length d) <= 131074 -> 0 <= sum_list (le_words d) < 4294967296.
Proof.
  intros Hlen. pose proof (sum_le_words_bound d) as [H0 Hb].
  assert (Z.of_nat ((length d + 1) / 2) <= 65537).
  { rewrite Nat2Z.inj_div, Nat2Z.inj_add. change (Z.of_nat 2) with 2.
    change (Z.of_nat 1) with 1.
    assert ((Z.of_nat (length d) + 1) / 2 < 65538)
      by (apply Z.div_lt_upper_bound; lia).
    lia. }
  lia.
Qed.

Lemma ocnorm_inj_step s v v' :
  0 <= s -> 0 <= v <= 65535 -> 0 <= v' <= 65535 ->
  ocnorm (s + v) = ocnorm (s + v') ->
  v = v' \/ (v = 0 /\ v' = 65535) \/ (v = 65535 /\ v' = 0).
Proof.
  intros Hs Hv Hv'. unfold ocnorm.
  destruct (Z.eqb_spec (s + v) 0) as [E|E]; destruct (Z.eqb_spec (s + v') 0) as [E'|E'].
  - lia.
  - pose proof (Z.mod_pos_bound (s + v' - 1) 65535 ltac:(lia)). lia.
  - pose proof (Z.mod_pos_bound (s + v - 1) 65535 ltac:(lia)). lia.
  - intros H.
    pose proof (Z.div_mod (s + v - 1) 65535 ltac:(lia)) as D.
    pose proof (Z.div_mod (s + v' - 1) 65535 ltac:(lia)) as D'.
    lia.
Qed.

(** X6.  In a region of at most 131074 bytes, replacing one aligned 16-bit
    word by a different value changes the checksum, unless the two values
    are 0x0000 and 0xFFFF (the two zeros of ones' complement). *)
Theorem checksum16_detects_word_change (d : list byte) (i : nat) (v v' : Z) :
  Z.of_nat (length d) <= 131074 -> (2 * i + 2 <= length d)%nat ->
  0 <= v <= 65535 -> 0 <= v' <= 65535 -> v <> v' ->
  ~ (v = 0 /\ v' = 65535) -> ~ (v = 65535 /\ v' = 0) ->
  checksum16 (set_field16 d i v) <> checksum16 (set_field16 d i v').
Proof.
  intros Hlen Hi Hv Hv' Hne Hz1 Hz2 E.
  rewrite !checksum16_ocnorm in E.
  pose proof (sum_le_words_u32 (set_field16 d i v)
                ltac:(rewrite length_set_field16; exact Hlen)) as B.
  pose proof (sum_le_words_u32 (set_field16 d i v')
                ltac:(rewrite length_set_field16; exact Hlen)) as B'.
  pose proof (sum_le_words_u32 (set_field16 d i 0)
                ltac:(rewrite length_set_field16; exact Hlen)) as B0.
  unfold wrap32 in E. rewrite !Z.mod_small in E by lia.
  rewrite (set_field16_sum d i v), (set_field16_sum d i v') in E by exact Hi.
  rewrite !Z.mod_small in E by lia.
  destruct (ocnorm_inj_step (sum_list (le_words (set_field16 d i 0))) v v')
    as [?|[?|?]]; try lia.
Qed.

Lemma checksum16_detects_word_change_witness :
  checksum16 (set_field16 [x45; x00; x00; x1c; x00; x01] 1 28)
  <> checksum16 (set_field16 [x45; x00; x00; x1c; x00; x01] 1 29).
Proof.
  apply (checksum16_detects_word_change [x45; x00; x00; x1c; x00; x01] 1 28 29);
    simpl; lia.
Defined.


(** ** ethernet.c *)

(** A well-formed buffer is its window between what lies in front of it and
    what lies behind it. *)
Lemma buf_open_window (buf : buf_t) :
  buf_wf buf ->
  exists pre post,
    buf = Buf (pre ++ window buf ++ post) (length pre) (length (window buf)) /\
    length (window buf) = len buf.
Proof.
  intros Hwf. destruct buf as [mem d n]. unfold buf_wf in Hwf.
  cbn [payload data len] in *.
  destruct (split3 mem d n Hwf) as (pre & w & post & -> & Hpre & Hw).
  rewrite window_mid by lia. exists pre, post. split; [f_equal; lia|lia].
Qed.

Lemma length_ether_frame dst src protocol pkt :
  length (ether_frame dst src protocol pkt) = (14 + Nat.max 46 (length pkt))%nat.
Proof.
  unfold ether_frame, ETHERNET_MIN_TRANSPORT_UNIT.
  rewrite !length_app, !length_mac_bytes, length_replicate. cbn [length]. lia.
Qed.

Lemma filter_driver_send_app tr1 tr2 :
  frames_sent (tr1 ++ tr2) = frames_sent tr1 ++ frames_sent tr2.
Proof. apply List.filter_app. Qed.

Lemma handler_calls_app tr1 tr2 :
  handler_calls (tr1 ++ tr2) = handler_calls tr1 ++ handler_calls tr2.
Proof. apply List.filter_app. Qed.

(** [ethernet_in] on a buffer whose window is a frame: the header is
    stripped and the rest goes to the dispatcher with the ethertype and the
    source address of the frame. *)
Lemma ethernet_in_open cfg st (pre post : list byte) dst src protocol pkt :
  0 <= protocol < 65536 ->
  let rest := pkt ++ replicate (46 - length pkt) x00 in
  ethernet_in cfg st
    (Buf (pre ++ ether_frame dst src protocol pkt ++ post) (length pre)
       (length (ether_frame dst src protocol pkt)))
  = let '(st', buf', _) :=
      net_in_ether cfg st
        (Buf (pre ++ ether_frame dst src protocol pkt ++ post) (length pre + 14)
           (length rest)) protocol src in
    (st', buf').
Proof.
  intros Hp rest. unfold ethernet_in. cbn [len].
  rewrite length_ether_frame.
  destruct (Nat.ltb_spec (14 + Nat.max 46 (length pkt)) 14); [lia|].
  assert (length rest = Nat.max 46 (length pkt)) as Hrest.
  { unfold rest. rewrite length_app, length_replicate. lia. }
  unfold buf_remove_header. cbn [payload data len].
  destruct (Nat.leb_spec 14 (14 + Nat.max 46 (length pkt))); [|lia].
  replace (14 + Nat.max 46 (length pkt) - 14)%nat with (length rest) by lia.
  assert (buf_mac (Buf (pre ++ ether_frame dst src protocol pkt ++ post) (length pre)
                     (14 + Nat.max 46 (length pkt))) 6 = src) as ->.
  { unfold buf_mac. rewrite !buf_u8_mid by (rewrite ?length_ether_frame; lia).
    unfold ether_frame.
    destruct dst as [[[[[d0 d1] d2] d3] d4] d5], src as [[[[[s0 s1] s2] s3] s4] s5].
    reflexivity. }
  assert (swap16 (buf_u16 (Buf (pre ++ ether_frame dst src protocol pkt ++ post)
                             (length pre) (14 + Nat.max 46 (length pkt))) 12)
          = protocol) as ->.
  { unfold buf_u16. rewrite !buf_u8_mid by (rewrite ?length_ether_frame; lia).
    unfold ether_frame.
    destruct dst as [[[[[d0 d1] d2] d3] d4] d5], src as [[[[[s0 s1] s2] s3] s4] s5].
    cbn [mac_bytes app lookup list_lookup Nat.add default from_option].
    unfold Datatypes.id.
    rewrite swap16_load16_be16. apply Z.mod_small. lia. }
  reflexivity.
Qed.

(** X7.  [ethernet_out] hands the driver one frame: the destination address,
    the local address, the protocol as a big-endian 16-bit value, then the
    payload followed by zero bytes up to 46 bytes.  The frame is never
    shorter than 60 bytes. *)
Theorem ethernet_out_frame cfg (st : net_t) (r : buf_ref) (mac : mac_t)
    (protocol : Z) :
  let buf := deref st r in
  buf_wf buf -> (14 <= data buf)%nat ->
  (data buf + 46 <= length (payload buf))%nat ->
  let st' := ethernet_out cfg st r mac protocol in
  let frame := ether_frame mac (net_if_mac cfg) protocol (window buf) in
  frames_sent (trace st') = frames_sent (trace st) ++ [EvDriverSend frame] /\
  frame = mac_bytes mac ++ mac_bytes (net_if_mac cfg) ++ be16 protocol ++
          window buf ++ replicate (46 - len buf) x00 /\
  length frame = (14 + Nat.max 46 (len buf))%nat /\
  (60 <= length frame)%nat /\
  arp_table st' = arp_table st /\ arp_buf st' = arp_buf st /\ ip_id st' = ip_id st.
Proof.
  intros buf Hwf Hroom Htail st' frame.
  assert (length (window buf) = len buf) as Hlen.
  { destruct (buf_open_window buf Hwf) as (? & ? & _ & H). exact H. }
  subst st'. rewrite ethernet_out_eq. cbn [trace arp_table arp_buf ip_id].
  fold buf. rewrite ethernet_frame_window by assumption. fold frame.
  rewrite filter_driver_send_app.
  assert (length frame = (14 + Nat.max 46 (len buf))%nat) as Hfl.
  { unfold frame. rewrite length_ether_frame, Hlen. reflexivity. }
  repeat split.
  - unfold frame, ether_frame, be16, ETHERNET_MIN_TRANSPORT_UNIT. rewrite Hlen.
    reflexivity.
  - exact Hfl.
  - lia.
Qed.

Lemma ethernet_out_frame_witness :
  let st := init_state small_cfg in
  let buf := payload_buf small_cfg 64 20 x41 in
  frames_sent (trace (ethernet_out small_cfg st (OwnBuf buf) peer_mac NET_PROTOCOL_IP))
  = [EvDriverSend (ether_frame peer_mac (net_if_mac small_cfg) NET_PROTOCOL_IP
                     (replicate 20 x41))].
Proof.
  intros st buf.
  destruct (ethernet_out_frame small_cfg st (OwnBuf buf) peer_mac NET_PROTOCOL_IP)
    as (H & _); [unfold buf_wf; simpl; lia | simpl; lia | simpl; lia |].
  exact H.
Defined.

(** X8.  [ethernet_in] on a received frame of [ethernet_out]'s layout strips
    the 14-byte header and hands the dispatcher the rest (the payload with
    its padding), the protocol number and the source address of the frame,
    whatever the destination address of the frame is. *)
Theorem ethernet_in_frame cfg (st : net_t) (rx : buf_t) (dst src : mac_t)
    (protocol : Z) (pkt : list byte) :
  buf_wf rx -> 0 <= protocol < 65536 ->
  window rx = ether_frame dst src protocol pkt ->
  let up := buf_remove_header rx 14 in
  window up = pkt ++ replicate (46 - length pkt) x00 /\
  ethernet_in cfg st rx
  = (let '(st', buf', _) := net_in_ether cfg st up protocol src in (st', buf')).
Proof.
  intros Hwf Hp Hw up.
  destruct (buf_open_window rx Hwf) as (pre & post & E & Hlen).
  rewrite Hw in E, Hlen.
  assert (up = Buf (pre ++ ether_frame dst src protocol pkt ++ post) (length pre + 14)
                 (length (pkt ++ replicate (46 - length pkt) x00))) as Eup.
  { unfold up. rewrite E. unfold buf_remove_header. cbn [payload data len].
    rewrite length_ether_frame.
    destruct (Nat.leb_spec 14 (14 + Nat.max 46 (length pkt))); [|lia].
    f_equal. rewrite length_app, length_replicate. lia. }
  split.
  - rewrite Eup.
    set (rest := pkt ++ replicate (46 - length pkt) x00).
    set (hdr := mac_bytes dst ++ mac_bytes src ++
                [byte_of_Z (protocol / 256); byte_of_Z protocol]).
    assert (ether_frame dst src protocol pkt = hdr ++ rest) as ->.
    { unfold ether_frame, hdr, rest, ETHERNET_MIN_TRANSPORT_UNIT.
      rewrite <- !app_assoc. reflexivity. }
    rewrite <- (app_assoc hdr), (app_assoc pre hdr).
    apply window_mid; [|reflexivity].
    unfold hdr. rewrite !length_app, !length_mac_bytes. cbn [length]. lia.
  - rewrite Eup. rewrite E at 1. apply ethernet_in_open. exact Hp.
Qed.

Lemma ethernet_in_frame_witness :
  let rx := Buf (ether_frame broadcast_mac peer_mac NET_PROTOCOL_ARP [x01; x02]) 0 60 in
  window (buf_remove_header rx 14) = [x01; x02] ++ replicate 44 x00.
Proof.
  intros rx.
  destruct (ethernet_in_frame small_cfg (init_state small_cfg) rx broadcast_mac peer_mac
              NET_PROTOCOL_ARP [x01; x02]) as (H & _);
    [unfold buf_wf; simpl; lia | unfold NET_PROTOCOL_ARP; lia | reflexivity |].
  exact H.
Defined.


(** ** arp.c *)

Lemma length_arp_packet op smac sip tmac tip :
  length (arp_packet op smac sip tmac tip) = 28%nat.
Proof. unfold arp_packet, be16. len_solve. Qed.

Lemma arp_request_packet cfg target_ip :
  arp_request cfg target_ip
  = arp_packet ARP_REQUEST (net_if_mac cfg) (net_if_ip cfg) zero_mac target_ip.
Proof. reflexivity. Qed.

Lemma arp_reply_packet cfg target_ip target_mac :
  arp_reply cfg target_ip target_mac
  = arp_packet ARP_REPLY (net_if_mac cfg) (net_if_ip cfg) target_mac target_ip.
Proof. reflexivity. Qed.

(** The fields [arp_in] reads from a buffer whose window starts with an ARP
    packet. *)
Lemma arp_packet_fields (pre post : list byte) (n : nat) op smac sip tmac tip :
  0 <= op < 65536 ->
  let buf := Buf (pre ++ arp_packet op smac sip tmac tip ++ post) (length pre) n in
  swap16 (buf_u16 buf 0) = 1 /\ swap16 (buf_u16 buf 2) = 2048 /\
  u8 (buf_u8 buf 4) = 6 /\ u8 (buf_u8 buf 5) = 4 /\
  swap16 (buf_u16 buf 6) = op /\
  buf_mac buf 8 = smac /\ buf_ip buf 14 = sip /\ buf_ip buf 24 = tip.
Proof.
  intros Hop buf. unfold buf, buf_u16, buf_mac, buf_ip.
  rewrite !buf_u8_mid by (rewrite ?length_arp_packet; lia).
  destruct smac as [[[[[s0 s1] s2] s3] s4] s5], tmac as [[[[[t0 t1] t2] t3] t4] t5].
  destruct sip as [[[i0 i1] i2] i3], tip as [[[j0 j1] j2] j3].
  cbn [arp_packet be16 mac_bytes ip_bytes app lookup list_lookup Nat.add default
       from_option].
  unfold Datatypes.id. rewrite swap16_load16_be16, Z.mod_small by lia.
  repeat split.
Qed.

Lemma arp_in_packet cfg st (pre post : list byte) (n : nat) op smac sip tmac tip
    src_mac :
  (28 <= n)%nat -> op = ARP_REQUEST \/ op = ARP_REPLY ->
  arp_in cfg st (Buf (pre ++ arp_packet op smac sip tmac tip ++ post) (length pre) n)
    src_mac
  = let st1 := set_arp_table st (map_set (arp_table st) sip smac (now st)) in
    match map_get (ARP_MIN_INTERVAL cfg) (arp_buf st) sip (now st) with
    | Some cached_buf =>
        set_arp_buf (ethernet_out cfg st1 (OwnBuf cached_buf) smac NET_PROTOCOL_IP)
          (map_delete (arp_buf st) sip)
    | None =>
        if (op =? ARP_REQUEST) && bool_decide (tip = net_if_ip cfg)
        then arp_resp cfg st1 sip smac
        else st1
    end.
Proof.
  intros Hn Hop.
  assert (0 <= op < 65536) as Hr
    by (unfold ARP_REQUEST, ARP_REPLY in Hop; lia).
  destruct (arp_packet_fields pre post n op smac sip tmac tip Hr)
    as (H0 & H2 & H4 & H5 & H6 & Hsm & Hsi & Hti).
  set (buf := Buf _ _ _) in *.
  assert (arp_valid buf = true) as Hv.
  { apply arp_valid_intro; try assumption. rewrite H6. exact Hop. }
  unfold arp_in. rewrite Hv.
  cbn [negb]. rewrite H6, Hsm, Hsi, Hti.
  cbn [set_arp_table arp_buf now].
  destruct (map_get _ (arp_buf st) sip (now st)); [|reflexivity].
  rewrite !ethernet_out_eq. reflexivity.
Qed.

Lemma arp_resp_eq cfg st target_ip target_mac :
  length (payload (txbuf st)) = BUF_MAX_LEN cfg -> (84 <= BUF_MAX_LEN cfg)%nat ->
  exists tx,
    length (payload tx) = BUF_MAX_LEN cfg /\
    arp_resp cfg st target_ip target_mac =
    Net (arp_table st) (arp_buf st) (udp_table st) (net_protocols st) (ip_id st)
      tx (now st)
      (trace st ++
       [EvEthernetOut (arp_reply cfg target_ip target_mac) target_mac NET_PROTOCOL_ARP;
        EvDriverSend (ether_frame target_mac (net_if_mac cfg) NET_PROTOCOL_ARP
                        (arp_reply cfg target_ip target_mac))]).
Proof.
  intros Hlen Hcap. pose proof (half_bounds (BUF_MAX_LEN cfg)) as Hhalf.
  unfold arp_resp.
  destruct (buf_init_open (BUF_MAX_LEN cfg) (txbuf st) 28 Hlen ltac:(lia))
    as (pre & old & post & -> & Hpre & Hold & Hpost).
  rewrite !buf_store_mid by len_solve.
  set (w := list_inserts 24 _ _).
  assert (w = arp_reply cfg target_ip target_mac) as Hw.
  { unfold w, arp_reply. rewrite !store16_swap16.
    destruct (net_if_mac cfg) as [[[[[s0 s1] s2] s3] s4] s5].
    destruct (net_if_ip cfg) as [[[i0 i1] i2] i3].
    destruct target_ip as [[[t0 t1] t2] t3].
    destruct target_mac as [[[[[m0 m1] m2] m3] m4] m5].
    explode_list old Hold. reflexivity. }
  clearbody w. subst w.
  assert (length (arp_reply cfg target_ip target_mac) = 28%nat) as Hreq.
  { unfold arp_reply. len_solve. }
  rewrite ethernet_out_eq. cbn [arp_table arp_buf udp_table net_protocols ip_id txbuf now trace
    set_txbuf deref].
  rewrite ethernet_frame_window;
    [| unfold buf_wf; cbn [payload data len]; len_solve
     | cbn [data]; lia
     | cbn [payload data]; len_solve ].
  rewrite window_mid by (reflexivity || lia).
  eexists. split; [|reflexivity].
  unfold ethernet_frame, buf_add_padding, buf_add_header, buf_store.
  cbn [payload data len].
  repeat (match goal with |- context [if ?c then _ else _] => destruct c end;
          cbn [payload data len]);
    len_solve.
Qed.


Lemma ether_frame_payload_open (pre post : list byte) dst src protocol pkt :
  exists pre',
    pre ++ ether_frame dst src protocol pkt ++ post
    = pre' ++ pkt ++ (replicate (46 - length pkt) x00 ++ post) /\
    length pre' = (length pre + 14)%nat.
Proof.
  exists (pre ++ mac_bytes dst ++ mac_bytes src ++
          [byte_of_Z (protocol / 256); byte_of_Z protocol]).
  split.
  - unfold ether_frame, ETHERNET_MIN_TRANSPORT_UNIT. rewrite <- !app_assoc. reflexivity.
  - rewrite !length_app, !length_mac_bytes. cbn [length]. lia.
Qed.

Lemma arp_resp_frame cfg st target_ip target_mac :
  let st' := arp_resp cfg st target_ip target_mac in
  arp_table st' = arp_table st /\ arp_buf st' = arp_buf st /\ now st' = now st.
Proof. unfold arp_resp. rewrite ethernet_out_eq. repeat split. Qed.

(** [ethernet_in] on a frame that carries an ARP packet, ARP being
    registered: [arp_in] runs on the packet. *)
Lemma ethernet_in_arp cfg st (rx : buf_t) dst src op smac sip tmac tip :
  NET_PROTOCOL_ARP ∈ net_protocols st ->
  buf_wf rx -> op = ARP_REQUEST \/ op = ARP_REPLY ->
  window rx = ether_frame dst src NET_PROTOCOL_ARP (arp_packet op smac sip tmac tip) ->
  (ethernet_in cfg st rx).1
  = let st1 := set_arp_table st (map_set (arp_table st) sip smac (now st)) in
    match map_get (ARP_MIN_INTERVAL cfg) (arp_buf st) sip (now st) with
    | Some cached_buf =>
        set_arp_buf (ethernet_out cfg st1 (OwnBuf cached_buf) smac NET_PROTOCOL_IP)
          (map_delete (arp_buf st) sip)
    | None =>
        if (op =? ARP_REQUEST) && bool_decide (tip = net_if_ip cfg)
        then arp_resp cfg st1 sip smac
        else st1
    end.
Proof.
  intros Hreg Hwf Hop Hw.
  destruct (buf_open_window rx Hwf) as (pre & post & E & _).
  rewrite Hw in E. rewrite E.
  rewrite ethernet_in_open by (unfold NET_PROTOCOL_ARP; lia).
  unfold net_in_ether. rewrite (bool_decide_eq_true_2 _ Hreg).
  rewrite Z.eqb_refl. cbn [fst].
  destruct (ether_frame_payload_open pre post dst src NET_PROTOCOL_ARP
              (arp_packet op smac sip tmac tip)) as (pre' & -> & Hpre').
  rewrite <- Hpre'.
  apply arp_in_packet; [|exact Hop].
  rewrite length_app, length_replicate, length_arp_packet. lia.
Qed.

(** X9.  [arp_in] records the sender of every valid ARP packet, request or
    reply, and a later [arp_out] to that address, made before the entry
    expires, sends the datagram at once in a frame to the recorded MAC
    address, with no ARP request and nothing queued. *)
Theorem arp_in_then_arp_out cfg (st : net_t) (rx out : buf_t) (src_mac : mac_t)
    (op : Z) (smac tmac : mac_t) (sip tip : ip_t) (pad : list byte) (t2 : Z) :
  buf_wf rx -> window rx = arp_packet op smac sip tmac tip ++ pad ->
  op = ARP_REQUEST \/ op = ARP_REPLY ->
  now st <= t2 <= now st + ARP_TIMEOUT_SEC cfg ->
  buf_wf out -> (14 <= data out)%nat -> (data out + 46 <= length (payload out))%nat ->
  let st1 := arp_in cfg st rx src_mac in
  let st2 := arp_out cfg (set_now st1 t2) (OwnBuf out) sip in
  map_get (ARP_TIMEOUT_SEC cfg) (arp_table st1) sip t2 = Some smac /\
  frames_sent (trace st2) =
    frames_sent (trace st1) ++
    [EvDriverSend (ether_frame smac (net_if_mac cfg) NET_PROTOCOL_IP (window out))] /\
  arp_buf st2 = arp_buf st1.
Proof.
  intros Hwf Hw Hop Ht Hout Hroom Htail st1 st2.
  destruct (buf_open_window rx Hwf) as (pre & post & E & Hlen).
  rewrite Hw in E, Hlen. rewrite <- (app_assoc _ pad post) in E.
  rewrite length_app, length_arp_packet in Hlen.
  assert (arp_table st1 = map_set (arp_table st) sip smac (now st) /\
          now st1 = now st) as (Htab & Hnow).
  { unfold st1. rewrite E, arp_in_packet
      by first [exact Hop | rewrite length_app, length_arp_packet; lia]. cbn zeta.
    destruct (map_get _ (arp_buf st) sip (now st)).
    - rewrite ethernet_out_eq. split; reflexivity.
    - destruct ((op =? ARP_REQUEST) && bool_decide (tip = net_if_ip cfg)).
      + pose proof (arp_resp_frame cfg
          (set_arp_table st (map_set (arp_table st) sip smac (now st))) sip smac)
          as (H1 & _ & H3).
        cbn zeta in H1, H3. rewrite H1, H3. split; reflexivity.
      + split; reflexivity. }
  assert (map_get (ARP_TIMEOUT_SEC cfg) (arp_table st1) sip t2 = Some smac) as Hget.
  { rewrite Htab. apply map_get_set_fresh. lia. }
  split; [exact Hget|].
  unfold st2, arp_out. cbn [set_now arp_table now]. rewrite Hget.
  rewrite ethernet_out_eq. cbn [trace arp_buf set_now deref].
  rewrite filter_driver_send_app, ethernet_frame_window by assumption.
  split; reflexivity.
Qed.

Lemma arp_in_then_arp_out_witness :
  let st := init_state small_cfg in
  let out := payload_buf small_cfg 64 20 x41 in
  let st1 := arp_in small_cfg st arp_reply_buf peer_mac in
  frames_sent (trace (arp_out small_cfg (set_now st1 30) (OwnBuf out) peer_ip))
  = frames_sent (trace st1) ++
    [EvDriverSend (ether_frame peer_mac (net_if_mac small_cfg) NET_PROTOCOL_IP
                     (replicate 20 x41))].
Proof.
  intros st out st1.
  destruct (arp_in_then_arp_out small_cfg st arp_reply_buf out peer_mac ARP_REPLY
              peer_mac (net_if_mac small_cfg) peer_ip (net_if_ip small_cfg)
              (replicate 18 x00) 30) as (_ & H & _);
    [unfold buf_wf; simpl; lia | reflexivity | right; reflexivity | simpl; lia
    | unfold buf_wf; simpl; lia | simpl; lia | simpl; lia |].
  exact H.
Defined.

(** X10.  With no datagram pending for the sender, [arp_in] answers a valid
    ARP packet with exactly one frame, an ARP reply sent to the sender's MAC
    address, when the packet is a request for the local address, and with
    no frame otherwise; the sender is recorded in both cases. *)
Theorem arp_in_reply cfg (st : net_t) (rx : buf_t) (src_mac : mac_t)
    (op : Z) (smac tmac : mac_t) (sip tip : ip_t) (pad : list byte) :
  buf_wf rx -> window rx = arp_packet op smac sip tmac tip ++ pad ->
  op = ARP_REQUEST \/ op = ARP_REPLY ->
  map_get (ARP_MIN_INTERVAL cfg) (arp_buf st) sip (now st) = None ->
  length (payload (txbuf st)) = BUF_MAX_LEN cfg -> (84 <= BUF_MAX_LEN cfg)%nat ->
  let st' := arp_in cfg st rx src_mac in
  frames_sent (trace st') =
    frames_sent (trace st) ++
    (if (op =? ARP_REQUEST) && bool_decide (tip = net_if_ip cfg)
     then [EvDriverSend (ether_frame smac (net_if_mac cfg) NET_PROTOCOL_ARP
                           (arp_packet ARP_REPLY (net_if_mac cfg) (net_if_ip cfg)
                              smac sip))]
     else []) /\
  arp_table st' = map_set (arp_table st) sip smac (now st) /\
  arp_buf st' = arp_buf st.
Proof.
  intros Hwf Hw Hop Hpend Htx Hcap st'.
  destruct (buf_open_window rx Hwf) as (pre & post & E & Hlen).
  rewrite Hw in E, Hlen. rewrite <- (app_assoc _ pad post) in E.
  rewrite length_app, length_arp_packet in Hlen.
  unfold st'. rewrite E, arp_in_packet
      by first [exact Hop | rewrite length_app, length_arp_packet; lia]. cbn zeta.
  rewrite Hpend.
  destruct ((op =? ARP_REQUEST) && bool_decide (tip = net_if_ip cfg)).
  - destruct (arp_resp_eq cfg
                (set_arp_table st (map_set (arp_table st) sip smac (now st))) sip smac)
      as (tx & _ & ->); [exact Htx|exact Hcap|].
    cbn [trace arp_table arp_buf set_arp_table].
    rewrite filter_driver_send_app. rewrite arp_reply_packet. repeat split.
  - cbn [trace arp_table arp_buf set_arp_table]. rewrite app_nil_r. repeat split.
Qed.

Lemma arp_in_reply_witness :
  let rx := Buf (arp_packet ARP_REQUEST peer_mac peer_ip zero_mac (net_if_ip small_cfg)
                 ++ replicate 18 x00) 0 46 in
  frames_sent (trace (arp_in small_cfg (init_state small_cfg) rx peer_mac))
  = [EvDriverSend (ether_frame peer_mac (net_if_mac small_cfg) NET_PROTOCOL_ARP
                     (arp_packet ARP_REPLY (net_if_mac small_cfg) (net_if_ip small_cfg)
                        peer_mac peer_ip))].
Proof.
  intros rx.
  destruct (arp_in_reply small_cfg (init_state small_cfg) rx peer_mac ARP_REQUEST
              peer_mac zero_mac peer_ip (net_if_ip small_cfg) (replicate 18 x00))
    as (H & _);
    [unfold buf_wf; simpl; lia | reflexivity | left; reflexivity | reflexivity
    | reflexivity | simpl; lia |].
  exact H.
Defined.


(** X11.  Address resolution between two hosts A and B running this code.  A
    has a datagram for B and knows no MAC address for it: [arp_out] sends a
    broadcast ARP request and keeps a copy of the datagram, also when the
    datagram is in the shared [txbuf] in which the request is then built.
    B, which holds no datagram pending for A's address, answers: its
    [ethernet_in] on that frame sends an ARP reply to A.  (With a datagram
    pending for A, [arp_in] would send that datagram and no reply.)  A's
    [ethernet_in] on the reply, before the kept datagram expires, sends the
    datagram in a frame to B's MAC address, records B's address and removes
    the kept datagram. *)
Theorem arp_resolution (cfgA cfgB : net_config) (stA stB : net_t)
    (r : buf_ref) (rxB rxA : buf_t) (t2 : Z) :
  let dgram := deref stA r in
  let ipA := net_if_ip cfgA in
  let macA := net_if_mac cfgA in
  let ipB := net_if_ip cfgB in
  let macB := net_if_mac cfgB in
  map_get (ARP_TIMEOUT_SEC cfgA) (arp_table stA) ipB (now stA) = None ->
  map_get (ARP_MIN_INTERVAL cfgA) (arp_buf stA) ipB (now stA) = None ->
  length (payload (txbuf stA)) = BUF_MAX_LEN cfgA -> (84 <= BUF_MAX_LEN cfgA)%nat ->
  NET_PROTOCOL_ARP ∈ net_protocols stA ->
  buf_wf dgram -> (14 <= data dgram)%nat ->
  (data dgram + 46 <= length (payload dgram))%nat ->
  now stA <= t2 <= now stA + ARP_MIN_INTERVAL cfgA ->
  NET_PROTOCOL_ARP ∈ net_protocols stB ->
  map_get (ARP_MIN_INTERVAL cfgB) (arp_buf stB) ipA (now stB) = None ->
  length (payload (txbuf stB)) = BUF_MAX_LEN cfgB -> (84 <= BUF_MAX_LEN cfgB)%nat ->
  let request :=
    ether_frame broadcast_mac macA NET_PROTOCOL_ARP
      (arp_packet ARP_REQUEST macA ipA zero_mac ipB) in
  let reply :=
    ether_frame macA macB NET_PROTOCOL_ARP
      (arp_packet ARP_REPLY macB ipB macA ipA) in
  buf_wf rxB -> window rxB = request ->
  buf_wf rxA -> window rxA = reply ->
  let stA1 := arp_out cfgA stA r ipB in
  let stB1 := (ethernet_in cfgB stB rxB).1 in
  let stA2 := (ethernet_in cfgA (set_now stA1 t2) rxA).1 in
  frames_sent (trace stA1) = frames_sent (trace stA) ++ [EvDriverSend request] /\
  frames_sent (trace stB1) = frames_sent (trace stB) ++ [EvDriverSend reply] /\
  frames_sent (trace stA2) =
    frames_sent (trace stA1) ++
    [EvDriverSend (ether_frame macB macA NET_PROTOCOL_IP (window dgram))] /\
  arp_table stA2 !! ipB = Some (macB, t2) /\
  arp_buf stA2 !! ipB = None.
Proof.
  intros dgram ipA macA ipB macB HmissA HpendA HtxA HcapA HregA Hwf Hroom Htail Ht
    HregB HpendB HtxB HcapB request reply HwfB HrxB HwfA HrxA stA1 stB1 stA2.
  (* A: the request goes out, the datagram is kept *)
  assert (exists tx,
    stA1 = Net (arp_table stA) (map_set (arp_buf stA) ipB dgram (now stA))
             (udp_table stA) (net_protocols stA) (ip_id stA) tx (now stA)
             (trace stA ++
              [EvEthernetOut (arp_request cfgA ipB) broadcast_mac NET_PROTOCOL_ARP;
               EvDriverSend request])) as (tx & EA1).
  { unfold stA1, arp_out. rewrite HmissA, HpendA.
    destruct (arp_req_eq cfgA
                (set_arp_buf stA (map_set (arp_buf stA) ipB (deref stA r) (now stA)))
                ipB HtxA HcapA) as (tx & ->).
    exists tx. reflexivity. }
  split.
  { rewrite EA1. cbn [trace]. rewrite filter_driver_send_app. reflexivity. }
  split.
  { (* B: the reply *)
    unfold stB1.
    rewrite (ethernet_in_arp cfgB stB rxB broadcast_mac macA ARP_REQUEST macA ipA
               zero_mac ipB HregB HwfB (or_introl eq_refl) HrxB).
    cbn zeta. rewrite HpendB.
    rewrite (bool_decide_eq_true_2 (ipB = net_if_ip cfgB) eq_refl).
    change ((ARP_REQUEST =? ARP_REQUEST) && true) with true. cbn match.
    destruct (arp_resp_eq cfgB
                (set_arp_table stB (map_set (arp_table stB) ipA macA (now stB)))
                ipA macA HtxB HcapB) as (tx' & _ & ->).
    cbn [trace set_arp_table]. rewrite filter_driver_send_app. reflexivity. }
  (* A: the reply arrives *)
  assert (map_get (ARP_MIN_INTERVAL cfgA) (arp_buf (set_now stA1 t2)) ipB
            (now (set_now stA1 t2)) = Some dgram) as Hkept.
  { rewrite EA1. cbn [set_now arp_buf now]. apply map_get_set_fresh. lia. }
  assert (NET_PROTOCOL_ARP ∈ net_protocols (set_now stA1 t2)) as HregA1.
  { rewrite EA1. exact HregA. }
  unfold stA2.
  rewrite (ethernet_in_arp cfgA (set_now stA1 t2) rxA macA macB ARP_REPLY macB ipB
             macA ipA HregA1 HwfA (or_intror eq_refl) HrxA).
  cbn zeta. rewrite Hkept. rewrite ethernet_out_eq.
  cbn [set_arp_buf trace arp_table arp_buf set_arp_table set_now deref now].
  rewrite filter_driver_send_app, ethernet_frame_window by assumption.
  repeat split.
  - unfold map_set. apply lookup_insert_eq.
  - unfold map_delete. apply lookup_delete_eq.
Qed.

Lemma arp_resolution_witness :
  let stA := set_txbuf (up_state small_cfg) (payload_buf small_cfg 64 20 x41) in
  let stA1 := arp_out small_cfg stA TxBuf peer_ip in
  let reply :=
    ether_frame (net_if_mac small_cfg) peer_mac NET_PROTOCOL_ARP
      (arp_packet ARP_REPLY peer_mac peer_ip (net_if_mac small_cfg)
         (net_if_ip small_cfg)) in
  frames_sent (trace (ethernet_in small_cfg (set_now stA1 1) (Buf reply 0 60)).1)
  = frames_sent (trace stA1) ++
    [EvDriverSend (ether_frame peer_mac (net_if_mac small_cfg) NET_PROTOCOL_IP
                     (replicate 20 x41))].
Proof.
  intros stA stA1 reply.
  pose (request :=
    ether_frame broadcast_mac (net_if_mac small_cfg) NET_PROTOCOL_ARP
      (arp_packet ARP_REQUEST (net_if_mac small_cfg) (net_if_ip small_cfg) zero_mac
         peer_ip)).
  destruct (arp_resolution small_cfg peer_cfg stA (up_state peer_cfg)
              TxBuf (Buf request 0 60) (Buf reply 0 60) 1) as (_ & _ & H & _);
    [ vm_compute; reflexivity | vm_compute; reflexivity | vm_compute; reflexivity
    | simpl; lia | vm_compute; reflexivity
    | unfold buf_wf; simpl; lia | simpl; lia | simpl; lia | simpl; lia
    | vm_compute; reflexivity | vm_compute; reflexivity | vm_compute; reflexivity
    | simpl; lia
    | unfold buf_wf; simpl; lia | reflexivity
    | unfold buf_wf; simpl; lia | reflexivity | ].
  exact H.
Defined.

(** X12.  [arp_init] empties the cache and the pending table, registers the
    ARP handler and announces the host with one broadcast ARP request for
    its own address; no pending entry is made for that request. *)
Theorem arp_init_announces cfg (st : net_t) :
  length (payload (txbuf st)) = BUF_MAX_LEN cfg -> (84 <= BUF_MAX_LEN cfg)%nat ->
  let st' := arp_init cfg st in
  frames_sent (trace st') =
    frames_sent (trace st) ++
    [EvDriverSend
       (ether_frame broadcast_mac (net_if_mac cfg) NET_PROTOCOL_ARP
          (arp_packet ARP_REQUEST (net_if_mac cfg) (net_if_ip cfg) zero_mac
             (net_if_ip cfg)))] /\
  arp_table st' = ∅ /\ arp_buf st' = ∅ /\
  NET_PROTOCOL_ARP ∈ net_protocols st'.
Proof.
  intros Htx Hcap st'. unfold st', arp_init.
  destruct (arp_req_eq cfg
              (net_add_protocol (set_arp_buf (set_arp_table st ∅) ∅) NET_PROTOCOL_ARP)
              (net_if_ip cfg) Htx Hcap) as (tx & ->).
  cbn [trace arp_table arp_buf net_protocols net_add_protocol set_net_protocols
       set_arp_buf set_arp_table].
  rewrite filter_driver_send_app. repeat split. set_solver.
Qed.

Lemma arp_init_announces_witness :
  arp_table (arp_init small_cfg (init_state small_cfg)) = ∅ /\
  NET_PROTOCOL_ARP ∈ net_protocols (arp_init small_cfg (init_state small_cfg)).
Proof.
  destruct (arp_init_announces small_cfg (init_state small_cfg))
    as (_ & H1 & _ & H2); [reflexivity | simpl; lia |].
  split; [exact H1 | exact H2].
Defined.


(** ** ip.c *)

(** The checks of [ip_in] look at the length of the buffer only to compare
    it with 20 and with the total length of the header: a buffer that passes
    them still does with bytes added behind the datagram. *)
Lemma ip_in_validate_len (mem : list byte) (d n0 n : nat) :
  (n0 <= n)%nat ->
  ip_in_validate (Buf mem d n0) = (Buf mem d n0, None) ->
  ip_in_validate (Buf mem d n) = (Buf mem d n, None).
Proof.
  intros Hn. unfold ip_in_validate, IP_MIN_HDR_LEN.
  cbn [len].
  destruct (Nat.ltb_spec n0 20); [discriminate|].
  destruct (Nat.ltb_spec n 20); [lia|].
  change (buf_u8 (Buf mem d n) 0) with (buf_u8 (Buf mem d n0) 0).
  destruct (negb (u8 (buf_u8 (Buf mem d n0) 0) / 16 =? IP_VERSION_4)); [discriminate|].
  destruct ((u8 (buf_u8 (Buf mem d n0) 0) mod 16 <? IP_HDR_LEN)
            || (15 <? u8 (buf_u8 (Buf mem d n0) 0) mod 16)); [discriminate|].
  change (buf_u16 (Buf mem d n) 2) with (buf_u16 (Buf mem d n0) 2).
  change (buf_u16 (Buf mem d n) 10) with (buf_u16 (Buf mem d n0) 10).
  set (hl := wrap16 _). set (total := swap16 _).
  destruct (Z.ltb_spec (Z.of_nat n0) total); [discriminate|].
  destruct (Z.ltb_spec (Z.of_nat n) total); [lia|].
  destruct (total <? hl); [discriminate|]. cbn [orb].
  unfold buf_store, buf_load. cbn [payload data len].
  destruct (negb _); [discriminate|].
  intros Hv. assert (E := f_equal (fun p => payload (fst p)) Hv).
  f_equal. f_equal. exact E.
Qed.

(** The fields [ip_in] reads from a buffer whose window starts with the
    header of [ip_fragment_out]. *)
Lemma ip_header_fields cfgA (pre rest : list byte) (n : nat) total id ff protocol
    (dst : ip_t) c :
  let buf := Buf (pre ++ ip_header cfgA total id ff protocol dst c ++ rest)
               (length pre) n in
  buf_u8 buf 0 = x45 /\ swap16 (buf_u16 buf 2) = total mod 65536 /\
  buf_u8 buf 9 = byte_of_Z protocol /\
  buf_ip buf 12 = net_if_ip cfgA /\ buf_ip buf 16 = dst.
Proof.
  intros buf. unfold buf, buf_u16, buf_ip.
  rewrite !buf_u8_mid by (rewrite ?length_ip_header; lia).
  unfold ip_header.
  destruct (net_if_ip cfgA) as [[[s0 s1] s2] s3]. destruct dst as [[[d0 d1] d2] d3].
  cbn [app be16 ip_bytes store16 lookup list_lookup default from_option Nat.add].
  unfold Datatypes.id. rewrite swap16_load16_be16. repeat split.
Qed.

(** [ip_in] on a buffer that holds a datagram with the header
    [ip_fragment_out] builds, addressed to this host, followed by [w] and
    then by anything: the datagram passes the checks, what follows it is cut
    off, the header is stripped and [w] goes to the dispatcher. *)
Lemma ip_in_open cfgA cfg st (pre w post : list byte) (n : nat) id ff protocol
    (src_mac : mac_t) :
  Z.of_nat (length w + 20) < 65536 -> (length w + 20 <= n)%nat ->
  0 <= protocol < 256 ->
  let total := Z.of_nat (length w + 20) in
  let hdr := ip_header cfgA total id ff protocol (net_if_ip cfg)
               (checksum16 (ip_header cfgA total id ff protocol (net_if_ip cfg) 0)) in
  let mem := pre ++ hdr ++ w ++ post in
  ip_in cfg st (Buf mem (length pre) n) src_mac
  = let '(st', buf', ret) :=
      net_in cfg st (Buf mem (length pre + 20) (length w)) protocol (net_if_ip cfgA) in
    if ret =? -1 then
      (icmp_unreachable cfg st' (buf_add_header buf' 20) (net_if_ip cfgA)
         ICMP_CODE_PROTOCOL_UNREACH,
       buf_add_header buf' 20, IpUnreachable)
    else (st', buf', IpDelivered).
Proof.
  intros Hlen Hn Hp total hdr mem.
  assert (ip_in_validate (Buf mem (length pre) n) = (Buf mem (length pre) n, None)) as Hv.
  { apply (ip_in_validate_len mem (length pre) (length w + 20) n Hn).
    apply ip_in_validate_built. rewrite Z.mod_small; lia. }
  unfold ip_in. rewrite Hv. unfold ip_in_deliver.
  destruct (ip_header_fields cfgA pre (w ++ post) n total id ff protocol (net_if_ip cfg)
              (checksum16 (ip_header cfgA total id ff protocol (net_if_ip cfg) 0)))
    as (F0 & F2 & F9 & F12 & F16).
  fold hdr in F0, F2, F9, F12, F16. fold mem in F0, F2, F9, F12, F16.
  rewrite F0, F2, F9, F12, F16.
  rewrite (bool_decide_eq_true_2 _ eq_refl). cbn [negb].
  change (u8 x45 mod 16) with 5.
  change (Z.to_nat (wrap16 (5 * IP_HDR_LEN_PER_BYTE))) with 20%nat.
  rewrite u8_byte_of_Z.
  rewrite (Z.mod_small total) by (unfold total; lia).
  rewrite (Z.mod_small protocol) by lia.
  assert ((if total <? Z.of_nat (len (Buf mem (length pre) n))
           then buf_remove_padding (Buf mem (length pre) n)
                  (len (Buf mem (length pre) n) - Z.to_nat total)
           else Buf mem (length pre) n)
          = Buf mem (length pre) (length w + 20)) as ->.
  { cbn [len]. unfold total. destruct (Z.ltb_spec (Z.of_nat (length w + 20)) (Z.of_nat n)).
    - unfold buf_remove_padding. cbn [payload data len].
      destruct (Nat.leb_spec (n - Z.to_nat (Z.of_nat (length w + 20))) n); [|lia].
      f_equal. lia.
    - f_equal. lia. }
  unfold buf_remove_header at 1. cbn [payload data len].
  destruct (Nat.leb_spec 20 (length w + 20)); [|lia].
  replace (length w + 20 - 20)%nat with (length w) by lia.
  reflexivity.
Qed.

(** [ip_fragment_out] to an address the ARP cache holds: the datagram goes
    to the driver in a frame. *)
Lemma ip_fragment_out_cached cfg st (r : buf_ref) ip protocol id offset mf mac :
  map_get (ARP_TIMEOUT_SEC cfg) (arp_table st) ip (now st) = Some mac ->
  let buf := deref st r in
  buf_wf buf -> (34 <= data buf)%nat -> (data buf + 26 <= length (payload buf))%nat ->
  let dgram :=
    ip_header cfg (Z.of_nat (len buf + 20)) id (ip_flags_fragment cfg offset mf)
      protocol ip
      (checksum16 (ip_header cfg (Z.of_nat (len buf + 20)) id
                     (ip_flags_fragment cfg offset mf) protocol ip 0))
    ++ window buf in
  let st' := ip_fragment_out cfg st r ip protocol id offset mf in
  trace st' = trace st ++
    [EvIpFragmentOut (window buf) ip protocol id offset mf;
     EvEthernetOut dgram mac NET_PROTOCOL_IP;
     EvDriverSend (ether_frame mac (net_if_mac cfg) NET_PROTOCOL_IP dgram)] /\
  arp_table st' = arp_table st /\ arp_buf st' = arp_buf st /\
  ip_id st' = ip_id st /\ now st' = now st /\ udp_table st' = udp_table st /\
  net_protocols st' = net_protocols st.
Proof.
  intros Hget buf Hwf Hroom Htail dgram st'.
  destruct (buf_open buf 20 ltac:(lia) Hwf) as (pre & hd & w & post & E & Hhd & Hw).
  assert (length pre + 20 = data buf)%nat as Hd by (rewrite E; reflexivity).
  assert (len buf = length w) as Hl by (rewrite E; reflexivity).
  assert (length (payload buf) = length pre + 20 + length w + length post)%nat as Hm.
  { rewrite E. cbn [payload]. rewrite !length_app. lia. }
  set (hdr := ip_header cfg (Z.of_nat (length w + 20)) id
                (ip_flags_fragment cfg offset mf) protocol ip
                (checksum16 (ip_header cfg (Z.of_nat (length w + 20)) id
                               (ip_flags_fragment cfg offset mf) protocol ip 0))).
  assert (length hdr = 20%nat) as Hhdr by apply length_ip_header.
  set (built := Buf (pre ++ hdr ++ w ++ post) (length pre) (length w + 20)).
  assert (ip_fragment_hdr cfg buf ip protocol id offset mf = built) as Eb.
  { rewrite E. apply ip_fragment_hdr_eq. exact Hhd. }
  assert (window built = dgram) as Ew.
  { unfold built, dgram. rewrite (app_assoc hdr w post).
    rewrite window_mid by (rewrite ?length_app; lia).
    rewrite Hl, Hw. reflexivity. }
  assert (window (ethernet_frame cfg built mac NET_PROTOCOL_IP)
          = ether_frame mac (net_if_mac cfg) NET_PROTOCOL_IP dgram) as Ef.
  { rewrite <- Ew. apply ethernet_frame_window.
    - unfold buf_wf, built. cbn [payload data len]. rewrite !length_app. lia.
    - unfold built. cbn [data]. lia.
    - unfold built. cbn [payload data]. rewrite !length_app. lia. }
  unfold st', ip_fragment_out.
  assert (deref (log st (EvIpFragmentOut (window (deref st r)) ip protocol id offset mf)) r
          = buf) as -> by (destruct r; reflexivity).
  fold buf. rewrite Eb.
  destruct r as [|own]; cbn [assign].
  - unfold arp_out. cbn [set_txbuf log arp_table now]. rewrite Hget.
    rewrite ethernet_out_eq.
    cbn [trace arp_table arp_buf ip_id now udp_table net_protocols deref txbuf
         set_txbuf log].
    rewrite Ew, Ef, <- app_assoc. repeat split.
  - unfold arp_out. cbn [log arp_table now]. rewrite Hget.
    rewrite ethernet_out_eq.
    cbn [trace arp_table arp_buf ip_id now udp_table net_protocols deref txbuf
         set_txbuf log].
    rewrite Ew, Ef, <- app_assoc. repeat split.
Qed.

Lemma ip_out_small_eq cfg st r ip protocol :
  (len (deref st r) <= max_payload cfg)%nat ->
  ip_out cfg st r ip protocol
  = ip_fragment_out cfg
      (set_ip_id (log st (EvIpOut (window (deref st r)) ip protocol))
         (wrap16 (ip_id st + 1)))
      r ip protocol (ip_id st) 0 0.
Proof.
  intros Hlen. unfold ip_out.
  assert (deref (log st (EvIpOut (window (deref st r)) ip protocol)) r = deref st r) as ->
    by (destruct r; reflexivity).
  destruct (Nat.ltb_spec (max_payload cfg) (len (deref st r))); [lia|]. reflexivity.
Qed.

(** X13.  A payload of at most [IP_MAX_PAYLOAD] bytes, the threshold
    included, is not fragmented: [ip_out] to an address the ARP cache holds
    sends one frame with one datagram, whose header carries the length of
    header and payload, the current value of the id counter, no flags and
    offset 0; the counter goes up by one modulo 65536. *)
Theorem ip_out_datagram cfg (st : net_t) (r : buf_ref) (ip : ip_t) (protocol : Z)
    (mac : mac_t) :
  let buf := deref st r in
  (len buf <= max_payload cfg)%nat ->
  map_get (ARP_TIMEOUT_SEC cfg) (arp_table st) ip (now st) = Some mac ->
  buf_wf buf -> (34 <= data buf)%nat -> (data buf + 26 <= length (payload buf))%nat ->
  let total := Z.of_nat (len buf + 20) in
  let dgram :=
    ip_header cfg total (ip_id st) 0 protocol ip
      (checksum16 (ip_header cfg total (ip_id st) 0 protocol ip 0))
    ++ window buf in
  let st' := ip_out cfg st r ip protocol in
  frames_sent (trace st') =
    frames_sent (trace st) ++
    [EvDriverSend (ether_frame mac (net_if_mac cfg) NET_PROTOCOL_IP dgram)] /\
  fragment_calls (trace st') =
    fragment_calls (trace st) ++
    [EvIpFragmentOut (window buf) ip protocol (ip_id st) 0 0] /\
  ip_id st' = wrap16 (ip_id st + 1).
Proof.
  intros buf Hlen Hget Hwf Hroom Htail total dgram st'.
  unfold st'. rewrite ip_out_small_eq by exact Hlen.
  set (st0 := set_ip_id (log st (EvIpOut (window (deref st r)) ip protocol))
                (wrap16 (ip_id st + 1))).
  assert (deref st0 r = buf) as Ed by (destruct r; reflexivity).
  destruct (ip_fragment_out_cached cfg st0 r ip protocol (ip_id st) 0 0 mac)
    as (Htr & _ & _ & Hid & _); try (rewrite Ed; assumption); [exact Hget|].
  rewrite Ed in Htr. rewrite Htr, Hid.
  change (ip_flags_fragment cfg 0 0) with 0.
  unfold st0. cbn [trace set_ip_id log ip_id].
  rewrite !filter_driver_send_app, !fragment_calls_app. cbn.
  rewrite !app_nil_r. repeat split.
Qed.

Lemma ip_out_datagram_witness :
  let st := set_arp_table (init_state small_cfg)
              (map_set ∅ peer_ip peer_mac 0) in
  ip_id (ip_out small_cfg st (OwnBuf (payload_buf small_cfg 64 8 x41)) peer_ip
           NET_PROTOCOL_UDP) = 1.
Proof.
  intros st.
  destruct (ip_out_datagram small_cfg st (OwnBuf (payload_buf small_cfg 64 8 x41))
              peer_ip NET_PROTOCOL_UDP peer_mac) as (_ & _ & H);
    [ vm_compute; lia | vm_compute; reflexivity | unfold buf_wf; simpl; lia
    | simpl; lia | simpl; lia | ].
  exact H.
Defined.

(** The dispatcher reports 0 for every registered protocol. *)
Lemma net_in_registered cfg st buf protocol src_ip :
  protocol ∈ net_protocols st -> (net_in cfg st buf protocol src_ip).2 = 0.
Proof.
  intros Hreg. unfold net_in. rewrite (bool_decide_eq_true_2 _ Hreg).
  destruct (protocol =? NET_PROTOCOL_ICMP); [reflexivity|].
  destruct (protocol =? NET_PROTOCOL_UDP); [|reflexivity].
  destruct (udp_in cfg st buf src_ip) as [[? ?] ?]. reflexivity.
Qed.

(** X14.  [ip_in] does not forward: a datagram whose destination is not the
    local address leaves the state as it was, whatever else the datagram
    holds; nothing is delivered and no ICMP message is sent. *)
Theorem ip_in_not_local cfg (st : net_t) (buf : buf_t) (src_mac : mac_t) :
  buf_wf buf -> buf_ip buf 16 <> net_if_ip cfg ->
  (ip_in cfg st buf src_mac).1.1 = st /\
  (ip_in cfg st buf src_mac).2 <> IpDelivered /\
  (ip_in cfg st buf src_mac).2 <> IpUnreachable.
Proof.
  intros Hwf Hdst. unfold ip_in, ip_in_validate, IP_MIN_HDR_LEN.
  destruct (Nat.ltb_spec (len buf) 20); [repeat split; discriminate|].
  destruct (negb _); [repeat split; discriminate|].
  destruct (_ || _); [repeat split; discriminate|].
  destruct (_ || _); [repeat split; discriminate|].
  destruct (negb _); [repeat split; discriminate|].
  rewrite store_restore16 by (unfold buf_wf in Hwf; lia).
  unfold ip_in_deliver. rewrite (bool_decide_eq_false_2 _ Hdst). cbn [negb].
  repeat split; discriminate.
Qed.

Lemma ip_in_not_local_witness :
  let buf := Buf (payload (rx_buf sample_ip_hdr sample_udp_seg)) 44 30 in
  (ip_in peer_cfg (init_state peer_cfg) buf peer_mac).1.1 = init_state peer_cfg /\
  (ip_in peer_cfg (init_state peer_cfg) buf peer_mac).2 <> IpDelivered /\
  (ip_in peer_cfg (init_state peer_cfg) buf peer_mac).2 <> IpUnreachable.
Proof.
  intros buf. apply (ip_in_not_local peer_cfg (init_state peer_cfg) buf peer_mac).
  - unfold buf_wf. simpl. lia.
  - vm_compute. congruence.
Defined.

(** X15.  [ip_in] on a datagram with the header [ip_fragment_out] builds,
    addressed to this host and of a registered protocol, followed by any
    bytes (the padding of a short frame): the bytes behind the declared
    total length are cut off, the 20-byte header is stripped and the
    protocol's handler gets exactly the payload, with the source address of
    the header.  This holds whatever the flags and the fragment offset of
    the header are: [ip_in] does not reassemble, every fragment is handed up
    as it comes. *)
Theorem ip_in_delivers cfgA cfg (st : net_t) (rx : buf_t) (src_mac : mac_t)
    (w pad : list byte) (id ff protocol : Z) :
  let total := Z.of_nat (length w + 20) in
  let hdr := ip_header cfgA total id ff protocol (net_if_ip cfg)
               (checksum16 (ip_header cfgA total id ff protocol (net_if_ip cfg) 0)) in
  buf_wf rx -> window rx = hdr ++ w ++ pad ->
  total < 65536 -> 0 <= protocol < 256 -> protocol ∈ net_protocols st ->
  let up := Buf (payload rx) (data rx + 20) (length w) in
  window up = w /\
  ip_in cfg st rx src_mac
  = (let '(st', buf', _) := net_in cfg st up protocol (net_if_ip cfgA) in
     (st', buf', IpDelivered)).
Proof.
  intros total hdr Hwf Hw Htot Hp Hreg up.
  destruct (buf_open_window rx Hwf) as (pre & post & E & Hlen).
  rewrite Hw in E, Hlen. rewrite <- !app_assoc in E.
  assert (length hdr = 20%nat) as Hhdr by apply length_ip_header.
  rewrite !length_app, Hhdr in Hlen.
  assert (up = Buf (pre ++ hdr ++ w ++ pad ++ post) (length pre + 20) (length w)) as Eup.
  { unfold up. rewrite E. reflexivity. }
  split.
  - rewrite Eup. rewrite (app_assoc pre hdr).
    apply window_mid; [rewrite length_app; lia|reflexivity].
  - rewrite Eup. rewrite E at 1.
    rewrite !length_app, Hhdr.
    pose proof (ip_in_open cfgA cfg st pre w (pad ++ post)
                  (20 + (length w + length pad)) id ff protocol src_mac
                  Htot ltac:(lia) Hp) as Hin.
    cbn zeta in Hin. fold total in Hin. fold hdr in Hin. rewrite Hin.
    pose proof (net_in_registered cfg st
                  (Buf (pre ++ hdr ++ w ++ pad ++ post) (length pre + 20) (length w))
                  protocol (net_if_ip cfgA) Hreg) as Hret.
    destruct (net_in cfg st _ protocol (net_if_ip cfgA)) as [[st' buf'] ret].
    cbn [snd] in Hret. rewrite Hret. reflexivity.
Qed.

Lemma ip_in_delivers_witness :
  let hdr := ip_header peer_cfg 30 0 0 NET_PROTOCOL_UDP (net_if_ip small_cfg)
               (checksum16 (ip_header peer_cfg 30 0 0 NET_PROTOCOL_UDP
                              (net_if_ip small_cfg) 0)) in
  let rx := Buf (hdr ++ sample_udp_seg ++ replicate 16 x00) 0 46 in
  window (Buf (payload rx) 20 10) = sample_udp_seg.
Proof.
  intros hdr rx.
  destruct (ip_in_delivers peer_cfg small_cfg (init_state small_cfg) rx peer_mac
              sample_udp_seg (replicate 16 x00) 0 0 NET_PROTOCOL_UDP) as (H & _);
    [ unfold buf_wf; simpl; lia | reflexivity | simpl; lia
    | unfold NET_PROTOCOL_UDP; lia | vm_compute; reflexivity | ].
  exact H.
Defined.


(** ** A header with options *)

(** The message of [icmp_unreachable] for a received datagram whose header
    [iph] has any length its length field can declare. *)
Lemma icmp_unreachable_calls_opts cfg (st : net_t) (pre iph rest : list byte)
    (tn h : nat) (src_ip : ip_t) (code : Z) :
  length iph = (4 * h)%nat -> (1 <= h <= 15)%nat -> (8 <= length rest)%nat ->
  u8 (default x00 (iph !! 0%nat)) mod 16 = Z.of_nat h ->
  Z.of_nat tn < 2 ^ 64 ->
  length (payload (txbuf st)) = BUF_MAX_LEN cfg -> (16 + 4 * h <= BUF_MAX_LEN cfg / 2)%nat ->
  ip_out_calls (trace (icmp_unreachable cfg st
                         (Buf (pre ++ iph ++ rest) (length pre) (tn + 4 * h)) src_ip code))
  = ip_out_calls (trace st) ++
    [EvIpOut (icmp_unreach_msg code (iph ++ first8 (take tn rest))) src_ip
       NET_PROTOCOL_ICMP].
Proof.
  intros Hiph Hh Hrest Hihl Htn Htx Hcap.
  unfold icmp_unreachable. rewrite ip_out_calls_ip_out.
  cbn [deref txbuf set_txbuf trace len]. do 3 f_equal.
  rewrite buf_u8_pre.
  assert (default x00 ((iph ++ rest) !! 0%nat) = default x00 (iph !! 0%nat)) as ->.
  { destruct iph; [cbn [length] in Hiph; lia|reflexivity]. }
  rewrite Hihl.
  replace (Z.to_nat (Z.of_nat h * IP_HDR_LEN_PER_BYTE)) with (4 * h)%nat
    by (unfold IP_HDR_LEN_PER_BYTE; lia).
  replace ((Z.of_nat (tn + 4 * h) - Z.of_nat (4 * h)) mod 2 ^ 64) with (Z.of_nat tn)
    by (rewrite Z.mod_small; lia).
  rewrite !buf_load_pre.
  set (pcl := Z.to_nat (if 8 <=? Z.of_nat tn then 8 else Z.of_nat tn)).
  assert (pcl = Nat.min 8 tn) as Hpcl.
  { unfold pcl. destruct (Z.leb_spec 8 (Z.of_nat tn)); lia. }
  clearbody pcl.
  set (hl := (4 * h)%nat) in *.
  assert (take hl (drop 0 (iph ++ rest)) = iph) as ->.
  { cbn [drop]. apply take_app_length'. lia. }
  assert (take pcl (drop hl (iph ++ rest)) = take pcl rest) as ->.
  { rewrite drop_app_length' by lia. reflexivity. }
  destruct (buf_init_open (BUF_MAX_LEN cfg) (txbuf st) (8 + (hl + 8)) Htx ltac:(lia))
    as (tpre & old & tpost & -> & Htpre & Hold & Htpost).
  destruct (split3 old 8 hl ltac:(lia)) as (o8 & oh & ot & -> & Ho8 & Hoh).
  rewrite !length_app in Hold.
  assert (length ot = 8%nat) as Hot by lia.
  destruct (split3 ot 0 pcl ltac:(lia)) as (nil & oa & ob & -> & Hnil & Hoa).
  destruct nil; [|discriminate]. cbn [app] in *. rewrite length_app in Hot.
  set (p := take pcl rest).
  assert (length p = pcl) as Hp by (unfold p; rewrite length_take; lia).
  set (zs := replicate (8 - pcl) x00).
  (* the data section *)
  assert (p ++ zs = first8 (take tn rest)) as Hdata.
  { unfold p, zs, first8. subst pcl.
    destruct (Nat.le_gt_cases 8 tn) as [Hge|Hlt].
    - rewrite Nat.min_l by lia. replace (8 - 8)%nat with 0%nat by lia.
      cbn [replicate]. rewrite app_nil_r.
      rewrite take_app_le by (rewrite length_take; lia).
      rewrite take_take. f_equal. lia.
    - rewrite Nat.min_r by lia.
      rewrite take_app, length_take, take_take, take_replicate.
      f_equal; f_equal; lia. }
  (* the stores *)
  explode_list o8 Ho8.
  set (mem0 := tpre ++ _ ++ tpost).
  set (h8 := [byte_of_Z ICMP_TYPE_UNREACH; byte_of_Z code; x00; x00; x00; x00; x00; x00]).
  assert (
    (let buf := Buf mem0 (length tpre) (8 + (hl + 8)) in
     let buf := buf_store buf 0 [byte_of_Z ICMP_TYPE_UNREACH] in
     let buf := buf_store buf 1 [byte_of_Z code] in
     let buf := buf_store buf 2 (store16 0) in
     let buf := buf_store buf 4 (store16 0) in
     let buf := buf_store buf 6 (store16 0) in
     let buf := buf_store buf 8 iph in
     let buf := buf_store buf (8 + hl) p in
     if (pcl <? 8)%nat then buf_store buf (8 + hl + pcl) zs else buf)
    = Buf (tpre ++ (h8 ++ iph ++ p ++ zs) ++ tpost) (length tpre) (8 + (hl + 8)))
    as Hbuf.
  { cbn zeta. unfold mem0.
    assert (Hins : forall (T : list byte),
      list_inserts 6 (store16 0) (list_inserts 4 (store16 0) (list_inserts 2 (store16 0)
        (list_inserts 1 [byte_of_Z code] (list_inserts 0 [byte_of_Z ICMP_TYPE_UNREACH]
          ([b; b0; b1; b2; b3; b4; b5; b6] ++ T))))) = h8 ++ T) by (intros; reflexivity).
    repeat (first [ rewrite buf_store_mid
                      by (rewrite ?length_inserts, ?length_app, ?length_store16;
                          cbn [length]; lia)
                  | progress cbn [payload data len] ]).
    rewrite Hins.
    assert (list_inserts 8 iph (h8 ++ oh ++ oa ++ ob) = h8 ++ iph ++ oa ++ ob) as E1.
    { apply inserts_middle; [reflexivity|lia]. }
    assert (list_inserts (8 + hl) p (h8 ++ iph ++ oa ++ ob) = h8 ++ iph ++ p ++ ob) as E2.
    { rewrite (app_assoc h8 iph). rewrite inserts_middle
        by (rewrite ?length_app; cbn [length h8]; lia).
      rewrite <- app_assoc. reflexivity. }
    rewrite E1, E2.
    destruct (Nat.ltb_spec pcl 8) as [Hlt|Hge].
    - rewrite buf_store_mid
        by (rewrite ?length_app; unfold zs; rewrite ?length_replicate;
            cbn [length h8]; lia).
      assert (list_inserts (8 + hl + pcl) zs (h8 ++ iph ++ p ++ ob)
              = h8 ++ iph ++ p ++ zs) as E3.
      { rewrite (app_assoc h8 iph), (app_assoc (h8 ++ iph) p).
        rewrite <- (app_nil_r ob) at 1.
        rewrite inserts_middle
          by (rewrite ?length_app; unfold zs; rewrite ?length_replicate;
              cbn [length h8]; lia).
        rewrite app_nil_r, <- !app_assoc. reflexivity. }
      rewrite E3. reflexivity.
    - assert (zs = []) as Ez by (unfold zs; replace (8 - pcl)%nat with 0%nat by lia;
                                 reflexivity).
      assert (ob = []) as Eb by (destruct ob; [reflexivity|cbn [length] in Hot; lia]).
      rewrite Ez, Eb. reflexivity. }
  cbn zeta in Hbuf. rewrite Hbuf.
  assert (length (h8 ++ iph ++ p ++ zs) = (8 + (hl + 8))%nat) as Hlw.
  { rewrite !length_app. unfold zs. rewrite length_replicate. cbn [length h8]. lia. }
  rewrite window_mid by (reflexivity || lia).
  rewrite buf_store_mid by (rewrite ?length_store16; lia || reflexivity).
  rewrite window_mid by (rewrite ?length_inserts; reflexivity || lia).
  unfold icmp_unreach_msg. rewrite <- Hdata. reflexivity.
Qed.

Lemma length_ip_header_opts h tos total id ff ttl protocol src dst opts c :
  length (ip_header_opts h tos total id ff ttl protocol src dst opts c)
  = (20 + length opts)%nat.
Proof.
  unfold ip_header_opts. destruct src as [[[s0 s1] s2] s3], dst as [[[d0 d1] d2] d3].
  cbn [app be16 store16 ip_bytes length]. lia.
Qed.

Lemma ip_header_opts_fields (pre rest : list byte) (n : nat) h tos total id ff ttl
    protocol src dst opts c :
  let buf := Buf (pre ++ ip_header_opts h tos total id ff ttl protocol src dst opts c
                  ++ rest) (length pre) n in
  buf_u8 buf 0 = byte_of_Z (64 + Z.of_nat h) /\
  swap16 (buf_u16 buf 2) = total mod 65536 /\
  buf_u8 buf 9 = byte_of_Z protocol /\
  buf_u16 buf 10 = c mod 65536 /\
  buf_ip buf 12 = src /\ buf_ip buf 16 = dst.
Proof.
  intros buf. unfold buf, buf_u16, buf_ip.
  rewrite !buf_u8_pre.
  unfold ip_header_opts.
  destruct src as [[[s0 s1] s2] s3], dst as [[[d0 d1] d2] d3].
  cbn [app be16 ip_bytes store16 lookup list_lookup default from_option Nat.add].
  unfold Datatypes.id. rewrite swap16_load16_be16.
  repeat split. apply (load16_store16_val c). reflexivity.
Qed.

Lemma ip_header_opts_set_checksum h tos total id ff ttl protocol src dst opts c v
    (rest : list byte) :
  list_inserts 10 (store16 v)
    (ip_header_opts h tos total id ff ttl protocol src dst opts c ++ rest)
  = ip_header_opts h tos total id ff ttl protocol src dst opts v ++ rest.
Proof. reflexivity. Qed.

(** [ip_in] on a datagram for this host whose header has options. *)
Lemma ip_in_opts_open cfg st (pre w post : list byte) (n h : nat) tos id ff ttl
    protocol (src : ip_t) (opts : list byte) (src_mac : mac_t) :
  (5 <= h <= 15)%nat -> length opts = (4 * (h - 5))%nat ->
  Z.of_nat (4 * h + length w) < 65536 -> (4 * h + length w <= n)%nat ->
  0 <= protocol < 256 ->
  let total := Z.of_nat (4 * h + length w) in
  let hdr c := ip_header_opts h tos total id ff ttl protocol src (net_if_ip cfg) opts c in
  let mem := pre ++ hdr (checksum16 (hdr 0)) ++ w ++ post in
  ip_in cfg st (Buf mem (length pre) n) src_mac
  = let '(st', buf', ret) :=
      net_in cfg st (Buf mem (length pre + 4 * h) (length w)) protocol src in
    if ret =? -1 then
      (icmp_unreachable cfg st' (buf_add_header buf' (4 * h)) src
         ICMP_CODE_PROTOCOL_UNREACH,
       buf_add_header buf' (4 * h), IpUnreachable)
    else (st', buf', IpDelivered).
Proof.
  intros Hh Hopts Htot Hn Hp total hdr mem.
  assert (exists c, c = checksum16 (hdr 0) /\ 0 <= c <= 65535) as (c & Ec & Hc)
    by (eexists; split; [reflexivity|apply checksum16_range]).
  unfold mem. rewrite <- Ec. clear mem.
  assert (forall v, length (hdr v) = (4 * h)%nat) as Hlh.
  { intros v. unfold hdr. rewrite length_ip_header_opts. lia. }
  set (B := Buf (pre ++ hdr c ++ w ++ post) (length pre) n).
  destruct (ip_header_opts_fields pre (w ++ post) n h tos total id ff ttl protocol src
              (net_if_ip cfg) opts c) as (F0 & F2 & F9 & F10 & F12 & F16).
  fold (hdr c) in F0, F2, F9, F10, F12, F16. fold B in F0, F2, F9, F10, F12, F16.
  rewrite Z.mod_small in F2 by (unfold total; lia).
  rewrite Z.mod_small in F10 by lia.
  assert (u8 (byte_of_Z (64 + Z.of_nat h)) = 64 + Z.of_nat h) as Hb0.
  { rewrite u8_byte_of_Z. apply Z.mod_small. lia. }
  assert ((64 + Z.of_nat h) / 16 = 4) as Hver.
  { symmetry. apply Z.div_unique with (r := Z.of_nat h); lia. }
  assert ((64 + Z.of_nat h) mod 16 = Z.of_nat h) as Hihl.
  { symmetry. apply Z.mod_unique with (q := 4); lia. }
  assert (wrap16 (Z.of_nat h * IP_HDR_LEN_PER_BYTE) = Z.of_nat (4 * h)) as Hhl.
  { unfold wrap16, IP_HDR_LEN_PER_BYTE. rewrite Z.mod_small; lia. }
  (* the checks *)
  assert (ip_in_validate B = (B, None)) as Hv.
  { unfold ip_in_validate, IP_MIN_HDR_LEN.
    assert (len B = n) as -> by reflexivity.
    destruct (Nat.ltb_spec n 20); [lia|].
    rewrite F0, Hb0, Hver, Hihl, F2, F10, Hhl.
    change (4 =? IP_VERSION_4) with true. cbn [negb].
    unfold IP_HDR_LEN.
    destruct (Z.ltb_spec (Z.of_nat h) 5); [lia|].
    destruct (Z.ltb_spec 15 (Z.of_nat h)); [lia|]. cbn [orb].
    destruct (Z.ltb_spec (Z.of_nat n) total); [unfold total in *; lia|].
    destruct (Z.ltb_spec total (Z.of_nat (4 * h))); [unfold total in *; lia|].
    cbn [orb]. rewrite Nat2Z.id.
    assert (buf_store B 10 (store16 0)
            = Buf (pre ++ hdr 0 ++ w ++ post) (length pre) n) as ->.
    { unfold B. rewrite (app_assoc (hdr c)).
      rewrite buf_store_mid by (rewrite ?length_app, ?Hlh, ?length_store16; lia).
      unfold hdr. rewrite ip_header_opts_set_checksum, <- app_assoc. reflexivity. }
    rewrite buf_load_pre, drop_0.
    rewrite take_app_length' by (rewrite Hlh; reflexivity).
    rewrite <- Ec, Z.eqb_refl. cbn [negb].
    rewrite (app_assoc (hdr 0)).
    rewrite buf_store_mid by (rewrite ?length_app, ?Hlh, ?length_store16; lia).
    unfold B, hdr. rewrite ip_header_opts_set_checksum, <- app_assoc. reflexivity. }
  unfold ip_in. rewrite Hv. unfold ip_in_deliver.
  rewrite F0, Hb0, Hihl, F2, F9, F12, F16, Hhl, Nat2Z.id.
  rewrite (bool_decide_eq_true_2 _ eq_refl). cbn [negb].
  rewrite u8_byte_of_Z, (Z.mod_small protocol) by lia.
  assert ((if total <? Z.of_nat (len B)
           then buf_remove_padding B (len B - Z.to_nat total) else B)
          = Buf (pre ++ hdr c ++ w ++ post) (length pre) (4 * h + length w)) as ->.
  { unfold B. cbn [len]. unfold total.
    destruct (Z.ltb_spec (Z.of_nat (4 * h + length w)) (Z.of_nat n)).
    - unfold buf_remove_padding. cbn [payload data len].
      destruct (Nat.leb_spec (n - Z.to_nat (Z.of_nat (4 * h + length w))) n); [|lia].
      f_equal. lia.
    - f_equal. lia. }
  unfold buf_remove_header at 1. cbn [payload data len].
  destruct (Nat.leb_spec (4 * h) (4 * h + length w)); [|lia].
  replace (4 * h + length w - 4 * h)%nat with (length w) by lia.
  reflexivity.
Qed.

(** X16.  [ip_in] takes the length of the header from the header: a valid
    datagram for this host whose header has options (6 to 15 words, or none
    with 5) and whose protocol is not registered is answered with one ICMP
    protocol-unreachable message to its source, whose data section is the
    whole header, options included, followed by the first eight bytes of the
    payload (zero bytes standing in for those a shorter payload lacks). *)
Theorem ip_in_options_unreachable cfg (st : net_t) (rx : buf_t) (src_mac : mac_t)
    (h : nat) (tos id ff ttl protocol : Z) (src : ip_t) (opts w pad : list byte) :
  let total := Z.of_nat (4 * h + length w) in
  let hdr c := ip_header_opts h tos total id ff ttl protocol src (net_if_ip cfg) opts c in
  let iph := hdr (checksum16 (hdr 0)) in
  (5 <= h <= 15)%nat -> length opts = (4 * (h - 5))%nat ->
  buf_wf rx -> window rx = iph ++ w ++ pad ->
  total < 65536 -> 0 <= protocol < 256 -> protocol ∉ net_protocols st ->
  (data rx + 4 * h + 8 <= length (payload rx))%nat ->
  length (payload (txbuf st)) = BUF_MAX_LEN cfg ->
  (16 + 4 * h <= BUF_MAX_LEN cfg / 2)%nat ->
  (ip_in cfg st rx src_mac).2 = IpUnreachable /\
  ip_out_calls (trace (ip_in cfg st rx src_mac).1.1) =
    ip_out_calls (trace st) ++
    [EvIpOut (icmp_unreach_msg ICMP_CODE_PROTOCOL_UNREACH (iph ++ first8 w)) src
       NET_PROTOCOL_ICMP] /\
  length iph = (4 * h)%nat.
Proof.
  intros total hdr iph Hh Hopts Hwf Hw Htot Hp Hreg Hmem Htx Hcap.
  assert (length iph = (4 * h)%nat) as Hiph.
  { unfold iph, hdr. rewrite length_ip_header_opts. lia. }
  destruct (buf_open_window rx Hwf) as (pre & post & E & Hlen).
  rewrite Hw in E, Hlen. rewrite <- !app_assoc in E.
  rewrite !length_app, Hiph in Hlen.
  assert (8 <= length (w ++ pad ++ post))%nat as Hrest.
  { rewrite E in Hmem. cbn [payload data] in Hmem.
    rewrite !length_app in Hmem. rewrite Hiph in Hmem. rewrite !length_app. lia. }
  rewrite E. rewrite !length_app, Hiph.
  pose proof (ip_in_opts_open cfg st pre w (pad ++ post)
                (4 * h + (length w + length pad)) h tos id ff ttl protocol src opts
                src_mac Hh Hopts Htot ltac:(lia) Hp) as Hin.
  cbn zeta in Hin. fold total in Hin. fold hdr in Hin. fold iph in Hin.
  rewrite Hin. unfold net_in.
  rewrite (bool_decide_eq_false_2 _ Hreg). rewrite Z.eqb_refl.
  unfold buf_add_header. cbn [payload data len].
  destruct (Nat.leb_spec (4 * h) (length pre + 4 * h)); [|lia].
  replace (length pre + 4 * h - 4 * h)%nat with (length pre) by lia.
  cbn [fst snd]. split; [reflexivity|]. split; [|reflexivity].
  rewrite (icmp_unreachable_calls_opts cfg st pre iph (w ++ pad ++ post) (length w) h
             src ICMP_CODE_PROTOCOL_UNREACH Hiph ltac:(lia) Hrest).
  - rewrite take_app_length. reflexivity.
  - unfold iph, hdr, ip_header_opts.
    cbn [app lookup list_lookup default from_option]. unfold Datatypes.id.
    rewrite u8_byte_of_Z, (Z.mod_small (64 + Z.of_nat h)) by lia.
    symmetry. apply Z.mod_unique with (q := 4); lia.
  - change (2 ^ 64) with 18446744073709551616. lia.
  - exact Htx.
  - exact Hcap.
Qed.

Lemma ip_in_options_unreachable_witness :
  let hdr c := ip_header_opts 6 0 34 0 0 64 6 peer_ip (net_if_ip small_cfg)
                 [x01; x01; x01; x00] c in
  let iph := hdr (checksum16 (hdr 0)) in
  let rx := Buf (iph ++ sample_udp_seg ++ replicate 12 x00) 0 46 in
  (ip_in small_cfg (init_state small_cfg) rx peer_mac).2 = IpUnreachable /\
  ip_out_calls (trace (ip_in small_cfg (init_state small_cfg) rx peer_mac).1.1) =
    ip_out_calls (trace (init_state small_cfg)) ++
    [EvIpOut (icmp_unreach_msg ICMP_CODE_PROTOCOL_UNREACH
                (iph ++ first8 sample_udp_seg)) peer_ip NET_PROTOCOL_ICMP] /\
  length iph = 24%nat.
Proof.
  intros hdr iph rx.
  apply (ip_in_options_unreachable small_cfg (init_state small_cfg) rx peer_mac 6
           0 0 0 64 6 peer_ip [x01; x01; x01; x00] sample_udp_seg (replicate 12 x00)).
  - lia.
  - reflexivity.
  - unfold buf_wf. vm_compute. lia.
  - vm_compute. reflexivity.
  - simpl. lia.
  - lia.
  - vm_compute. intros E. discriminate E.
  - vm_compute. lia.
  - reflexivity.
  - simpl. lia.
Defined.


(** ** icmp.c *)

(** A region whose checksum field holds zero, with the checksum of the
    region stored in the field, sums to zero. *)
Lemma checksum16_field_closes (d0 : list byte) (i : nat) :
  set_field16 d0 i 0 = d0 -> (2 * i + 2 <= length d0)%nat ->
  checksum16 (set_field16 d0 i (checksum16 d0)) = 0.
Proof.
  intros Hz Hi.
  rewrite (checksum16_ocnorm (set_field16 d0 i _)).
  rewrite set_field16_sum by lia. rewrite Hz.
  pose proof (checksum16_range d0) as Hc.
  rewrite (Z.mod_small (checksum16 d0)) by lia.
  rewrite checksum16_ocnorm.
  set (s0 := sum_list (le_words d0)).
  assert (0 <= wrap32 s0 < 4294967296) as Hw
    by (unfold wrap32; apply Z.mod_pos_bound; lia).
  destruct (complement_closes (wrap32 s0) Hw) as [Hlt Hn].
  pose proof (ocnorm_range (wrap32 s0) ltac:(lia)) as Ho.
  assert (wrap32 (s0 + (65535 - ocnorm (wrap32 s0)))
          = wrap32 s0 + (65535 - ocnorm (wrap32 s0))) as ->.
  { unfold wrap32 at 1. rewrite <- Zplus_mod_idemp_l. fold (wrap32 s0).
    apply Z.mod_small. lia. }
  rewrite Hn. reflexivity.
Qed.

(** The message [icmp_resp] hands to [ip_out]. *)
Lemma icmp_resp_calls cfg st (req_buf : buf_t) (src_ip : ip_t) :
  buf_wf req_buf -> (4 <= len req_buf)%nat ->
  length (payload (txbuf st)) = BUF_MAX_LEN cfg ->
  (len req_buf <= BUF_MAX_LEN cfg / 2)%nat ->
  ip_out_calls (trace (icmp_resp cfg st req_buf src_ip))
  = ip_out_calls (trace st) ++
    [EvIpOut (embed_checksum ([x00; x00] ++ drop 2 (window req_buf)) 1) src_ip
       NET_PROTOCOL_ICMP].
Proof.
  intros Hwf Hlen Htx Hcap.
  destruct (buf_open_window req_buf Hwf) as (rpre & rpost & _ & Hw).
  unfold icmp_resp. rewrite ip_out_calls_ip_out.
  cbn [deref txbuf set_txbuf trace]. do 3 f_equal.
  destruct (buf_init_open (BUF_MAX_LEN cfg) (txbuf st) (len req_buf) Htx Hcap)
    as (pre & old & post & -> & Hpre & Hold & Hpost).
  set (w := window req_buf) in *.
  assert (buf_store (Buf (pre ++ old ++ post) (length pre) (len req_buf)) 0 w
          = Buf (pre ++ w ++ post) (length pre) (len req_buf)) as ->.
  { rewrite buf_store_mid by (reflexivity || lia). do 2 f_equal.
    rewrite <- (app_nil_r old), list_inserts_0_r by lia. rewrite app_nil_r. reflexivity. }
  destruct w as [|t [|c [|k0 [|k1 rest]]]]; try (cbn [length] in Hw; lia).
  cbn [length] in Hw.
  repeat (first [ rewrite buf_store_mid
                    by (rewrite ?length_inserts, ?length_store16; cbn [length]; lia)
                | rewrite window_mid
                    by (rewrite ?length_inserts, ?length_store16; cbn [length]; lia)
                | progress cbn [payload data len] ]).
  reflexivity.
Qed.

(** X17.  [icmp_in] answers an echo request, and nothing else: a message of
    at least eight bytes whose type is 8 yields one call to [ip_out], to the
    source, with the request in which type and code are zero and the
    checksum is recomputed; any other message yields none.  The reply has
    the length of the request, carries its id, sequence number and data
    unchanged, and its checksum verifies. *)
Theorem icmp_in_echo cfg (st : net_t) (buf : buf_t) (src_ip : ip_t) :
  buf_wf buf -> length (payload (txbuf st)) = BUF_MAX_LEN cfg ->
  (len buf <= BUF_MAX_LEN cfg / 2)%nat ->
  let reply := embed_checksum ([x00; x00] ++ drop 2 (window buf)) 1 in
  ip_out_calls (trace (icmp_in cfg st buf src_ip)) =
    ip_out_calls (trace st) ++
    (if (8 <=? len buf)%nat && (u8 (buf_u8 buf 0) =? ICMP_TYPE_ECHO_REQUEST)
     then [EvIpOut reply src_ip NET_PROTOCOL_ICMP] else []) /\
  ((8 <= len buf)%nat ->
   length reply = len buf /\ take 2 reply = [x00; x00] /\
   drop 4 reply = drop 4 (window buf) /\ checksum16 reply = 0).
Proof.
  intros Hwf Htx Hcap reply. split.
  - unfold icmp_in.
    destruct (Nat.ltb_spec (len buf) 8) as [Hlt|Hge].
    + destruct (Nat.leb_spec 8 (len buf)); [lia|]. cbn [andb]. rewrite app_nil_r.
      reflexivity.
    + destruct (Nat.leb_spec 8 (len buf)); [|lia]. cbn [andb].
      destruct (u8 (buf_u8 buf 0) =? ICMP_TYPE_ECHO_REQUEST); cbn [negb].
      * apply icmp_resp_calls; try assumption. lia.
      * rewrite app_nil_r. reflexivity.
  - intros Hge.
    destruct (buf_open_window buf Hwf) as (pre & post & _ & Hw).
    unfold reply. set (w := window buf) in *.
    destruct w as [|t [|c [|k0 [|k1 rest]]]]; try (cbn [length] in Hw; lia).
    cbn [drop app]. unfold embed_checksum.
    set (d0 := set_field16 (x00 :: x00 :: k0 :: k1 :: rest) 1 0).
    assert (d0 = x00 :: x00 :: x00 :: x00 :: rest) as Ed0 by reflexivity.
    assert (forall v, set_field16 d0 1 v = x00 :: x00 :: store16 v ++ rest) as Hset.
    { intros v. rewrite Ed0. reflexivity. }
    split; [|split; [|split]].
    + rewrite Hset. cbn [length app store16]. cbn [length] in Hw. lia.
    + rewrite Hset. reflexivity.
    + rewrite Hset. reflexivity.
    + apply checksum16_field_closes.
      * rewrite Ed0. reflexivity.
      * rewrite Ed0. cbn [length]. lia.
Qed.

Lemma icmp_in_echo_witness :
  let buf := Buf [x08; x00; xf7; xff; x00; x01; x00; x02; x61] 0 9 in
  let reply := embed_checksum ([x00; x00] ++ drop 2 (window buf)) 1 in
  length reply = len buf /\ take 2 reply = [x00; x00] /\
  drop 4 reply = drop 4 (window buf) /\ checksum16 reply = 0.
Proof.
  intros buf reply.
  destruct (icmp_in_echo small_cfg (init_state small_cfg) buf peer_ip) as (_ & H);
    [unfold buf_wf; simpl; lia | reflexivity | simpl; lia |].
  apply H. simpl. lia.
Defined.


(** ** The send path calls no handler *)

Lemma keeps_upper_refl st : keeps_upper st st.
Proof. repeat split. Qed.

Lemma keeps_upper_trans st1 st2 st3 :
  keeps_upper st1 st2 -> keeps_upper st2 st3 -> keeps_upper st1 st3.
Proof.
  intros (A1 & A2 & A3) (B1 & B2 & B3). repeat split; congruence.
Qed.

Lemma ethernet_out_keeps cfg st r mac protocol :
  keeps_upper st (ethernet_out cfg st r mac protocol).
Proof.
  rewrite ethernet_out_eq. repeat split. cbn [trace].
  rewrite handler_calls_app. cbn. apply app_nil_r.
Qed.

Lemma arp_out_keeps cfg st r ip : keeps_upper st (arp_out cfg st r ip).
Proof.
  unfold arp_out.
  destruct (map_get _ (arp_table st) ip (now st)); [apply ethernet_out_keeps|].
  destruct (map_get _ (arp_buf st) ip (now st)); [apply keeps_upper_refl|].
  unfold arp_req.
  eapply keeps_upper_trans; [|apply ethernet_out_keeps]. repeat split.
Qed.

Lemma ip_fragment_out_keeps_upper cfg st r ip protocol id offset mf :
  keeps_upper st (ip_fragment_out cfg st r ip protocol id offset mf).
Proof.
  unfold ip_fragment_out.
  destruct (assign _ r _) as [st2 r2] eqn:Ea.
  eapply keeps_upper_trans; [|apply arp_out_keeps].
  destruct r; cbn in Ea; inversion Ea; subst; repeat split; cbn [trace log set_txbuf];
    rewrite handler_calls_app; cbn; apply app_nil_r.
Qed.

Lemma ip_out_loop_keeps cfg fuel : forall st r ip protocol id payload_len sent off,
  keeps_upper st (ip_out_loop cfg fuel st r ip protocol id payload_len sent off).1.1.
Proof.
  induction fuel as [|fuel IH]; intros; [apply keeps_upper_refl|].
  cbn [ip_out_loop].
  destruct (sent + max_payload cfg <? payload_len)%nat; [|apply keeps_upper_refl].
  eapply keeps_upper_trans; [|apply IH]. apply ip_fragment_out_keeps_upper.
Qed.

Lemma ip_out_keeps cfg st r ip protocol :
  keeps_upper st (ip_out cfg st r ip protocol).
Proof.
  unfold ip_out.
  set (st0 := log st (EvIpOut (window (deref st r)) ip protocol)).
  assert (keeps_upper st st0) as H0.
  { repeat split. unfold st0. cbn [trace log]. rewrite handler_calls_app. cbn.
    apply app_nil_r. }
  destruct (max_payload cfg <? len (deref st0 r))%nat.
  - set (st1 := set_ip_id st0 _).
    assert (keeps_upper st st1) as H1 by exact H0.
    pose proof (ip_out_loop_keeps cfg (len (deref st0 r)) st1 r ip protocol
                  (ip_id st0) (len (deref st0 r)) 0%nat 0) as Hl.
    destruct (ip_out_loop _ _ _ _ _ _ _ _ _ _) as [[st2 sent] off]. cbn [fst] in Hl.
    destruct (0 <? len (deref st0 r) - sent)%nat.
    + eapply keeps_upper_trans; [|apply ip_fragment_out_keeps_upper].
      eapply keeps_upper_trans; eassumption.
    + eapply keeps_upper_trans; eassumption.
  - eapply keeps_upper_trans; [|apply ip_fragment_out_keeps_upper]. exact H0.
Qed.

Lemma icmp_unreachable_keeps cfg st recv_buf src_ip code :
  keeps_upper st (icmp_unreachable cfg st recv_buf src_ip code).
Proof.
  unfold icmp_unreachable.
  eapply keeps_upper_trans; [|apply ip_out_keeps]. repeat split.
Qed.


(** ** udp.c *)

Lemma length_udp_header sport dport total c :
  length (udp_header sport dport total c) = 8%nat.
Proof. reflexivity. Qed.

Lemma length_udp_datagram src dst sport dport data :
  length (udp_datagram src dst sport dport data) = (length data + 8)%nat.
Proof. unfold udp_datagram. rewrite length_app, length_udp_header. lia. Qed.

(** [udp_out]'s work on a buffer with eight bytes [hd8] in front of the
    window for the header and twelve more, [hd12], for the pseudo-header. *)
Lemma udp_segment_open cfg (pre hd12 hd8 w post : list byte) sport dip dport :
  length hd12 = 12%nat -> length hd8 = 8%nat ->
  udp_segment cfg (Buf (pre ++ hd12 ++ hd8 ++ w ++ post) (length pre + 20) (length w))
    sport dip dport
  = Buf (pre ++ hd12 ++ udp_datagram (net_if_ip cfg) dip sport dport w ++ post)
        (length pre + 12) (length w + 8).
Proof.
  intros H12 H8. unfold udp_segment, buf_add_header. cbn [payload data len].
  destruct (Nat.leb_spec 8 (length pre + 20)); [|lia].
  replace (length pre + 20 - 8)%nat with (length (pre ++ hd12))
    by (rewrite length_app; lia).
  rewrite (app_assoc pre hd12), (app_assoc hd8 w post).
  rewrite !store16_swap16.
  repeat (first [ rewrite buf_store_mid by len_solve
                | progress cbn [payload data len] ]).
  set (total := Z.of_nat (length w + 8)).
  set (seg0 := list_inserts 6 _ _).
  assert (seg0 = udp_header sport dport total 0 ++ w) as E0.
  { unfold seg0. explode_list hd8 H8. reflexivity. }
  clearbody seg0. subst seg0.
  set (seg0 := udp_header sport dport total 0 ++ w).
  assert (length seg0 = (length w + 8)%nat) as Hl0.
  { unfold seg0. rewrite length_app, length_udp_header. lia. }
  rewrite <- (app_assoc pre hd12), length_app, H12.
  rewrite <- Hl0.
  rewrite (transport_checksum_open NET_PROTOCOL_UDP pre hd12 seg0 post) by exact H12.
  replace (length pre + 12)%nat with (length (pre ++ hd12))
    by (rewrite length_app; lia).
  rewrite (app_assoc pre hd12).
  rewrite buf_store_mid by (rewrite ?length_app, ?length_store16; lia).
  rewrite <- (app_assoc pre hd12), length_app, H12, Hl0. reflexivity.
Qed.

(** The fields [udp_in] reads from a buffer whose window starts with a UDP
    header. *)
Lemma udp_header_fields (pre rest : list byte) (n : nat) sport dport total c :
  let buf := Buf (pre ++ (udp_header sport dport total c ++ rest)) (length pre) n in
  swap16 (buf_u16 buf 0) = sport mod 65536 /\
  swap16 (buf_u16 buf 2) = dport mod 65536 /\
  swap16 (buf_u16 buf 4) = total mod 65536 /\
  buf_u16 buf 6 = c mod 65536.
Proof.
  intros buf. unfold buf, buf_u16. rewrite !buf_u8_pre.
  cbn [udp_header be16 store16 app lookup list_lookup default from_option Nat.add].
  unfold Datatypes.id. rewrite !swap16_load16_be16.
  repeat split. apply (load16_store16_val c). reflexivity.
Qed.

Lemma udp_header_set_checksum sport dport total c v (rest : list byte) :
  list_inserts 6 (store16 v) (udp_header sport dport total c ++ rest)
  = udp_header sport dport total v ++ rest.
Proof. reflexivity. Qed.

(** [udp_in] on a buffer that holds a datagram of [udp_out]'s layout behind
    twelve bytes [hd12]: the checks pass; with a handler for the destination
    port the handler gets the payload, the source address and the source
    port, without one [icmp_unreachable] is called. *)
Lemma udp_in_datagram cfg st (pre hd12 data_bytes post : list byte) (src_ip : ip_t)
    sport dport :
  length hd12 = 12%nat -> 0 <= sport < 65536 -> 0 <= dport < 65536 ->
  Z.of_nat (length data_bytes + 8) < 65536 ->
  let mem := pre ++ hd12 ++
             udp_datagram src_ip (net_if_ip cfg) sport dport data_bytes ++ post in
  let buf := Buf mem (length pre + 12) (length data_bytes + 8) in
  udp_in cfg st buf src_ip
  = match udp_table st !! dport with
    | Some handler =>
        (log st (EvUdpHandler handler data_bytes src_ip sport),
         Buf mem (length pre + 20) (length data_bytes), UdpDelivered)
    | None =>
        (icmp_unreachable cfg st (buf_add_header buf 20) src_ip ICMP_CODE_PORT_UNREACH,
         buf_add_header buf 20, UdpUnreachable)
    end.
Proof.
  intros H12 Hsp Hdp Hlen mem buf. unfold buf.
  set (total := Z.of_nat (length data_bytes + 8)) in *.
  set (seg0 := udp_header sport dport total 0 ++ data_bytes).
  assert (exists c, c = checksum16 (pseudo_header src_ip (net_if_ip cfg) NET_PROTOCOL_UDP
                                      total ++ seg0) /\ 0 <= c <= 65535)
    as (c & Ec & Hc) by (eexists; split; [reflexivity|apply checksum16_range]).
  assert (length seg0 = (length data_bytes + 8)%nat) as Hl0.
  { unfold seg0. rewrite length_app, length_udp_header. lia. }
  assert (mem = (pre ++ hd12) ++ (udp_header sport dport total c ++ data_bytes) ++ post)
    as Emem.
  { unfold mem, udp_datagram. fold total. fold seg0. rewrite <- Ec.
    rewrite <- !app_assoc. reflexivity. }
  assert (length (pre ++ hd12) = (length pre + 12)%nat) as Hp
    by (rewrite length_app; lia).
  clearbody mem. subst mem. rewrite <- Hp.
  set (B := Buf _ (length (pre ++ hd12)) (length data_bytes + 8)).
  destruct (udp_header_fields (pre ++ hd12) (data_bytes ++ post)
              (length data_bytes + 8) sport dport total c) as (F0 & F2 & F4 & F6).
  rewrite (app_assoc (udp_header sport dport total c)) in F0, F2, F4, F6.
  fold B in F0, F2, F4, F6.
  rewrite Z.mod_small in F0, F2, F4, F6 by (unfold total in *; lia).
  unfold udp_in, udp_in_check.
  assert (len B = (length data_bytes + 8)%nat) as HlB by reflexivity.
  rewrite HlB, F4.
  destruct (Nat.ltb_spec (length data_bytes + 8) 8); [lia|].
  destruct (Z.ltb_spec (Z.of_nat (length data_bytes + 8)) total);
    [unfold total in *; lia|].
  destruct (Z.ltb_spec total (Z.of_nat (length data_bytes + 8)));
    [unfold total in *; lia|].
  unfold udp_in_verify. rewrite F6.
  set (Z0 := Buf (pre ++ hd12 ++ seg0 ++ post) (length pre + 12) (length seg0)).
  assert (buf_store B 6 (store16 0) = Z0) as ->.
  { unfold B, Z0. rewrite buf_store_mid
      by (rewrite ?length_app, ?length_udp_header, ?length_store16; lia).
    rewrite udp_header_set_checksum. fold seg0.
    rewrite <- app_assoc, Hp, Hl0. reflexivity. }
  assert (transport_checksum NET_PROTOCOL_UDP Z0 src_ip (net_if_ip cfg) = (c, Z0)) as ->.
  { unfold Z0. rewrite transport_checksum_open by exact H12.
    rewrite Hl0. fold total. rewrite <- Ec. reflexivity. }
  rewrite Z.eqb_refl. cbn [negb].
  assert (buf_store Z0 6 (store16 c) = B) as ->.
  { unfold Z0, B. rewrite <- Hp, (app_assoc pre hd12).
    rewrite buf_store_mid
      by (rewrite ?Hl0, ?length_app, ?length_udp_header, ?length_store16; lia).
    rewrite Hl0. unfold seg0. rewrite udp_header_set_checksum. reflexivity. }
  rewrite F2.
  destruct (udp_table st !! dport) as [handler|]; [|reflexivity].
  rewrite F0.
  unfold buf_remove_header. rewrite HlB.
  destruct (Nat.leb_spec 8 (length data_bytes + 8)); [|lia].
  assert (window (Buf (payload B) (data B + 8) (length data_bytes + 8 - 8)) = data_bytes)
    as ->.
  { unfold B. cbn [payload data].
    replace (length data_bytes + 8 - 8)%nat with (length data_bytes) by lia.
    rewrite <- (app_assoc (udp_header _ _ _ _)),
      (app_assoc (pre ++ hd12) (udp_header _ _ _ _)).
    apply window_mid; [rewrite !length_app, length_udp_header; lia|reflexivity]. }
  f_equal. f_equal. unfold B. cbn [payload data]. f_equal; lia.
Qed.

Lemma udp_out_calls cfg st (r : buf_ref) sport dip dport :
  ip_out_calls (trace (udp_out cfg st r sport dip dport))
  = ip_out_calls (trace st) ++
    [EvIpOut (window (udp_segment cfg (deref st r) sport dip dport)) dip
       NET_PROTOCOL_UDP].
Proof.
  unfold udp_out. destruct r; cbn [assign]; rewrite ip_out_calls_ip_out; reflexivity.
Qed.

Lemma udp_segment_window cfg (buf : buf_t) sport dip dport :
  buf_wf buf -> (20 <= data buf)%nat ->
  window (udp_segment cfg buf sport dip dport)
  = udp_datagram (net_if_ip cfg) dip sport dport (window buf).
Proof.
  intros Hwf Hroom.
  destruct (buf_open buf 20 Hroom Hwf) as (pre & hd & w & post & -> & Hhd & ->).
  destruct (split3 hd 0 12 ltac:(lia)) as (nil & hd12 & hd8 & -> & Hnil & H12).
  destruct nil; [|discriminate]. cbn [app] in *.
  rewrite length_app in Hhd. rewrite <- app_assoc.
  rewrite udp_segment_open by lia.
  rewrite (app_assoc pre hd12).
  apply window_mid; [rewrite length_app; lia|].
  rewrite length_udp_datagram. reflexivity.
Qed.

(** X18.  [udp_out] hands [ip_out] one segment for the destination with
    protocol 17: source port, destination port and the length of header and
    payload as big-endian 16-bit values, the checksum, then the payload.
    The checksum is such that [checksum16] over the pseudo-header and the
    segment gives zero. *)
Theorem udp_out_segment cfg (st : net_t) (r : buf_ref) (sport : Z) (dip : ip_t)
    (dport : Z) :
  let buf := deref st r in
  buf_wf buf -> (20 <= data buf)%nat ->
  let total := Z.of_nat (len buf + 8) in
  let seg := udp_datagram (net_if_ip cfg) dip sport dport (window buf) in
  ip_out_calls (trace (udp_out cfg st r sport dip dport)) =
    ip_out_calls (trace st) ++ [EvIpOut seg dip NET_PROTOCOL_UDP] /\
  take 6 seg = be16 sport ++ be16 dport ++ be16 total /\
  drop 8 seg = window buf /\
  checksum16 (pseudo_header (net_if_ip cfg) dip NET_PROTOCOL_UDP total ++ seg) = 0.
Proof.
  intros buf Hwf Hroom total seg.
  assert (length (window buf) = len buf) as Hlen.
  { destruct (buf_open_window buf Hwf) as (? & ? & _ & H). exact H. }
  split; [|split; [|split]].
  - rewrite udp_out_calls. fold buf. rewrite udp_segment_window by assumption.
    reflexivity.
  - unfold seg, udp_datagram. rewrite Hlen. reflexivity.
  - reflexivity.
  - unfold seg, udp_datagram. rewrite Hlen. fold total.
    set (ph := pseudo_header (net_if_ip cfg) dip NET_PROTOCOL_UDP total).
    set (d0 := ph ++ udp_header sport dport total 0 ++ window buf).
    assert (length ph = 12%nat) as Hph by apply length_pseudo_header.
    assert (forall v, ph ++ udp_header sport dport total v ++ window buf
                      = set_field16 d0 9 v) as Hset.
    { intros v. unfold set_field16, d0. change (2 * 9)%nat with (12 + 6)%nat.
      rewrite <- Hph, list_inserts_app_r. reflexivity. }
    rewrite Hset. apply checksum16_field_closes.
    + rewrite <- Hset. reflexivity.
    + unfold d0. rewrite length_app, Hph. cbn [length app udp_header be16 store16]. lia.
Qed.

Lemma udp_out_segment_witness :
  let st := init_state small_cfg in
  let buf := payload_buf small_cfg 64 2 x68 in
  let seg := udp_datagram (net_if_ip small_cfg) peer_ip 4660 53 (window buf) in
  checksum16 (pseudo_header (net_if_ip small_cfg) peer_ip NET_PROTOCOL_UDP 10 ++ seg) = 0.
Proof.
  intros st buf seg.
  destruct (udp_out_segment small_cfg st (OwnBuf buf) 4660 peer_ip 53)
    as (_ & _ & _ & H); [unfold buf_wf; simpl; lia | simpl; lia |].
  exact H.
Defined.

(** X19.  After [udp_open] for a port, whatever was registered before, a
    datagram of [udp_out]'s layout for that port that arrives from its
    sender passes the checks of [udp_in] and is handed to the handler just
    registered: the payload without the header, the sender's address and
    the source port. *)
Theorem udp_open_delivers cfg (st0 : net_t) (rx : buf_t) (src_ip : ip_t)
    (sport dport : Z) (handler : nat) (data_bytes : list byte) :
  buf_wf rx -> (12 <= data rx)%nat ->
  window rx = udp_datagram src_ip (net_if_ip cfg) sport dport data_bytes ->
  0 <= sport < 65536 -> 0 <= dport < 65536 ->
  Z.of_nat (length data_bytes + 8) < 65536 ->
  let st := (udp_open st0 dport handler).1 in
  udp_in cfg st rx src_ip
  = (log st (EvUdpHandler handler data_bytes src_ip sport),
     buf_remove_header rx 8, UdpDelivered) /\
  window (buf_remove_header rx 8) = data_bytes.
Proof.
  intros Hwf Hroom Hw Hsp Hdp Hlen st.
  destruct (buf_open rx 12 Hroom Hwf) as (pre & hd & w & post & E & Hhd & Hw').
  rewrite Hw in Hw'. subst w. rewrite length_udp_datagram in E.
  assert (buf_remove_header rx 8
          = Buf (pre ++ hd ++ udp_datagram src_ip (net_if_ip cfg) sport dport data_bytes
                 ++ post) (length pre + 20) (length data_bytes)) as Er.
  { rewrite E. unfold buf_remove_header. cbn [payload data len].
    destruct (Nat.leb_spec 8 (length data_bytes + 8)); [|lia]. f_equal; lia. }
  split.
  - rewrite Er. rewrite E at 1.
    pose proof (udp_in_datagram cfg st pre hd data_bytes post src_ip sport dport
                  Hhd Hsp Hdp Hlen) as Hin.
    cbn zeta in Hin. rewrite Hin.
    assert (udp_table st !! dport = Some handler) as ->
      by (unfold st, udp_open; cbn; apply lookup_insert_eq).
    reflexivity.
  - rewrite Er. unfold udp_datagram.
    rewrite <- (app_assoc (udp_header _ _ _ _)), (app_assoc hd), (app_assoc pre).
    apply window_mid; [|reflexivity].
    rewrite !length_app, length_udp_header. lia.
Qed.

Lemma udp_open_delivers_witness :
  let rx := rx_buf sample_ip_hdr
              (udp_datagram peer_ip (net_if_ip small_cfg) 4660 53 [x68; x69]) in
  window (buf_remove_header rx 8) = [x68; x69].
Proof.
  intros rx.
  destruct (udp_open_delivers small_cfg (init_state small_cfg) rx peer_ip 4660 53 7
              [x68; x69]) as (_ & H);
    [unfold buf_wf; simpl; lia | simpl; lia | reflexivity | lia | lia | simpl; lia |].
  exact H.
Defined.

(** X20.  After [udp_close] for a port, a datagram for that port that
    passes the checks reaches no handler: [udp_in] takes the path of a port
    without handler, which ends in [icmp_unreachable]. *)
Theorem udp_close_unreachable cfg (st0 : net_t) (rx : buf_t) (src_ip : ip_t)
    (sport dport : Z) (data_bytes : list byte) :
  buf_wf rx -> (12 <= data rx)%nat ->
  window rx = udp_datagram src_ip (net_if_ip cfg) sport dport data_bytes ->
  0 <= sport < 65536 -> 0 <= dport < 65536 ->
  Z.of_nat (length data_bytes + 8) < 65536 ->
  let st := udp_close st0 dport in
  udp_in cfg st rx src_ip
  = (icmp_unreachable cfg st (buf_add_header rx 20) src_ip ICMP_CODE_PORT_UNREACH,
     buf_add_header rx 20, UdpUnreachable) /\
  handler_calls (trace (udp_in cfg st rx src_ip).1.1) = handler_calls (trace st0).
Proof.
  intros Hwf Hroom Hw Hsp Hdp Hlen st.
  destruct (buf_open rx 12 Hroom Hwf) as (pre & hd & w & post & E & Hhd & Hw').
  rewrite Hw in Hw'. subst w. rewrite length_udp_datagram in E.
  pose proof (udp_in_datagram cfg st pre hd data_bytes post src_ip sport dport
                Hhd Hsp Hdp Hlen) as Hin.
  cbn zeta in Hin. rewrite <- E in Hin.
  assert (udp_table st !! dport = None) as Hnone
    by (unfold st, udp_close; cbn; apply lookup_delete_eq).
  rewrite Hnone in Hin. split; [exact Hin|].
  rewrite Hin. cbn [fst].
  destruct (icmp_unreachable_keeps cfg st (buf_add_header rx 20) src_ip
              ICMP_CODE_PORT_UNREACH) as (_ & _ & H).
  rewrite H. reflexivity.
Qed.

Lemma udp_close_unreachable_witness :
  let rx := rx_buf sample_ip_hdr
              (udp_datagram peer_ip (net_if_ip small_cfg) 4660 53 [x68; x69]) in
  let st := udp_close (udp_open (init_state small_cfg) 53 7).1 53 in
  handler_calls (trace (udp_in small_cfg st rx peer_ip).1.1) = [].
Proof.
  intros rx st.
  destruct (udp_close_unreachable small_cfg (udp_open (init_state small_cfg) 53 7).1
              rx peer_ip 4660 53 [x68; x69]) as (_ & H);
    [unfold buf_wf; simpl; lia | simpl; lia | reflexivity | lia | lia | simpl; lia |].
  exact H.
Defined.

(** X21.  A UDP datagram whose checksum field differs from the checksum
    [udp_in] computes over pseudo-header and segment is dropped: no handler
    is called, nothing is sent, and the buffer comes back trimmed to the
    declared length with the checksum field as it was received. *)
Theorem udp_in_checksum_mismatch cfg (st : net_t) (buf : buf_t) (src_ip : ip_t) :
  buf_wf buf -> (12 <= data buf)%nat -> (8 <= len buf)%nat ->
  let total := swap16 (buf_u16 buf 4) in
  total <= Z.of_nat (len buf) ->
  let trimmed := Buf (payload buf) (data buf) (Z.to_nat total) in
  checksum16 (pseudo_header src_ip (net_if_ip cfg) NET_PROTOCOL_UDP total ++
              window (buf_store trimmed 6 (store16 0)))
    <> buf_u16 buf 6 ->
  udp_in cfg st buf src_ip = (st, trimmed, UdpDropChecksum).
Proof.
  intros Hwf Hroom Hlen total Htot trimmed Hck.
  pose proof (swap16_range (buf_u16 buf 4)) as Hr. fold total in Hr.
  destruct buf as [mem d n]. unfold buf_wf in Hwf. cbn [payload data len] in *.
  assert (udp_in_check (Buf mem d n) = inr trimmed) as Hc.
  { unfold udp_in_check. cbn [len]. fold total.
    destruct (Nat.ltb_spec n 8); [lia|].
    destruct (Z.ltb_spec (Z.of_nat n) total); [lia|].
    unfold trimmed. f_equal.
    destruct (Z.ltb_spec total (Z.of_nat n)).
    - unfold buf_remove_padding. cbn [payload data len].
      destruct (Nat.leb_spec (n - Z.to_nat total) n); [|lia]. f_equal. lia.
    - f_equal. lia. }
  unfold udp_in. rewrite Hc. unfold udp_in_verify.
  set (zeroed := buf_store trimmed 6 (store16 0)) in *.
  assert (buf_u16 trimmed 6 = buf_u16 (Buf mem d n) 6) as Ho by reflexivity.
  rewrite Ho.
  rewrite transport_checksum_eq;
    [| unfold zeroed, trimmed; cbn [buf_store data]; lia
     | unfold zeroed, trimmed, buf_wf; cbn [buf_store payload data len];
       rewrite length_inserts; lia ].
  assert (Z.of_nat (len zeroed) = total) as -> by (unfold zeroed, trimmed; cbn; lia).
  destruct (Z.eqb_spec
              (checksum16 (pseudo_header src_ip (net_if_ip cfg) NET_PROTOCOL_UDP total ++
                           window zeroed)) (buf_u16 (Buf mem d n) 6)) as [E|_];
    [contradiction|]. cbn [negb].
  rewrite <- Ho. unfold zeroed.
  rewrite store_restore16 by (unfold trimmed; cbn [payload data]; lia).
  reflexivity.
Qed.

Lemma udp_in_checksum_mismatch_witness :
  let buf := rx_buf sample_ip_hdr [x12; x34; x00; x35; x00; x0a; x00; x00; x68; x69] in
  udp_in small_cfg (init_state small_cfg) buf peer_ip
  = (init_state small_cfg, buf, UdpDropChecksum).
Proof.
  intros buf.
  apply (udp_in_checksum_mismatch small_cfg (init_state small_cfg) buf peer_ip).
  - unfold buf_wf. simpl. lia.
  - simpl. lia.
  - simpl. lia.
  - vm_compute. discriminate.
  - vm_compute. discriminate.
Defined.


(** ** From udp_send on one host to the handler on another *)

(** The buffer [udp_send] hands to [udp_out]: the data in [txbuf], with the
    room [buf_init] leaves in front of it. *)
Lemma udp_send_eq cfg st (data_bytes : list byte) sport dip dport :
  length (payload (txbuf st)) = BUF_MAX_LEN cfg ->
  (length data_bytes <= BUF_MAX_LEN cfg / 2)%nat ->
  exists pre post,
    length pre = (BUF_MAX_LEN cfg / 2 - length data_bytes)%nat /\
    length post = (BUF_MAX_LEN cfg - BUF_MAX_LEN cfg / 2)%nat /\
    udp_send cfg st data_bytes (Z.of_nat (length data_bytes)) sport dip dport
    = udp_out cfg
        (set_txbuf st (Buf (pre ++ data_bytes ++ post) (length pre) (length data_bytes)))
        TxBuf sport dip dport.
Proof.
  intros Htx Hcap. unfold udp_send. rewrite Nat2Z.id, firstn_all.
  destruct (buf_init_open (BUF_MAX_LEN cfg) (txbuf st) (length data_bytes) Htx Hcap)
    as (pre & old & post & -> & Hpre & Hold & Hpost).
  exists pre, post. split; [exact Hpre|]. split; [exact Hpost|].
  rewrite buf_store_mid by (reflexivity || lia).
  rewrite <- (app_nil_r old), list_inserts_0_r by lia. rewrite app_nil_r. reflexivity.
Qed.

(** The frame [udp_send] gives the driver when the destination is in the ARP
    cache and the datagram needs no fragmentation. *)
Lemma udp_send_frame cfg st (data_bytes : list byte) sport dip dport mac :
  length (payload (txbuf st)) = BUF_MAX_LEN cfg ->
  (length data_bytes + 42 <= BUF_MAX_LEN cfg / 2)%nat ->
  (length data_bytes + 8 <= max_payload cfg)%nat ->
  map_get (ARP_TIMEOUT_SEC cfg) (arp_table st) dip (now st) = Some mac ->
  let seg := udp_datagram (net_if_ip cfg) dip sport dport data_bytes in
  let total := Z.of_nat (length data_bytes + 8 + 20) in
  let dgram :=
    ip_header cfg total (ip_id st) 0 NET_PROTOCOL_UDP dip
      (checksum16 (ip_header cfg total (ip_id st) 0 NET_PROTOCOL_UDP dip 0)) ++ seg in
  frames_sent
    (trace (udp_send cfg st data_bytes (Z.of_nat (length data_bytes)) sport dip dport))
  = frames_sent (trace st) ++
    [EvDriverSend (ether_frame mac (net_if_mac cfg) NET_PROTOCOL_IP dgram)].
Proof.
  intros Htx Hcap Hsmall Hget seg total dgram.
  pose proof (half_bounds (BUF_MAX_LEN cfg)) as Hhalf.
  destruct (udp_send_eq cfg st data_bytes sport dip dport Htx ltac:(lia))
    as (pre & post & Hpre & Hpost & ->).
  destruct (split3 pre (length pre - 20) 20 ltac:(lia)) as (p0 & hd & nil & -> & Hp0 & Hhd).
  assert (nil = []) as ->.
  { rewrite !length_app in Hp0. destruct nil; [reflexivity|]. cbn [length] in Hp0. lia. }
  rewrite app_nil_r in *. rewrite length_app in Hpre.
  destruct (split3 hd 0 12 ltac:(lia)) as (nil & hd12 & hd8 & -> & Hnil & H12).
  destruct nil; [|discriminate]. cbn [app] in *. rewrite length_app in Hhd, Hpre.
  set (src := Buf _ _ _).
  assert (src = Buf (p0 ++ hd12 ++ hd8 ++ data_bytes ++ post) (length p0 + 20)
                  (length data_bytes)) as Esrc.
  { unfold src. rewrite <- !app_assoc, !length_app. f_equal. lia. }
  clearbody src. subst src.
  set (st0 := set_txbuf st _).
  unfold udp_out.
  assert (deref st0 TxBuf
          = Buf (p0 ++ hd12 ++ hd8 ++ data_bytes ++ post) (length p0 + 20)
              (length data_bytes)) as -> by reflexivity.
  rewrite udp_segment_open by lia. fold seg.
  set (segbuf := Buf (p0 ++ hd12 ++ seg ++ post) (length p0 + 12) (length data_bytes + 8)).
  cbn [assign].
  set (st1 := set_txbuf st0 segbuf).
  assert (window segbuf = seg) as Ews.
  { unfold segbuf. rewrite (app_assoc p0 hd12).
    apply window_mid; [rewrite length_app; lia|].
    unfold seg. rewrite length_udp_datagram. reflexivity. }
  assert (deref st1 TxBuf = segbuf) as Hd1 by reflexivity.
  assert (arp_table st1 = arp_table st /\ now st1 = now st /\ ip_id st1 = ip_id st /\
          trace st1 = trace st) as (Ha1 & Hn1 & Hi1 & Ht1) by (repeat split).
  rewrite ip_out_small_eq by (rewrite Hd1; unfold segbuf; cbn [len]; lia).
  rewrite Hd1, Ews, Hi1.
  set (st2 := set_ip_id _ _).
  assert (deref st2 TxBuf = segbuf) as Hd2 by reflexivity.
  assert (trace st2 = trace st ++ [EvIpOut seg dip NET_PROTOCOL_UDP]) as Ht2.
  { unfold st2. cbn [trace set_ip_id log]. rewrite Ht1. reflexivity. }
  destruct (ip_fragment_out_cached cfg st2 TxBuf dip NET_PROTOCOL_UDP (ip_id st) 0 0 mac)
    as (Htr & _).
  - exact Hget.
  - rewrite Hd2. unfold buf_wf, segbuf. cbn [payload data len].
    rewrite !length_app. unfold seg. rewrite length_udp_datagram. lia.
  - rewrite Hd2. unfold segbuf. cbn [data]. lia.
  - rewrite Hd2. unfold segbuf. cbn [payload data].
    rewrite !length_app. unfold seg. rewrite length_udp_datagram. lia.
  - rewrite Htr, Hd2, Ews, Ht2. unfold segbuf at 1 2. cbn [len].
    change (ip_flags_fragment cfg 0 0) with 0. fold total. fold dgram.
    rewrite !filter_driver_send_app. cbn. rewrite !app_nil_r. reflexivity.
Qed.

(** [ethernet_in] on a frame that carries an unfragmented datagram with a UDP
    segment of [udp_out]'s layout for this host, IP and UDP being registered
    and the port open. *)
Lemma ethernet_in_udp cfgA cfg st (rx : buf_t) dst_mac src_mac id ff
    (data_bytes : list byte) sport dport handler :
  let seg := udp_datagram (net_if_ip cfgA) (net_if_ip cfg) sport dport data_bytes in
  let total := Z.of_nat (length data_bytes + 8 + 20) in
  let dgram :=
    ip_header cfgA total id ff NET_PROTOCOL_UDP (net_if_ip cfg)
      (checksum16 (ip_header cfgA total id ff NET_PROTOCOL_UDP (net_if_ip cfg) 0))
    ++ seg in
  buf_wf rx -> window rx = ether_frame dst_mac src_mac NET_PROTOCOL_IP dgram ->
  total < 65536 -> 0 <= sport < 65536 -> 0 <= dport < 65536 ->
  NET_PROTOCOL_IP ∈ net_protocols st -> NET_PROTOCOL_UDP ∈ net_protocols st ->
  udp_table st !! dport = Some handler ->
  (ethernet_in cfg st rx).1
  = log st (EvUdpHandler handler data_bytes (net_if_ip cfgA) sport).
Proof.
  intros seg total dgram Hwf Hw Htot Hsp Hdp Hip Hudp Hh.
  destruct (buf_open_window rx Hwf) as (pre & post & E & _).
  rewrite Hw in E. rewrite E.
  rewrite ethernet_in_open by (unfold NET_PROTOCOL_IP; lia).
  unfold net_in_ether. rewrite (bool_decide_eq_true_2 _ Hip).
  change (NET_PROTOCOL_IP =? NET_PROTOCOL_ARP) with false.
  change (NET_PROTOCOL_IP =? NET_PROTOCOL_IP) with true. cbn match.
  destruct (ether_frame_payload_open pre post dst_mac src_mac NET_PROTOCOL_IP dgram)
    as (pre' & -> & Hpre').
  rewrite <- Hpre'.
  set (hdr := ip_header cfgA total id ff NET_PROTOCOL_UDP (net_if_ip cfg)
                (checksum16 (ip_header cfgA total id ff NET_PROTOCOL_UDP
                               (net_if_ip cfg) 0))) in *.
  assert (length hdr = 20%nat) as Hhdr by apply length_ip_header.
  assert (length seg = (length data_bytes + 8)%nat) as Hseg by apply length_udp_datagram.
  set (pad := replicate (46 - length dgram) x00 ++ post).
  assert (pre' ++ dgram ++ pad = pre' ++ hdr ++ seg ++ pad) as ->.
  { unfold dgram. rewrite <- app_assoc. reflexivity. }
  pose proof (ip_in_open cfgA cfg st pre' seg pad
                (length (dgram ++ replicate (46 - length dgram) x00)) id ff
                NET_PROTOCOL_UDP src_mac) as Hin.
  cbn zeta in Hin. rewrite Hseg in Hin. fold total in Hin. fold hdr in Hin.
  rewrite Hin;
    [| exact Htot
     | unfold dgram; rewrite !length_app, Hhdr, Hseg; lia
     | unfold NET_PROTOCOL_UDP; lia ].
  unfold net_in. rewrite (bool_decide_eq_true_2 _ Hudp).
  change (NET_PROTOCOL_UDP =? NET_PROTOCOL_ICMP) with false.
  change (NET_PROTOCOL_UDP =? NET_PROTOCOL_UDP) with true. cbn match.
  rewrite <- (take_drop 8 hdr).
  assert (length (take 8 hdr) = 8%nat) as H8 by (rewrite length_take; lia).
  assert (length (drop 8 hdr) = 12%nat) as H12 by (rewrite length_drop; lia).
  rewrite <- (app_assoc (take 8 hdr)), (app_assoc pre' (take 8 hdr)).
  replace (length pre' + 20)%nat with (length (pre' ++ take 8 hdr) + 12)%nat
    by (rewrite length_app; lia).
  pose proof (udp_in_datagram cfg st (pre' ++ take 8 hdr) (drop 8 hdr) data_bytes pad
                (net_if_ip cfgA) sport dport H12 Hsp Hdp ltac:(unfold total in Htot; lia))
    as Hu.
  cbn zeta in Hu. fold seg in Hu. rewrite Hu, Hh. reflexivity.
Qed.

(** X22.  End to end between two hosts A and B running this code.  A calls
    [udp_send] with data that needs no fragmentation, for an address whose
    MAC address is in A's ARP cache: one frame goes to the driver, the
    Ethernet header followed by the IP header and the UDP segment.  When
    B's [ethernet_in] receives that frame, IP and UDP being registered and
    the destination port open, the handler of the port is called once with
    exactly the data A sent, A's address and the source port. *)
Theorem udp_send_reaches_handler (cfgA cfgB : net_config) (stA stB : net_t)
    (rxB : buf_t) (data_bytes : list byte) (sport dport : Z) (macB : mac_t)
    (handler : nat) :
  let ipA := net_if_ip cfgA in
  let ipB := net_if_ip cfgB in
  length (payload (txbuf stA)) = BUF_MAX_LEN cfgA ->
  (length data_bytes + 42 <= BUF_MAX_LEN cfgA / 2)%nat ->
  (length data_bytes + 8 <= max_payload cfgA)%nat ->
  Z.of_nat (length data_bytes + 28) < 65536 ->
  0 <= sport < 65536 -> 0 <= dport < 65536 ->
  map_get (ARP_TIMEOUT_SEC cfgA) (arp_table stA) ipB (now stA) = Some macB ->
  NET_PROTOCOL_IP ∈ net_protocols stB -> NET_PROTOCOL_UDP ∈ net_protocols stB ->
  udp_table stB !! dport = Some handler ->
  let total := Z.of_nat (length data_bytes + 28) in
  let frame :=
    ether_frame macB (net_if_mac cfgA) NET_PROTOCOL_IP
      (ip_header cfgA total (ip_id stA) 0 NET_PROTOCOL_UDP ipB
         (checksum16 (ip_header cfgA total (ip_id stA) 0 NET_PROTOCOL_UDP ipB 0)) ++
       udp_datagram ipA ipB sport dport data_bytes) in
  buf_wf rxB -> window rxB = frame ->
  let stA' := udp_send cfgA stA data_bytes (Z.of_nat (length data_bytes)) sport ipB dport in
  let stB' := (ethernet_in cfgB stB rxB).1 in
  frames_sent (trace stA') = frames_sent (trace stA) ++ [EvDriverSend frame] /\
  trace stB' = trace stB ++ [EvUdpHandler handler data_bytes ipA sport].
Proof.
  intros ipA ipB Htx Hcap Hsmall Htot Hsp Hdp Hget Hip Hudp Hh total frame
    Hwf Hw stA' stB'.
  assert (length data_bytes + 8 + 20 = length data_bytes + 28)%nat as El by lia.
  pose proof (udp_send_frame cfgA stA data_bytes sport ipB dport macB Htx Hcap Hsmall
                Hget) as Hs.
  pose proof (ethernet_in_udp cfgA cfgB stB rxB macB (net_if_mac cfgA) (ip_id stA) 0
                data_bytes sport dport handler) as Hr.
  cbn zeta in Hs, Hr. rewrite El in Hs, Hr.
  fold ipA ipB total in Hs, Hr. fold frame in Hs, Hr.
  split; [exact Hs|].
  unfold stB'. rewrite (Hr Hwf Hw Htot Hsp Hdp Hip Hudp Hh). reflexivity.
Qed.

Lemma udp_send_reaches_handler_witness :
  let stA := set_arp_table (up_state small_cfg) (map_set ∅ peer_ip peer_mac 0) in
  let stB := (udp_open (up_state peer_cfg) 53 7).1 in
  let frame :=
    ether_frame peer_mac (net_if_mac small_cfg) NET_PROTOCOL_IP
      (ip_header small_cfg 28 (ip_id stA) 0 NET_PROTOCOL_UDP peer_ip
         (checksum16 (ip_header small_cfg 28 (ip_id stA) 0 NET_PROTOCOL_UDP peer_ip 0))
       ++ udp_datagram (net_if_ip small_cfg) peer_ip 4660 53 []) in
  trace (ethernet_in peer_cfg stB (Buf frame 0 60)).1
  = trace stB ++ [EvUdpHandler 7 [] (net_if_ip small_cfg) 4660].
Proof.
  intros stA stB frame.
  destruct (udp_send_reaches_handler small_cfg peer_cfg stA stB (Buf frame 0 60) []
              4660 53 peer_mac 7) as (_ & H);
    [ reflexivity | simpl; lia | vm_compute; lia | simpl; lia | lia | lia
    | vm_compute; reflexivity | vm_compute; reflexivity | vm_compute; reflexivity
    | vm_compute; reflexivity | unfold buf_wf; simpl; lia | vm_compute; reflexivity | ].
  exact H.
Defined.


(** ** An echo request from the wire to the reply on the wire *)

(** The buffer [icmp_resp] hands to [ip_out]: the reply in [txbuf]. *)
Lemma icmp_resp_eq cfg st (req_buf : buf_t) (src_ip : ip_t) :
  buf_wf req_buf -> (4 <= len req_buf)%nat ->
  length (payload (txbuf st)) = BUF_MAX_LEN cfg ->
  (len req_buf <= BUF_MAX_LEN cfg / 2)%nat ->
  exists pre post,
    length pre = (BUF_MAX_LEN cfg / 2 - len req_buf)%nat /\
    length post = (BUF_MAX_LEN cfg - BUF_MAX_LEN cfg / 2)%nat /\
    icmp_resp cfg st req_buf src_ip
    = ip_out cfg
        (set_txbuf st
           (Buf (pre ++ embed_checksum ([x00; x00] ++ drop 2 (window req_buf)) 1 ++ post)
              (length pre) (len req_buf)))
        TxBuf src_ip NET_PROTOCOL_ICMP.
Proof.
  intros Hwf Hlen Htx Hcap.
  destruct (buf_open_window req_buf Hwf) as (rpre & rpost & _ & Hw).
  unfold icmp_resp.
  destruct (buf_init_open (BUF_MAX_LEN cfg) (txbuf st) (len req_buf) Htx Hcap)
    as (pre & old & post & -> & Hpre & Hold & Hpost).
  exists pre, post. split; [exact Hpre|]. split; [exact Hpost|].
  set (w := window req_buf) in *.
  assert (buf_store (Buf (pre ++ old ++ post) (length pre) (len req_buf)) 0 w
          = Buf (pre ++ w ++ post) (length pre) (len req_buf)) as ->.
  { rewrite buf_store_mid by (reflexivity || lia). do 2 f_equal.
    rewrite <- (app_nil_r old), list_inserts_0_r by lia. rewrite app_nil_r. reflexivity. }
  destruct w as [|t [|c [|k0 [|k1 rest]]]]; try (cbn [length] in Hw; lia).
  cbn [length] in Hw.
  repeat (first [ rewrite buf_store_mid
                    by (rewrite ?length_inserts, ?length_store16; cbn [length]; lia)
                | rewrite window_mid
                    by (rewrite ?length_inserts, ?length_store16; cbn [length]; lia)
                | progress cbn [payload data len] ]).
  reflexivity.
Qed.

Lemma length_embed_checksum d i : length (embed_checksum d i) = length d.
Proof. unfold embed_checksum, set_field16. rewrite !length_inserts. reflexivity. Qed.

(** X23.  A ping is answered.  When [ethernet_in] receives a frame with an
    unfragmented datagram for this host that carries an ICMP echo request,
    IP and ICMP being registered and the MAC address of the datagram's
    source being in the ARP cache, one frame goes to the driver: a datagram
    to the source with the echo reply, which is the request with type and
    code zero and the checksum recomputed.  The frame goes to the cached MAC
    address, not to the source address of the received frame. *)
Theorem ping_answered (cfgA cfg : net_config) (st : net_t) (rx : buf_t)
    (dst_mac src_mac macA : mac_t) (id ff : Z) (rest : list byte) :
  let ipA := net_if_ip cfgA in
  let req := x08 :: rest in
  let total := Z.of_nat (length req + 20) in
  let dgram :=
    ip_header cfgA total id ff NET_PROTOCOL_ICMP (net_if_ip cfg)
      (checksum16 (ip_header cfgA total id ff NET_PROTOCOL_ICMP (net_if_ip cfg) 0))
    ++ req in
  buf_wf rx -> window rx = ether_frame dst_mac src_mac NET_PROTOCOL_IP dgram ->
  (8 <= length req)%nat -> total < 65536 ->
  NET_PROTOCOL_IP ∈ net_protocols st -> NET_PROTOCOL_ICMP ∈ net_protocols st ->
  length (payload (txbuf st)) = BUF_MAX_LEN cfg ->
  (length req + 34 <= BUF_MAX_LEN cfg / 2)%nat ->
  (length req <= max_payload cfg)%nat ->
  map_get (ARP_TIMEOUT_SEC cfg) (arp_table st) ipA (now st) = Some macA ->
  let reply := embed_checksum ([x00; x00] ++ drop 2 req) 1 in
  let answer :=
    ip_header cfg total (ip_id st) 0 NET_PROTOCOL_ICMP ipA
      (checksum16 (ip_header cfg total (ip_id st) 0 NET_PROTOCOL_ICMP ipA 0))
    ++ reply in
  frames_sent (trace (ethernet_in cfg st rx).1) =
    frames_sent (trace st) ++
    [EvDriverSend (ether_frame macA (net_if_mac cfg) NET_PROTOCOL_IP answer)].
Proof.
  intros ipA req total dgram Hwf Hw Hlen Htot Hip Hicmp Htx Hcap Hsmall Hget
    reply answer.
  pose proof (half_bounds (BUF_MAX_LEN cfg)) as Hhalf.
  destruct (buf_open_window rx Hwf) as (pre & post & E & _).
  rewrite Hw in E. rewrite E.
  rewrite ethernet_in_open by (unfold NET_PROTOCOL_IP; lia).
  unfold net_in_ether. rewrite (bool_decide_eq_true_2 _ Hip).
  change (NET_PROTOCOL_IP =? NET_PROTOCOL_ARP) with false.
  change (NET_PROTOCOL_IP =? NET_PROTOCOL_IP) with true. cbn match.
  destruct (ether_frame_payload_open pre post dst_mac src_mac NET_PROTOCOL_IP dgram)
    as (pre' & -> & Hpre').
  rewrite <- Hpre'.
  set (hdr := ip_header cfgA total id ff NET_PROTOCOL_ICMP (net_if_ip cfg)
                (checksum16 (ip_header cfgA total id ff NET_PROTOCOL_ICMP
                               (net_if_ip cfg) 0))) in *.
  assert (length hdr = 20%nat) as Hhdr by apply length_ip_header.
  set (pad := replicate (46 - length dgram) x00 ++ post).
  assert (pre' ++ dgram ++ pad = pre' ++ hdr ++ req ++ pad) as ->.
  { unfold dgram. rewrite <- app_assoc. reflexivity. }
  pose proof (ip_in_open cfgA cfg st pre' req pad
                (length (dgram ++ replicate (46 - length dgram) x00)) id ff
                NET_PROTOCOL_ICMP src_mac) as Hin.
  cbn zeta in Hin. fold total in Hin. fold hdr in Hin.
  rewrite Hin;
    [| exact Htot
     | unfold dgram; rewrite !length_app, Hhdr; lia
     | unfold NET_PROTOCOL_ICMP; lia ].
  unfold net_in. rewrite (bool_decide_eq_true_2 _ Hicmp).
  change (NET_PROTOCOL_ICMP =? NET_PROTOCOL_ICMP) with true. cbn match.
  change (0 =? -1) with false. cbn match. cbn [fst].
  fold ipA.
  set (up := Buf (pre' ++ hdr ++ req ++ pad) (length pre' + 20) (length req)).
  assert (window up = req) as Ewup.
  { unfold up. rewrite (app_assoc pre' hdr).
    apply window_mid; [rewrite length_app; lia|reflexivity]. }
  assert (buf_wf up) as Hwfup.
  { unfold buf_wf, up. cbn [payload data len]. rewrite !length_app. lia. }
  assert (icmp_in cfg st up ipA = icmp_resp cfg st up ipA) as ->.
  { unfold icmp_in. assert (len up = length req) as -> by reflexivity.
    destruct (Nat.ltb_spec (length req) 8); [lia|].
    assert (buf_u8 up 0 = x08) as ->.
    { unfold up. rewrite (app_assoc pre' hdr).
      rewrite buf_u8_mid by (rewrite ?length_app; lia). reflexivity. }
    reflexivity. }
  destruct (icmp_resp_eq cfg st up ipA Hwfup) as (tpre & tpost & Htpre & Htpost & ->);
    [ change (len up) with (length req); lia | exact Htx
    | change (len up) with (length req); lia |].
  rewrite Ewup. fold reply.
  change (len up) with (length req) in Htpre |- *.
  assert (length reply = length req) as Hlr.
  { unfold reply. rewrite length_embed_checksum.
    rewrite length_app, length_drop. cbn [length]. lia. }
  set (rbuf := Buf (tpre ++ reply ++ tpost) (length tpre) (length req)).
  set (st1 := set_txbuf st rbuf).
  assert (deref st1 TxBuf = rbuf) as Hd1 by reflexivity.
  assert (window rbuf = reply) as Ewr.
  { unfold rbuf. apply window_mid; [reflexivity|]. symmetry. exact Hlr. }
  rewrite ip_out_small_eq by (rewrite Hd1; unfold rbuf; cbn [len]; exact Hsmall).
  rewrite Hd1, Ewr.
  assert (ip_id st1 = ip_id st) as -> by reflexivity.
  set (st2 := set_ip_id _ _).
  assert (deref st2 TxBuf = rbuf) as Hd2 by reflexivity.
  assert (trace st2 = trace st ++ [EvIpOut reply ipA NET_PROTOCOL_ICMP]) as Ht2
    by reflexivity.
  destruct (ip_fragment_out_cached cfg st2 TxBuf ipA NET_PROTOCOL_ICMP (ip_id st) 0 0 macA)
    as (Htr & _).
  - exact Hget.
  - rewrite Hd2. unfold buf_wf, rbuf. cbn [payload data len].
    rewrite !length_app, Hlr. lia.
  - rewrite Hd2. unfold rbuf. cbn [data]. lia.
  - rewrite Hd2. unfold rbuf. cbn [payload data]. rewrite !length_app, Hlr. lia.
  - rewrite Htr, Hd2, Ewr, Ht2. unfold rbuf at 1 2. cbn [len].
    change (ip_flags_fragment cfg 0 0) with 0. fold total. fold answer.
    rewrite !filter_driver_send_app. cbn. rewrite !app_nil_r. reflexivity.
Qed.

Lemma ping_answered_witness :
  let st := set_arp_table (up_state small_cfg) (map_set ∅ peer_ip peer_mac 0) in
  let req := [x08; x00; xf7; xfc; x00; x01; x00; x02] in
  let dgram :=
    ip_header peer_cfg 28 7 0 NET_PROTOCOL_ICMP (net_if_ip small_cfg)
      (checksum16 (ip_header peer_cfg 28 7 0 NET_PROTOCOL_ICMP (net_if_ip small_cfg) 0))
    ++ req in
  let rx := Buf (ether_frame (net_if_mac small_cfg) peer_mac NET_PROTOCOL_IP dgram) 0 60 in
  let answer :=
    ip_header small_cfg 28 (ip_id st) 0 NET_PROTOCOL_ICMP peer_ip
      (checksum16 (ip_header small_cfg 28 (ip_id st) 0 NET_PROTOCOL_ICMP peer_ip 0))
    ++ embed_checksum ([x00; x00] ++ drop 2 req) 1 in
  frames_sent (trace (ethernet_in small_cfg st rx).1) =
    frames_sent (trace st) ++
    [EvDriverSend (ether_frame peer_mac (net_if_mac small_cfg) NET_PROTOCOL_IP answer)].
Proof.
  intros st req dgram rx answer.
  apply (ping_answered peer_cfg small_cfg st rx (net_if_mac small_cfg) peer_mac peer_mac
           7 0 [x00; xf7; xfc; x00; x01; x00; x02]).
  - unfold buf_wf. vm_compute. lia.
  - vm_compute. reflexivity.
  - simpl. lia.
  - simpl. lia.
  - vm_compute. reflexivity.
  - vm_compute. reflexivity.
  - reflexivity.
  - simpl. lia.
  - vm_compute. lia.
  - vm_compute. reflexivity.
Defined.
